(** * mall_monitor: the snapshot store, the diff engine and the ingestion run

    A shallow embedding of [main.py].  Python values are modelled as the
    interpreter holds them:

    - [str] is a Rocq [string]; a character stands for a code point below
      256, on which [str.strip] and [str.lower] are modelled exactly;
    - [int] is [Z]; [float] is the rational value of a binary64 number and
      every float operation rounds to nearest, ties to even;
    - a [dict] is an association list in insertion order, a [set] is the
      list of its elements in iteration order;
    - the file system, the console, the clock and the vendor API are
      explicit parts of the state a run threads through; paths are read
      the way [posixpath] reads them. *)

From Stdlib Require Import Ascii String ZArith QArith Qround Qreduction Qabs Qcanon Lia.
From stdpp Require Import base option list gmap strings.

#[local] Set Warnings "-clear-no-such-hyp,-register-all".

Local Open Scope Z_scope.

(** ** Python strings *)

Module PyStr.

(** [str.isspace] on one code point below 256: the ASCII controls
    TAB..CR and FS..US, the space, NEL (0x85) and NBSP (0xA0). *)
Definition isspace (c : ascii) : bool :=
  let n := N_of_ascii c in
  (((9 <=? n) && (n <=? 13)) || ((28 <=? n) && (n <=? 32))
   || (n =? 133) || (n =? 160))%N.

(** [str.lower] on one code point below 256: A..Z and the Latin-1
    capitals 0xC0..0xDE (without the multiplication sign 0xD7) move up
    by 32, everything else is kept. *)
Definition lower_char (c : ascii) : ascii :=
  let n := N_of_ascii c in
  if (((65 <=? n) && (n <=? 90))
      || ((192 <=? n) && (n <=? 222) && negb (n =? 215)))%N
  then ascii_of_N (n + 32) else c.

Fixpoint lstrip (s : string) : string :=
  match s with
  | EmptyString => EmptyString
  | String c rest => if isspace c then lstrip rest else s
  end.

Fixpoint rstrip (s : string) : string :=
  match s with
  | EmptyString => EmptyString
  | String c rest =>
      match rstrip rest with
      | EmptyString => if isspace c then EmptyString else String c EmptyString
      | kept => String c kept
      end
  end.

(** [s.strip()] *)
Definition strip (s : string) : string := rstrip (lstrip s).

(** [s.lower()] *)
Fixpoint lower (s : string) : string :=
  match s with
  | EmptyString => EmptyString
  | String c rest => String (lower_char c) (lower rest)
  end.

(** Nothing but whitespace. *)
Fixpoint blank (s : string) : bool :=
  match s with
  | EmptyString => true
  | String c rest => isspace c && blank rest
  end.

End PyStr.

(** ** Python floats (IEEE 754 binary64, round to nearest even) *)

Module PyFloat.

(** [2 ^ e] for any integer exponent. *)
Definition pow2 (e : Z) : Q :=
  match e with
  | Zneg p => 1 # (2 ^ p)
  | _ => inject_Z (2 ^ e)
  end.

(** Nearest integer, a tie goes to the even neighbour. *)
Definition round_half_even (q : Q) : Z :=
  let f := Qfloor q in
  match (q - inject_Z f ?= 1 # 2)%Q with
  | Lt => f
  | Gt => f + 1
  | Eq => if Z.even f then f else f + 1
  end.

(** [floor (log2 |q|)] of a non-zero rational. *)
Definition ilog2 (q : Q) : Z :=
  let k := Z.log2 (Z.abs (Qnum q)) - Z.log2 (Zpos (Qden q)) in
  if Qle_bool (pow2 k) (Qabs q) then k else k - 1.

(** The binary64 number nearest to [q]: 53 significant bits, the least
    exponent is that of the subnormals.  Overflow to infinity is not
    modelled (it needs a magnitude of 2^1024) and the sign of a zero is
    not kept. *)
Definition b64 (q : Q) : Q :=
  let q := Qred q in
  if Qeq_bool q 0 then 0%Q
  else
    let e := Z.max (ilog2 q - 52) (-1074) in
    Qred (inject_Z (round_half_even (q / pow2 e)) * pow2 e).

(** [a / b] on two ints: the exact quotient, rounded once. *)
Definition int_true_div (a b : Z) : Q := b64 (inject_Z a / inject_Z b).

(** [x * k] for a float [x] and an int [k] that a float holds exactly. *)
Definition float_mul_int (x : Q) (k : Z) : Q := b64 (x * inject_Z k).

(** [round(x, ndigits)] for [ndigits >= 0]: the exact value of [x] is
    rounded half-even to [ndigits] decimals, and the decimal is read
    back as the nearest float. *)
Definition py_round (x : Q) (ndigits : Z) : Q :=
  let scale := inject_Z (10 ^ ndigits) in
  b64 (inject_Z (round_half_even (x * scale)) / scale).

End PyFloat.

(** ** Python values, dicts and sets *)

(** The values [json.load] can return and [json.dump] can write. *)
Inductive pyval :=
| PNone
| PBool (b : bool)
| PInt (z : Z)
| PFloat (q : Q)
| PStr (s : string)
| PList (items : list pyval)
| PDict (members : list (string * pyval)).

(** [len(l)] *)
Definition len {A} (l : list A) : Z := Z.of_nat (length l).

(** A [dict] with [str] keys: the entries in insertion order, no key twice. *)
Definition dict (V : Type) : Type := list (string * V).

(** [d[k] = v]: a present key keeps its place and takes the new value, an
    absent key is appended. *)
Fixpoint dict_set {V} (d : dict V) (k : string) (v : V) : dict V :=
  match d with
  | [] => [(k, v)]
  | (k', v') :: rest =>
      if decide (k' = k) then (k', v) :: rest else (k', v') :: dict_set rest k v
  end.

(** [d[k]]; [None] stands for [KeyError]. *)
Fixpoint dict_get {V} (d : dict V) (k : string) : option V :=
  match d with
  | [] => None
  | (k', v) :: rest => if decide (k' = k) then Some v else dict_get rest k
  end.

Definition dict_keys {V} (d : dict V) : list string := d.*1.
Definition dict_values {V} (d : dict V) : list V := d.*2.

(** The order in which the interpreter iterates over a [set] of strings.
    [hash_order l] lists the elements of the set that received the distinct
    strings [l], in this order, one after the other.  The order comes from
    the string hash, which the interpreter seeds afresh in every process,
    so the program cannot rely on more than: the same elements come out. *)
Class HashOrder := {
  hash_order : list string → list string;
  hash_order_perm : ∀ l, hash_order l ≡ₚ l
}.

(** Two interpreters: the hash of the first happens to keep the insertion
    order, the hash of the second puts the string [k] into an earlier slot
    than every other string. *)
Definition insertion_order : HashOrder :=
  {| hash_order := λ l, l; hash_order_perm := λ l, reflexivity l |}.

Definition slot_first (k : string) : HashOrder :=
  {| hash_order := λ l, filter (λ x, x = k) l ++ filter (λ x, x ≠ k) l;
     hash_order_perm := filter_app_complement (λ x, x = k) |}.

Section PySet.
Context `{HashOrder}.

(** A [set] of strings, as the list its iteration yields. *)
Definition pyset : Type := list string.

(** [x in s] *)
Definition set_mem (x : string) (s : pyset) : bool := bool_decide (x ∈ s).

(** The distinct elements of [l], each at its first occurrence. *)
Definition distinct (l : list string) : list string :=
  foldl (λ seen x, if bool_decide (x ∈ seen) then seen else seen ++ [x]) [] l.

(** [set(l)] *)
Definition set_of (l : list string) : pyset := hash_order (distinct l).

(** [a - b] *)
Definition set_difference (a b : pyset) : pyset :=
  hash_order (filter (λ x, set_mem x b = false) a).

(** [a & b]: the interpreter walks over the smaller operand (the right
    one when both have the same size) and keeps what the other holds. *)
Definition set_intersection (a b : pyset) : pyset :=
  let '(so, other) :=
    if (length a <? length b)%nat then (b, a) else (a, b) in
  hash_order (filter (λ x, set_mem x so = true) other).

(** [a != b] on sets *)
Definition set_ne (a b : pyset) : bool :=
  negb (bool_decide (length a = length b) && forallb (λ x, set_mem x b) a).
End PySet.

(** ** Data model *)

(** [members.get(key, default)] on the members of a JSON object in the
    order of the text; a repeated key takes its last value, as [json.load]
    builds the dict. *)
Fixpoint members_get (members : list (string * pyval)) (key : string)
    (default : pyval) : pyval :=
  match members with
  | [] => default
  | (k, v) :: rest => members_get rest key (if decide (k = key) then v else default)
  end.

(** A [Point] instance as the interpreter holds it: the dataclass does not
    check its annotations, so an attribute is whatever value it was given. *)
Record DynPoint := mkDynPoint {
  dyn_id : pyval;
  dyn_name : pyval;
  dyn_parsed_categories : pyval;
  dyn_assigned_categories : pyval;
  dyn_parsing_date : pyval;
  dyn_status : pyval
}.

(** [dataclasses.asdict(shop)] *)
Definition dyn_asdict (shop : DynPoint) : pyval :=
  PDict [("id", dyn_id shop);
         ("name", dyn_name shop);
         ("parsed_categories", dyn_parsed_categories shop);
         ("assigned_categories", dyn_assigned_categories shop);
         ("parsing_date", dyn_parsing_date shop);
         ("status", dyn_status shop)].

(** A [Point] whose attributes have the annotated types. *)
Record Point := mkPoint {
  id : string;
  name : string;
  parsed_categories : list string;
  assigned_categories : list string;
  parsing_date : string;
  status : string
}.

Definition of_point (shop : Point) : DynPoint :=
  mkDynPoint (PStr (id shop)) (PStr (name shop))
    (PList (PStr <$> parsed_categories shop))
    (PList (PStr <$> assigned_categories shop))
    (PStr (parsing_date shop)) (PStr (status shop)).

Definition as_str (v : pyval) : option string :=
  match v with PStr s => Some s | _ => None end.

Definition as_str_list (v : pyval) : option (list string) :=
  match v with PList items => mapM as_str items | _ => None end.

(** The typed view of an instance, when it has the annotated types. *)
Definition to_point (shop : DynPoint) : option Point :=
  id ← as_str (dyn_id shop);
  name ← as_str (dyn_name shop);
  parsed_categories ← as_str_list (dyn_parsed_categories shop);
  assigned_categories ← as_str_list (dyn_assigned_categories shop);
  parsing_date ← as_str (dyn_parsing_date shop);
  status ← as_str (dyn_status shop);
  Some (mkPoint id name parsed_categories assigned_categories parsing_date status).

Definition asdict (shop : Point) : pyval := dyn_asdict (of_point shop).

(** [{'old': ..., 'new': ...}] *)
Record FieldChange := mkFieldChange { old : string; new : string }.

(** [{'added': ..., 'removed': ..., 'total_old': ..., 'total_new': ...}] *)
Record CategoriesChange := mkCategoriesChange {
  added : list string;
  removed : list string;
  total_old : Z;
  total_new : Z
}.

(** The dict [changes]; a key that was not set is [None]. *)
Record Changes := mkChanges {
  changes_id : option FieldChange;
  changes_status : option FieldChange;
  changes_categories : option CategoriesChange
}.

(** [if changes:] *)
Definition nonempty (c : Changes) : bool :=
  bool_decide (is_Some (changes_id c))
  || bool_decide (is_Some (changes_status c))
  || bool_decide (is_Some (changes_categories c)).

(** One element of [changed_shops]. *)
Record ChangedShop := mkChangedShop {
  shop_name : string;
  old_shop : pyval;
  new_shop : pyval;
  changes : Changes
}.

Module Stats.
Record t := mk {
  total_before : Z;
  total_after : Z;
  new_count : Z;
  disappeared_count : Z;
  changed_count : Z;
  unchanged_count : Z;
  change_percentage : Q
}.
End Stats.

Record ChangeReport := mkChangeReport {
  date : string;
  total_before : Z;
  total_after : Z;
  new_shops : list Point;
  disappeared_shops : list Point;
  changed_shops : list ChangedShop;
  stats : Stats.t
}.

(** ** The diff engine *)

Definition normalize_name (name : string) : string :=
  PyStr.lower (PyStr.strip name).

(** The reconciliation key of a shop: [normalize_name(shop.name)]. *)
Definition key (shop : Point) : string := normalize_name (name shop).

(** [{normalize_name(shop.name): shop for shop in shops}] *)
Definition name_dict (shops : list Point) : dict Point :=
  foldl (λ d shop, dict_set d (key shop) shop) [] shops.

(** The set of normalized names of a collection, as the specification
    speaks of it: [old_keys], [new_keys]. *)
Definition key_set (shops : list Point) : gset string :=
  list_to_set (key <$> shops).

(** Every entry of the dict sits under the key of its own shop. *)
Definition keyed (d : dict Point) : Prop := Forall (λ kv, kv.1 = key kv.2) d.

Section DiffEngine.
Context `{HashOrder}.

(** The body of the loop over [remaining_names] up to [if changes:]. *)
Definition detect_changes (old_shop new_shop : Point) : Changes :=
  let changes_id :=
    if decide (id old_shop ≠ id new_shop)
    then Some (mkFieldChange (id old_shop) (id new_shop)) else None in
  let changes_status :=
    if decide (status old_shop ≠ status new_shop)
    then Some (mkFieldChange (status old_shop) (status new_shop)) else None in
  let old_cats := set_of (parsed_categories old_shop) in
  let new_cats := set_of (parsed_categories new_shop) in
  let changes_categories :=
    if set_ne old_cats new_cats then
      let added := set_difference new_cats old_cats in
      let removed := set_difference old_cats new_cats in
      if bool_decide (added ≠ []) || bool_decide (removed ≠ []) then
        Some (mkCategoriesChange added removed (len old_cats) (len new_cats))
      else None
    else None in
  mkChanges changes_id changes_status changes_categories.

(** The loop over [remaining_names]; a missing key raises. *)
Fixpoint changed_loop (old_dict new_dict : dict Point) (names : list string)
  : option (list ChangedShop) :=
  match names with
  | [] => Some []
  | name' :: rest =>
      old_shop ← dict_get old_dict name';
      new_shop ← dict_get new_dict name';
      later ← changed_loop old_dict new_dict rest;
      let changes := detect_changes old_shop new_shop in
      Some (if nonempty changes
            then mkChangedShop (name old_shop) (asdict old_shop)
                   (asdict new_shop) changes :: later
            else later)
  end.

Definition change_percentage (before after : Z) : Q :=
  PyFloat.py_round
    (PyFloat.float_mul_int
       (PyFloat.int_true_div (after - before) (Z.max before 1)) 100) 2.

(** [set(d.keys())] for the dict [d] built from [shops]: [old_names] and
    [new_names]. *)
Definition names (shops : list Point) : pyset :=
  set_of (dict_keys (name_dict shops)).

(** The three key sets the classification rests on. *)
Definition appeared_names (old_shops new_shops : list Point) : pyset :=
  set_difference (names new_shops) (names old_shops).
Definition disappeared_names (old_shops new_shops : list Point) : pyset :=
  set_difference (names old_shops) (names new_shops).
Definition remaining_names (old_shops new_shops : list Point) : pyset :=
  set_intersection (names old_shops) (names new_shops).

(** [analyze_changes(old_shops, new_shops)]; [now] is what
    [datetime.now().strftime("%Y-%m-%d %H:%M:%S")] gives during the
    call, [None] stands for a [KeyError]. *)
Definition analyze_changes (now : string) (old_shops new_shops : list Point)
  : option ChangeReport :=
  let old_dict := name_dict old_shops in
  let new_dict := name_dict new_shops in
  new_shops_list ← mapM (dict_get new_dict) (appeared_names old_shops new_shops);
  disappeared_shops_list ←
    mapM (dict_get old_dict) (disappeared_names old_shops new_shops);
  changed_shops_list ←
    changed_loop old_dict new_dict (remaining_names old_shops new_shops);
  let stats :=
    Stats.mk (len old_shops) (len new_shops)
      (len new_shops_list) (len disappeared_shops_list)
      (len changed_shops_list)
      (len (remaining_names old_shops new_shops) - len changed_shops_list)
      (change_percentage (len old_shops) (len new_shops)) in
  Some (mkChangeReport now (len old_shops) (len new_shops)
          new_shops_list disappeared_shops_list changed_shops_list stats).
End DiffEngine.

(** ** Reports up to the iteration order of sets *)

(** The collection after deduplication by normalized name: one shop per
    key, the last one of the input. *)
Definition deduplicated (shops : list Point) : list Point :=
  dict_values (name_dict shops).

(** What one pass of the loop over [remaining_names] appends, if anything. *)
Definition changed_entry `{HashOrder} (old_dict new_dict : dict Point)
    (k : string) : option ChangedShop :=
  old_shop ← dict_get old_dict k;
  new_shop ← dict_get new_dict k;
  let changes := detect_changes old_shop new_shop in
  if nonempty changes
  then Some (mkChangedShop (name old_shop) (asdict old_shop) (asdict new_shop) changes)
  else None.

Definition categories_equiv (c1 c2 : CategoriesChange) : Prop :=
  added c1 ≡ₚ added c2 ∧ removed c1 ≡ₚ removed c2
  ∧ total_old c1 = total_old c2 ∧ total_new c1 = total_new c2.

Definition changes_equiv (c1 c2 : Changes) : Prop :=
  changes_id c1 = changes_id c2 ∧ changes_status c1 = changes_status c2
  ∧ option_Forall2 categories_equiv (changes_categories c1) (changes_categories c2).

Definition entry_equiv (e1 e2 : ChangedShop) : Prop :=
  shop_name e1 = shop_name e2 ∧ old_shop e1 = old_shop e2
  ∧ new_shop e1 = new_shop e2 ∧ changes_equiv (changes e1) (changes e2).

(** The same entries, listed in any order, each with its [added] and
    [removed] categories in any order. *)
Definition same_entries (l1 l2 : list ChangedShop) : Prop :=
  ∃ l, l1 ≡ₚ l ∧ Forall2 entry_equiv l l2.

(** Two reports that differ at most in their date and in the order in
    which sets were iterated. *)
Definition report_equiv (r1 r2 : ChangeReport) : Prop :=
  total_before r1 = total_before r2
  ∧ total_after r1 = total_after r2
  ∧ new_shops r1 ≡ₚ new_shops r2
  ∧ disappeared_shops r1 ≡ₚ disappeared_shops r2
  ∧ same_entries (changed_shops r1) (changed_shops r2)
  ∧ stats r1 = stats r2.

(** The report without its time stamp. *)
Definition without_date (r : ChangeReport) : ChangeReport :=
  mkChangeReport "" (total_before r) (total_after r) (new_shops r)
    (disappeared_shops r) (changed_shops r) (stats r).

(** ** The example scenario of the specification *)

Definition shop_a_old : Point := mkPoint "1" "Shop A" ["food"] [] "" "opened".
Definition shop_a_new : Point :=
  mkPoint "1" "shop a" ["food"; "drinks"] [] "" "closed".
Definition shop_b : Point := mkPoint "2" "Shop B" [] [] "" "opened".

(** ** What the report writers serialise *)

Definition field_change_dict (c : FieldChange) : pyval :=
  PDict [("old", PStr (old c)); ("new", PStr (new c))].

Definition categories_change_dict (c : CategoriesChange) : pyval :=
  PDict [("added", PList (PStr <$> added c));
         ("removed", PList (PStr <$> removed c));
         ("total_old", PInt (total_old c));
         ("total_new", PInt (total_new c))].

Definition entry (key : string) (v : option pyval) : list (string * pyval) :=
  match v with Some v => [(key, v)] | None => [] end.

Definition changes_dict (c : Changes) : pyval :=
  PDict (entry "id" (field_change_dict <$> changes_id c)
         ++ entry "status" (field_change_dict <$> changes_status c)
         ++ entry "categories" (categories_change_dict <$> changes_categories c)).

Definition changed_shop_dict (e : ChangedShop) : pyval :=
  PDict [("name", PStr (shop_name e));
         ("old_shop", old_shop e);
         ("new_shop", new_shop e);
         ("changes", changes_dict (changes e))].

Definition stats_dict (s : Stats.t) : pyval :=
  PDict [("total_before", PInt (Stats.total_before s));
         ("total_after", PInt (Stats.total_after s));
         ("new_count", PInt (Stats.new_count s));
         ("disappeared_count", PInt (Stats.disappeared_count s));
         ("changed_count", PInt (Stats.changed_count s));
         ("unchanged_count", PInt (Stats.unchanged_count s));
         ("change_percentage", PFloat (Stats.change_percentage s))].

(** [asdict(report)] *)
Definition report_asdict (r : ChangeReport) : pyval :=
  PDict [("date", PStr (date r));
         ("total_before", PInt (total_before r));
         ("total_after", PInt (total_after r));
         ("new_shops", PList (asdict <$> new_shops r));
         ("disappeared_shops", PList (asdict <$> disappeared_shops r));
         ("changed_shops", PList (changed_shop_dict <$> changed_shops r));
         ("stats", stats_dict (stats r))].

Module TemplateData.
Record t := mk {
  report_date : string;
  total_before : Z;
  total_after : Z;
  new_count : Z;
  disappeared_count : Z;
  changed_count : Z;
  change_percentage : Q;
  change_color : string;
  new_shops : list pyval;
  disappeared_shops : list pyval;
  changed_shops : list ChangedShop
}.
End TemplateData.

(** ** Paths, as [posixpath] reads them *)

Module PosixPath.
Definition is_sep (c : ascii) : bool := Ascii.eqb c "/"%char.

Fixpoint has_sep (p : string) : bool :=
  match p with
  | EmptyString => false
  | String c rest => is_sep c || has_sep rest
  end.

Fixpoint all_sep (p : string) : bool :=
  match p with
  | EmptyString => true
  | String c rest => is_sep c && all_sep rest
  end.

(** [p[:p.rfind('/') + 1]] *)
Fixpoint upto_last_sep (p : string) : string :=
  match p with
  | EmptyString => EmptyString
  | String c rest =>
      if has_sep rest then String c (upto_last_sep rest)
      else if is_sep c then String c EmptyString else EmptyString
  end.

(** [p[p.rfind('/') + 1:]] *)
Fixpoint after_last_sep (p : string) : string :=
  match p with
  | EmptyString => EmptyString
  | String c rest => if has_sep p then after_last_sep rest else p
  end.

(** [p.rstrip('/')] *)
Fixpoint rstrip_sep (p : string) : string :=
  match p with
  | EmptyString => EmptyString
  | String c rest => if all_sep p then EmptyString else String c (rstrip_sep rest)
  end.

(** [os.path.split(p)] *)
Definition split (p : string) : string * string :=
  let head := upto_last_sep p in
  (if negb (bool_decide (head = "")) && negb (all_sep head)
   then rstrip_sep head else head,
   after_last_sep p).

(** [os.path.dirname(p)] *)
Definition dirname (p : string) : string := (split p).1.
End PosixPath.

(** ** The world of a run: files, console, clock, vendor API *)

(** The text of a file, as far as the program can tell texts apart. *)
Inductive content :=
| JsonText (v : pyval)               (* what [json.dump(v, f)] writes and [json.load(f)] reads back *)
| Rendered (data : TemplateData.t)   (* the template rendered with [data] *)
| OtherText (text : string).         (* any text that is not JSON *)

(** What a name that is not a directory holds: a file the program can
    read, or something it cannot open. *)
Inductive node :=
| File (c : content)
| Blocked.

(** [datetime.now()] under the two formats the program prints it with. *)
Record instant := mkInstant {
  stamp : string;        (* "%Y-%m-%d %H:%M:%S" *)
  file_stamp : string    (* "%Y%m%d_%H%M%S" *)
}.

(** What [requests.get(url)], [raise_for_status()] and [response.json()]
    give together. *)
Inductive response :=
| FetchError            (* one of the three raised: timeout, connection, HTTP status, body *)
| Body (data : pyval).

(** The exceptions of a run; [OSError] stands for its subclasses too
    ([FileExistsError], [FileNotFoundError], [PermissionError], ...). *)
Inductive exn :=
| NameError | KeyError | TypeError | AttributeError
| OSError | JSONDecodeError | RequestException.

(** The lines printed; the texts themselves are not modelled. *)
Inductive message :=
| SnapshotNotFound (filename : string)
| SnapshotLoadError (e : exn)
| SnapshotSaved (filename : string)
| SnapshotSaveError (e : exn)
| ShopsBefore (n : Z)
| ParsingStarts
| RequestError (e : exn)
| ShopsAfter (n : Z)
| LatestReportSaved (path : string)
| HistoryReportSaved (path : string)
| ReportSaveError (e : exn)
| HtmlSaved (path : string)
| HistoryHtmlSaved (path : string)
| HtmlSaveError (e : exn).

(** The file system holds objects, each under a name of its own, and a
    path leads to the object [target path]: the path as the system reads
    it from the working directory, links followed.  Two paths mean the
    same file or directory exactly when their targets are equal.  The
    program makes no links and changes no permissions, so [target] and
    [denied] stay as they are during a run. *)
Record world := mkWorld {
  files : gmap string node;    (* what the objects that are not directories hold *)
  console : list message;
  clock : nat → instant;
  ticks : nat;                 (* how often the clock was read *)
  vendor : string → response;
  dirs : gset string;          (* the objects that are directories *)
  denied : string → bool;      (* objects the system lets the program neither make nor write to *)
  target : string → string
}.

Inductive outcome (A : Type) :=
| Done (a : A)         (* the call returned *)
| Raised (e : exn)     (* an exception left the call *)
| Unmodelled.          (* data outside the annotated types reached the diff engine *)
Arguments Done {A} a.
Arguments Raised {A} e.
Arguments Unmodelled {A}.

(** A computation of the program: it runs in a world, ends in an outcome
    and leaves a world. *)
Definition run (A : Type) : Type := world → outcome A * world.

#[global] Instance run_ret : MRet run := λ A a w, (Done a, w).

#[global] Instance run_bind : MBind run := λ A B f m w,
  match m w with
  | (Done a, w') => f a w'
  | (Raised e, w') => (Raised e, w')
  | (Unmodelled, w') => (Unmodelled, w')
  end.

Definition raise {A} (e : exn) : run A := λ w, (Raised e, w).

Definition unmodelled {A} : run A := λ w, (Unmodelled, w).

(** [try: body  except Exception as e: handler e]; what the body did
    before it raised stays done. *)
Definition try_except {A} (body : run A) (handler : exn → run A) : run A :=
  λ w, match body w with
       | (Raised e, w') => handler e w'
       | r => r
       end.

(** The world with other files, and with other directories. *)
Definition with_files (m : gmap string node) (w : world) : world :=
  mkWorld m (console w) (clock w) (ticks w) (vendor w) (dirs w) (denied w) (target w).

Definition with_dirs (ds : gset string) (w : world) : world :=
  mkWorld (files w) (console w) (clock w) (ticks w) (vendor w) ds (denied w) (target w).

Definition print (m : message) : run unit := λ w,
  (Done tt, mkWorld (files w) (console w ++ [m]) (clock w) (ticks w) (vendor w)
              (dirs w) (denied w) (target w)).

(** The world after some more lines were printed. *)
Definition said (w : world) (lines : list message) : world :=
  mkWorld (files w) (console w ++ lines) (clock w) (ticks w) (vendor w)
    (dirs w) (denied w) (target w).

(** [os.path.isdir(path)] *)
Definition is_dir (w : world) (path : string) : bool :=
  bool_decide (target w path ∈ dirs w).

(** [os.path.exists(path)], as a value *)
Definition exists_at (w : world) (path : string) : bool :=
  bool_decide (is_Some (files w !! target w path)) || is_dir w path.

(** [os.path.exists(path)] *)
Definition path_exists (path : string) : run bool := λ w,
  (Done (exists_at w path), w).

(** [open(path, 'r').read()] *)
Definition read_text (path : string) : run content := λ w,
  match files w !! target w path with
  | Some (File c) => (Done c, w)
  | _ => (Raised OSError, w)
  end.

(** Whether [open(path, 'w')] succeeds: the path is not empty, its
    directory is there (the working directory, for a path without a
    directory part), it does not lead to a directory or to something that
    cannot be opened, and the system lets the program write there. *)
Definition openable (w : world) (path : string) : bool :=
  negb (bool_decide (path = ""))
  && (bool_decide (PosixPath.dirname path = "") || is_dir w (PosixPath.dirname path))
  && negb (is_dir w path)
  && negb (denied w (target w path))
  && match files w !! target w path with Some Blocked => false | _ => true end.

(** [open(path, 'w').write(c)] *)
Definition write_text (path : string) (c : content) : run unit := λ w,
  if openable w path
  then (Done tt, with_files (<[target w path := File c]> (files w)) w)
  else (Raised OSError, w).

(** [os.mkdir(name)] as [os.makedirs(name, exist_ok=True)] calls it, [head]
    being the directory part of [name]: its error is passed over when
    the directory is there. *)
Definition mkdir (head name : string) : run unit := λ w,
  if is_dir w name then (Done tt, w)
  else if exists_at w name
          || denied w (target w name)
          || negb (bool_decide (head = "") || is_dir w head)
  then (Raised OSError, w)
  else (Done tt, with_dirs ({[target w name]} ∪ dirs w) w).

(** The first lines of [os.makedirs]: [name] split into its directory part
    and its last component, a separator at the end left out. *)
Definition makedirs_split (name : string) : string * string :=
  let '(head, tail) := PosixPath.split name in
  if bool_decide (tail = "") then PosixPath.split head else (head, tail).

(** [os.makedirs(name, exist_ok=True)] as the library defines it: the
    directories above [name] that do not exist are made first.  [fuel]
    bounds the recursion, which a path runs through once per component. *)
Fixpoint makedirs_from (fuel : nat) (name : string) : run unit := λ w,
  let '(head, tail) := makedirs_split name in
  match fuel with
  | S fuel =>
      if negb (bool_decide (head = "")) && negb (bool_decide (tail = ""))
         && negb (exists_at w head)
      then match makedirs_from fuel head w with
           | (Done _, w') =>
               if bool_decide (tail = ".") then (Done tt, w') else mkdir head name w'
           | failed => failed
           end
      else mkdir head name w
  | O => mkdir head name w
  end.

Definition makedirs (name : string) : run unit :=
  makedirs_from (String.length name) name.

(** [json.load] *)
Definition json_load (c : content) : run pyval :=
  match c with
  | JsonText v => mret v
  | _ => raise JSONDecodeError
  end.

(** [datetime.now()] *)
Definition now : run instant := λ w,
  (Done (clock w (ticks w)),
   mkWorld (files w) (console w) (clock w) (S (ticks w)) (vendor w)
     (dirs w) (denied w) (target w)).

(** [requests.get(url)], [raise_for_status()], [response.json()] *)
Definition fetch (url : string) : run pyval := λ w,
  match vendor w url with
  | FetchError => (Raised RequestException, w)
  | Body data => (Done data, w)
  end.

Definition chars (s : string) : list pyval :=
  (λ c, PStr (String c EmptyString)) <$> list_ascii_of_string s.

(** [for item in v]: the values the loop sees. *)
Definition py_iter (v : pyval) : run (list pyval) :=
  match v with
  | PList items => mret items
  | PDict members => mret (PStr <$> dict_keys (foldl (λ d kv, dict_set d kv.1 kv.2) [] members))
  | PStr s => mret (chars s)
  | _ => raise TypeError
  end.

(** [item.get(key, default)] *)
Definition get (item : pyval) (key : string) (default : pyval) : run pyval :=
  match item with
  | PDict members => mret (members_get members key default)
  | _ => raise AttributeError
  end.

(** [v[key]] for a string key *)
Definition subscript (v : pyval) (key : string) : run pyval :=
  match v with
  | PDict members =>
      if bool_decide (key ∈ members.*1)
      then mret (members_get members key PNone) else raise KeyError
  | _ => raise TypeError
  end.

(** ** The snapshot store *)

(** The [Point] that [load_old_shops] builds from the members of one
    stored object. *)
Definition stored_point (members : list (string * pyval)) : DynPoint :=
  mkDynPoint (members_get members "id" (PStr ""))
    (members_get members "name" (PStr ""))
    (members_get members "parsed_categories" (PList []))
    (members_get members "assigned_categories" (PList []))
    (members_get members "parsing_date" (PStr ""))
    (members_get members "status" (PStr "unknown")).

(** The body of the loop of [load_old_shops]: one call [Point(...)]. *)
Definition load_item (item : pyval) : run DynPoint :=
  id ← get item "id" (PStr "");
  name ← get item "name" (PStr "");
  parsed_categories ← get item "parsed_categories" (PList []);
  assigned_categories ← get item "assigned_categories" (PList []);
  parsing_date ← get item "parsing_date" (PStr "");
  status ← get item "status" (PStr "unknown");
  mret (mkDynPoint id name parsed_categories assigned_categories
          parsing_date status).

(** [load_old_shops(filename)]; the global [DATA_FILE] that stands in for a
    missing argument is defined nowhere in [main.py]. *)
Definition load_old_shops (filename : option string) : run (list DynPoint) :=
  filename ← match filename with
             | Some filename => mret filename
             | None => raise NameError
             end;
  present ← path_exists filename;
  if negb present then
    print (SnapshotNotFound filename);; mret []
  else
    try_except
      (text ← read_text filename;
       data ← json_load text;
       items ← py_iter data;
       mapM load_item items)
      (λ e, print (SnapshotLoadError e);; mret []).

(** [save_new_shops(shops, filename)]; the directory is made before the
    [try], so that its error leaves the call. *)
Definition save_new_shops (shops : list DynPoint) (filename : string) : run unit :=
  makedirs (if bool_decide (PosixPath.dirname filename = "")
            then "." else PosixPath.dirname filename);;
  let data_to_save := dyn_asdict <$> shops in
  try_except
    (write_text filename (JsonText (PList data_to_save));;
     print (SnapshotSaved filename))
    (λ e, print (SnapshotSaveError e)).

(** ** The report writers *)

Definition save_report_to_json (report : ChangeReport) : run unit :=
  let reports_dir := "reports" in
  makedirs reports_dir;;
  let latest_file := "reports/latest_report.json" in
  t ← now;
  let history_file := "reports/report_" +:+ file_stamp t +:+ ".json" in
  let report_dict := report_asdict report in
  try_except
    (write_text latest_file (JsonText report_dict);;
     print (LatestReportSaved latest_file);;
     write_text history_file (JsonText report_dict);;
     print (HistoryReportSaved history_file))
    (λ e, print (ReportSaveError e)).

Definition generate_html_report (report : ChangeReport) : run unit :=
  let change_percentage := Stats.change_percentage (stats report) in
  let change_color :=
    if Qlt_le_dec 0 change_percentage then "success"
    else if Qlt_le_dec change_percentage 0 then "danger" else "secondary" in
  let template_data :=
    TemplateData.mk (date report) (total_before report) (total_after report)
      (Stats.new_count (stats report)) (Stats.disappeared_count (stats report))
      (Stats.changed_count (stats report)) change_percentage change_color
      (asdict <$> new_shops report) (asdict <$> disappeared_shops report)
      (changed_shops report) in
  let html_content := Rendered template_data in
  let reports_dir := "reports" in
  makedirs reports_dir;;
  let html_file := "reports/report.html" in
  try_except
    (write_text html_file html_content;;
     print (HtmlSaved html_file);;
     t ← now;
     let history_html_file := "reports/report_" +:+ file_stamp t +:+ ".html" in
     write_text history_html_file html_content;;
     print (HistoryHtmlSaved history_html_file))
    (λ e, print (HtmlSaveError e)).

(** ** The ingestion runs *)

Section Ingestion.
Context `{HashOrder}.

(** The call [analyze_changes(old_shops, new_shop_list)] of a run, on
    instances that have the annotated types.  The interpreter goes on
    with other instances too (a number as [id], [None] as [name]); such
    a run is not followed any further here and ends as [Unmodelled], of
    which no theorem says anything. *)
Definition diff (old_shops new_shops : list DynPoint) : run ChangeReport :=
  match mapM to_point old_shops, mapM to_point new_shops with
  | Some old_shops, Some new_shops =>
      t ← now;
      match analyze_changes (stamp t) old_shops new_shops with
      | Some report => mret report
      | None => raise KeyError
      end
  | _, _ => unmodelled
  end.

(** What follows the fetch in both runs. *)
Definition finish (filename : string) (old_shops new_shop_list : list DynPoint)
  : run (option ChangeReport) :=
  print (ShopsAfter (len new_shop_list));;
  report ← diff old_shops new_shop_list;
  save_new_shops new_shop_list filename;;
  save_report_to_json report;;
  generate_html_report report;;
  mret (Some report).

Definition riviera_url : string :=
  "https://api.riviera.su/api/v1/tenants?category&limit=1500".

Definition parse_riviera (filename : string) : run (option ChangeReport) :=
  old_shops ← load_old_shops (Some filename);
  print (ShopsBefore (len old_shops));;
  print ParsingStarts;;
  fetched ← try_except
              (data ← fetch riviera_url; mret (Some data))
              (λ e, print (RequestError e);; mret None);
  match fetched with
  | None => mret None
  | Some data =>
      payload ← subscript data "payload";
      tenants ← subscript payload "data";
      items ← py_iter tenants;
      new_shop_list ←
        mapM (λ s,
                id ← get s "id" PNone;
                name ← get s "title" PNone;
                t ← now;
                status ← get s "status" (PStr "unknown");
                mret (mkDynPoint id name (PList []) (PList [])
                        (PStr (stamp t)) status))
          items;
      finish filename old_shops new_shop_list
  end.

Definition aviapark_url : string := "https://api.aviapark.com/v1/departments".

Definition parse_aviapark (filename : string) : run (option ChangeReport) :=
  old_shops ← load_old_shops (Some filename);
  print (ShopsBefore (len old_shops));;
  print ParsingStarts;;
  fetched ← try_except
              (data ← fetch aviapark_url; mret (Some data))
              (λ e, print (RequestError e);; mret None);
  match fetched with
  | None => mret None
  | Some data =>
      departments ← subscript data "departments";
      items ← py_iter departments;
      new_shop_list ←
        mapM (λ s,
                id ← get s "id" (PStr "");
                name ← get s "title" (PStr "");
                parsed_categories ← get s "categories" (PList []);
                t ← now;
                status ← get s "status" (PStr "unknown");
                mret (mkDynPoint id name parsed_categories (PList [])
                        (PStr (stamp t)) status))
          items;
      finish filename old_shops new_shop_list
  end.
End Ingestion.

(** ** Worlds to run the program in *)

(** A first run without network: a working directory without a file in
    it, every path naming an object of its own, every request failing. *)
Definition offline_world : world :=
  mkWorld ∅ [] (λ _, mkInstant "2025-01-01 00:00:00" "20250101_000000") 0
    (λ _, FetchError) {["."]} (λ _, false) (λ path, path).

(** A first run in which the vendor lists one shop. *)
Definition online_world : world :=
  mkWorld ∅ [] (clock offline_world) 0
    (λ _, Body (PDict [("departments",
                        PList [PDict [("id", PStr "1"); ("title", PStr "Shop A");
                                      ("categories", PList [PStr "food"])]])]))
    {["."]} (λ _, false) (λ path, path).

(** The vendor answers with an empty object. *)
Definition empty_reply_world : world :=
  mkWorld ∅ [] (clock offline_world) 0 (λ _, Body (PDict []))
    {["."]} (λ _, false) (λ path, path).

(** The vendor lists names instead of objects. *)
Definition names_only_world : world :=
  mkWorld ∅ [] (clock offline_world) 0
    (λ _, Body (PDict [("departments", PList [PStr "Shop A"])]))
    {["."]} (λ _, false) (λ path, path).

(** Two shops are stored and the vendor lists none. *)
Definition closed_mall_world : world :=
  mkWorld {[ "data/aviapark.json"
             := File (JsonText (PList (asdict <$> [shop_a_old; shop_b]))) ]}
    [] (clock offline_world) 0 (λ _, Body (PDict [("departments", PList [])]))
    {["."; "data"]} (λ _, false) (λ path, path).

(** The vendor lists one shop, and [reports] is a file, not a directory. *)
Definition reports_taken_world : world :=
  mkWorld {[ "reports" := File (OtherText "") ]} [] (clock offline_world) 0
    (vendor online_world) {["."]} (λ _, false) (λ path, path).

(** ** The tracked fields of a shop *)

(** [set(shop.parsed_categories)], as a set. *)
Definition category_set (shop : Point) : gset string :=
  list_to_set (parsed_categories shop).

(** The fields [analyze_changes] compares: a difference in any of them,
    and in nothing else, makes a common shop a changed shop. *)
Definition tracked_differ (old_shop new_shop : Point) : Prop :=
  id old_shop ≠ id new_shop
  ∨ status old_shop ≠ status new_shop
  ∨ category_set old_shop ≠ category_set new_shop.

(** ** What a computation leaves alone *)

(** The file system of [w'] is that of [w]: the same files and directories
    under the same names. *)
Definition same_disk (w w' : world) : Prop :=
  files w' = files w ∧ dirs w' = dirs w
  ∧ denied w' = denied w ∧ target w' = target w.

(** A computation that leaves the file system as it found it, however it
    ends. *)
Definition keeps_disk {A} (m : run A) : Prop :=
  ∀ w, same_disk w (m w).2.

(** How a call that only makes directories ends: it returns or raises
    [OSError]. *)
Definition ended (ok : bool) : outcome unit :=
  if ok then Done tt else Raised OSError.

(** A path as the writers of reports spell it,
    [os.path.join("reports", tail)].  Which file such a path leads to is
    for [target] to say: another spelling can lead to the same file. *)
Definition in_reports (path : string) : Prop :=
  ∃ tail, path = "reports/" +:+ tail.

(** The two names [save_report_to_json] writes to at the instant [t], and
    the two names [generate_html_report] writes to. *)
Definition latest_report_file : string := "reports/latest_report.json".
Definition history_report_file (t : instant) : string :=
  "reports/report_" +:+ file_stamp t +:+ ".json".
Definition latest_html_file : string := "reports/report.html".
Definition history_html_file (t : instant) : string :=
  "reports/report_" +:+ file_stamp t +:+ ".html".

(** The dict [template_data] that [generate_html_report] renders. *)
Definition template_data (report : ChangeReport) : TemplateData.t :=
  let change_percentage := Stats.change_percentage (stats report) in
  let change_color :=
    if Qlt_le_dec 0 change_percentage then "success"
    else if Qlt_le_dec change_percentage 0 then "danger" else "secondary" in
  TemplateData.mk (date report) (total_before report) (total_after report)
    (Stats.new_count (stats report)) (Stats.disappeared_count (stats report))
    (Stats.changed_count (stats report)) change_percentage change_color
    (asdict <$> new_shops report) (asdict <$> disappeared_shops report)
    (changed_shops report).

(** The world after the clock was read once, and after it was read [n]
    more times. *)
Definition ticked (w : world) : world :=
  mkWorld (files w) (console w) (clock w) (S (ticks w)) (vendor w)
    (dirs w) (denied w) (target w).

Definition advanced (w : world) (n : nat) : world :=
  mkWorld (files w) (console w) (clock w) (ticks w + n) (vendor w)
    (dirs w) (denied w) (target w).

(** The directory [save_new_shops] makes for [filename]. *)
Definition snapshot_dir (filename : string) : string :=
  if bool_decide (PosixPath.dirname filename = "")
  then "." else PosixPath.dirname filename.

(** The world [save_new_shops] leaves once the directory is there, [w0]
    being the world in which it opens the file. *)
Definition after_save (shops : list DynPoint) (filename : string) (w0 : world)
  : world :=
  if openable w0 filename
  then said (with_files
               (<[target w0 filename
                  := File (JsonText (PList (dyn_asdict <$> shops)))]> (files w0)) w0)
         [SnapshotSaved filename]
  else said w0 [SnapshotSaveError OSError].

(** What follows the diff in both runs: the three writers. *)
Definition writers (filename : string) (new_shop_list : list DynPoint)
    (report : ChangeReport) : run (option ChangeReport) :=
  save_new_shops new_shop_list filename;;
  save_report_to_json report;;
  generate_html_report report;;
  mret (Some report).

(** An outcome without a report that is not an [OSError]: the call
    returned [None], or an exception of another kind left it. *)
Definition no_report (o : outcome (option ChangeReport)) : Prop :=
  o = Done None ∨ ∃ e, o = Raised e ∧ e ≠ OSError.

(** A computation that has left the file system alone when it ends
    without a report and without an [OSError]. *)
Definition quiet_without_report (m : run (option ChangeReport)) : Prop :=
  ∀ w, no_report (m w).1 → files (m w).2 = files w ∧ dirs (m w).2 = dirs w.

(** No path among the reports leads to what [filename] leads to. *)
Definition apart_from_reports (w : world) (filename : string) : Prop :=
  ∀ path, in_reports path → target w path ≠ target w filename.

(** The bodies of the two loops over the vendor's entries: one call
    [Point(...)] each. *)
Definition riviera_shop (s : pyval) : run DynPoint :=
  id ← get s "id" PNone;
  name ← get s "title" PNone;
  t ← now;
  status ← get s "status" (PStr "unknown");
  mret (mkDynPoint id name (PList []) (PList []) (PStr (stamp t)) status).

Definition aviapark_shop (s : pyval) : run DynPoint :=
  id ← get s "id" (PStr "");
  name ← get s "title" (PStr "");
  parsed_categories ← get s "categories" (PList []);
  t ← now;
  status ← get s "status" (PStr "unknown");
  mret (mkDynPoint id name parsed_categories (PList []) (PStr (stamp t)) status).

(** The run left the snapshot file one step further: the report compares
    the shops the file held at the start to the shops it holds at the end,
    which are the shops the next run loads. *)
Definition snapshot_advanced `{HashOrder} (filename : string) (w : world)
    (report : ChangeReport) (w' : world) : Prop :=
  ∃ (old_shops new_shops : list Point) (date : string),
    (load_old_shops (Some filename) w).1 = Done (of_point <$> old_shops)
    ∧ analyze_changes date old_shops new_shops = Some report
    ∧ files w' !! target w' filename
      = Some (File (JsonText (PList (asdict <$> new_shops))))
    ∧ (load_old_shops (Some filename) w').1 = Done (of_point <$> new_shops).

(** ** The shops a listing becomes *)

(** The [Point] the loop of [parse_aviapark] builds from the members of one
    listed object when it reads the clock for the [tick]-th time. *)
Definition listed_shop (clock : nat → instant) (tick : nat)
    (fields : list (string * pyval)) : DynPoint :=
  mkDynPoint (members_get fields "id" (PStr ""))
    (members_get fields "title" (PStr ""))
    (members_get fields "categories" (PList []))
    (PList []) (PStr (stamp (clock tick)))
    (members_get fields "status" (PStr "unknown")).

(** ** Dicts *)

Section DictFacts.
Context {V : Type}.
Implicit Types (d : dict V) (k : string) (v : V).

Lemma dict_get_set_eq d k v : dict_get (dict_set d k v) k = Some v.
Proof.
  induction d as [|[k' v'] d IH]; csimpl.
  - by rewrite decide_True.
  - destruct (decide (k' = k)) as [->|Hne]; csimpl.
    + by rewrite decide_True.
    + by rewrite decide_False.
Qed.

Lemma dict_get_set_ne d k k' v :
  k ≠ k' → dict_get (dict_set d k v) k' = dict_get d k'.
Proof.
  intros Hne. induction d as [|[k0 v0] d IH]; csimpl.
  - by rewrite decide_False.
  - destruct (decide (k0 = k)) as [->|Hk0]; csimpl.
    + by rewrite !decide_False.
    + by rewrite IH.
Qed.

Lemma dict_get_is_Some d k : is_Some (dict_get d k) ↔ k ∈ dict_keys d.
Proof.
  unfold dict_keys. induction d as [|[k' v'] d IH]; csimpl.
  - rewrite elem_of_nil. split; [by intros [? ?]|done].
  - rewrite elem_of_cons. destruct (decide (k' = k)) as [->|Hne].
    + split; eauto.
    + rewrite IH. split; [auto|]. by intros [?|?].
Qed.

Lemma dict_get_None d k : dict_get d k = None ↔ k ∉ dict_keys d.
Proof. rewrite <-dict_get_is_Some, eq_None_not_Some. done. Qed.

Lemma dict_set_absent d k v : k ∉ dict_keys d → dict_set d k v = d ++ [(k, v)].
Proof.
  unfold dict_keys. induction d as [|[k' v'] d IH]; csimpl; [done|].
  rewrite not_elem_of_cons. intros [Hne Hk].
  rewrite decide_False by done. by rewrite IH.
Qed.

Lemma dict_keys_set_present d k v :
  k ∈ dict_keys d → dict_keys (dict_set d k v) = dict_keys d.
Proof.
  unfold dict_keys. induction d as [|[k' v'] d IH]; csimpl.
  - by rewrite elem_of_nil.
  - rewrite elem_of_cons. intros Hk.
    destruct (decide (k' = k)) as [->|Hne]; csimpl; [done|].
    rewrite IH; [done|]. by destruct Hk.
Qed.

Lemma dict_keys_set_elem d k k' v :
  k' ∈ dict_keys (dict_set d k v) ↔ k' = k ∨ k' ∈ dict_keys d.
Proof.
  destruct (decide (k ∈ dict_keys d)) as [Hin|Hout].
  - rewrite dict_keys_set_present by done. split; [auto|]. by intros [->|?].
  - rewrite dict_set_absent by done. unfold dict_keys.
    rewrite fmap_app, elem_of_app. csimpl. rewrite list_elem_of_singleton. tauto.
Qed.

Lemma dict_keys_set_NoDup d k v :
  NoDup (dict_keys d) → NoDup (dict_keys (dict_set d k v)).
Proof.
  intros Hd. destruct (decide (k ∈ dict_keys d)) as [Hin|Hout].
  - by rewrite dict_keys_set_present.
  - rewrite dict_set_absent by done. unfold dict_keys in *.
    rewrite fmap_app. apply NoDup_app. split_and!; [done| |apply NoDup_singleton].
    intros x Hx. csimpl. rewrite list_elem_of_singleton. by intros ->.
Qed.

Lemma dict_get_elem d k v : dict_get d k = Some v → v ∈ dict_values d.
Proof.
  unfold dict_values. induction d as [|[k' v'] d IH]; csimpl; [done|].
  destruct (decide (k' = k)); intros Hg.
  - injection Hg as ->. apply elem_of_cons; by left.
  - apply elem_of_cons; right; auto.
Qed.
End DictFacts.

(** ** The dict built from a collection *)

(** The dict comprehension, started from any dict. *)
Local Abbreviation fill := (foldl (λ d shop, dict_set d (key shop) shop)).

Section NameDict.
Implicit Types (d : dict Point) (shops : list Point) (k : string).

Lemma fill_keys_elem d shops k :
  k ∈ dict_keys (fill d shops) ↔ k ∈ dict_keys d ∨ k ∈ key <$> shops.
Proof.
  revert d. induction shops as [|p shops IH]; intros d; csimpl.
  - rewrite elem_of_nil. tauto.
  - rewrite IH, dict_keys_set_elem, elem_of_cons. tauto.
Qed.

Lemma fill_keys_NoDup d shops :
  NoDup (dict_keys d) → NoDup (dict_keys (fill d shops)).
Proof.
  revert d. induction shops as [|p shops IH]; intros d Hd; csimpl; [done|].
  by apply IH, dict_keys_set_NoDup.
Qed.

Lemma fill_get_other d shops k :
  k ∉ key <$> shops → dict_get (fill d shops) k = dict_get d k.
Proof.
  revert d. induction shops as [|p shops IH]; intros d; csimpl; [done|].
  rewrite not_elem_of_cons. intros [Hne Hk].
  rewrite IH by done. by apply dict_get_set_ne.
Qed.

(** The last shop with a key is the one the dict holds. *)
Lemma fill_get_last d before shop after :
  key shop ∉ key <$> after →
  dict_get (fill d (before ++ shop :: after)) (key shop) = Some shop.
Proof.
  intros Hafter. rewrite foldl_app. csimpl.
  rewrite fill_get_other by done. apply dict_get_set_eq.
Qed.

Lemma name_dict_keys_elem shops k :
  k ∈ dict_keys (name_dict shops) ↔ k ∈ key <$> shops.
Proof.
  unfold name_dict. rewrite fill_keys_elem. unfold dict_keys at 1. csimpl.
  rewrite elem_of_nil. tauto.
Qed.

Lemma name_dict_keys_NoDup shops : NoDup (dict_keys (name_dict shops)).
Proof. apply fill_keys_NoDup. constructor. Qed.

Lemma dict_set_keyed d p : keyed d → keyed (dict_set d (key p) p).
Proof.
  unfold keyed. induction d as [|[k' v'] d IH]; csimpl; intros Hd.
  - by repeat constructor.
  - apply Forall_cons in Hd as [Hk Hd].
    destruct (decide (k' = key p)) as [->|Hne]; constructor; auto.
Qed.

Lemma fill_keyed d shops : keyed d → keyed (fill d shops).
Proof.
  revert d. induction shops as [|p shops IH]; intros d Hd; csimpl; [done|].
  by apply IH, dict_set_keyed.
Qed.

Lemma name_dict_keyed shops : keyed (name_dict shops).
Proof. apply fill_keyed. constructor. Qed.

Lemma dict_get_keyed d k p : keyed d → dict_get d k = Some p → key p = k.
Proof.
  unfold keyed. induction d as [|[k' v'] d IH]; csimpl; [done|].
  intros Hd. apply Forall_cons in Hd as [Hk Hd].
  destruct (decide (k' = k)) as [->|Hne]; [|by auto].
  intros [= ->]. done.
Qed.

(** Refilling a dict from its own values rebuilds it. *)
Lemma fill_values d0 d :
  NoDup (dict_keys (d0 ++ d)) → keyed d → fill d0 (dict_values d) = d0 ++ d.
Proof.
  revert d0. induction d as [|[k v] d IH]; intros d0 Hnd Hk; csimpl.
  - by rewrite app_nil_r.
  - apply Forall_cons in Hk as [Hkv Hk]. simpl in Hkv. subst k.
    assert (key v ∉ dict_keys d0) as Hfresh.
    { unfold dict_keys in *. rewrite fmap_app in Hnd.
      apply NoDup_app in Hnd as (_ & Hdis & _).
      intros Hin. apply (Hdis _ Hin). csimpl. apply elem_of_cons; by left. }
    rewrite dict_set_absent by done.
    rewrite (IH (d0 ++ [(key v, v)])); [by rewrite <-app_assoc| |done].
    by rewrite <-app_assoc.
Qed.

Lemma name_dict_values shops :
  name_dict (dict_values (name_dict shops)) = name_dict shops.
Proof.
  unfold name_dict at 1.
  apply (fill_values [] (name_dict shops)).
  - apply name_dict_keys_NoDup.
  - apply name_dict_keyed.
Qed.

End NameDict.

(** ** Sets *)

Section SetFacts.
Context `{HashOrder}.
Implicit Types (l a b : list string) (x : string).

Local Abbreviation collect :=
  (foldl (λ seen x, if bool_decide (x ∈ seen) then seen else seen ++ [x])).

Lemma collect_elem seen l x : x ∈ collect seen l ↔ x ∈ seen ∨ x ∈ l.
Proof.
  revert seen. induction l as [|y l IH]; intros seen; csimpl.
  - rewrite elem_of_nil. tauto.
  - rewrite IH, elem_of_cons. case_bool_decide as Hy.
    + split; [tauto|]. intros [?|[->|?]]; auto.
    + rewrite elem_of_app, list_elem_of_singleton. tauto.
Qed.

Lemma collect_NoDup seen l : NoDup seen → NoDup (collect seen l).
Proof.
  revert seen. induction l as [|y l IH]; intros seen Hs; csimpl; [done|].
  apply IH. case_bool_decide as Hy; [done|].
  apply NoDup_app. split_and!; [done| |apply NoDup_singleton].
  intros z Hz. rewrite list_elem_of_singleton. by intros ->.
Qed.

Lemma collect_fresh seen l : NoDup (seen ++ l) → collect seen l = seen ++ l.
Proof.
  revert seen. induction l as [|y l IH]; intros seen Hnd; csimpl.
  - by rewrite app_nil_r.
  - pose proof Hnd as Hnd'. apply NoDup_app in Hnd' as (_ & Hdis & _).
    rewrite bool_decide_eq_false_2.
    + rewrite IH; by rewrite <-app_assoc.
    + intros Hy. apply (Hdis _ Hy). apply elem_of_cons; by left.
Qed.

Lemma elem_of_distinct l x : x ∈ distinct l ↔ x ∈ l.
Proof. unfold distinct. rewrite collect_elem, elem_of_nil. tauto. Qed.

Lemma NoDup_distinct l : NoDup (distinct l).
Proof. apply collect_NoDup. constructor. Qed.

Lemma distinct_NoDup l : NoDup l → distinct l = l.
Proof. intros Hl. by apply (collect_fresh []). Qed.

Lemma elem_of_set_of l x : x ∈ set_of l ↔ x ∈ l.
Proof. unfold set_of. by rewrite hash_order_perm, elem_of_distinct. Qed.

Lemma NoDup_set_of l : NoDup (set_of l).
Proof. unfold set_of. rewrite hash_order_perm. apply NoDup_distinct. Qed.

Lemma set_mem_true x a : set_mem x a = true ↔ x ∈ a.
Proof. apply bool_decide_eq_true. Qed.

Lemma set_mem_false x a : set_mem x a = false ↔ x ∉ a.
Proof. apply bool_decide_eq_false. Qed.

Lemma elem_of_set_difference a b x : x ∈ set_difference a b ↔ x ∈ a ∧ x ∉ b.
Proof.
  unfold set_difference.
  rewrite hash_order_perm, list_elem_of_filter, set_mem_false. tauto.
Qed.

Lemma NoDup_set_difference a b : NoDup a → NoDup (set_difference a b).
Proof.
  intros Ha. unfold set_difference. rewrite hash_order_perm.
  by apply NoDup_filter.
Qed.

Lemma elem_of_set_intersection a b x :
  x ∈ set_intersection a b ↔ x ∈ a ∧ x ∈ b.
Proof.
  unfold set_intersection.
  destruct (length a <? length b)%nat;
    rewrite hash_order_perm, list_elem_of_filter, set_mem_true; tauto.
Qed.

Lemma NoDup_set_intersection a b :
  NoDup a → NoDup b → NoDup (set_intersection a b).
Proof.
  intros Ha Hb. unfold set_intersection.
  destruct (length a <? length b)%nat;
    rewrite hash_order_perm; by apply NoDup_filter.
Qed.

Lemma set_ne_same a : set_ne a a = false.
Proof.
  unfold set_ne. rewrite bool_decide_eq_true_2 by done. simpl.
  apply negb_false_iff, forallb_forall.
  intros x Hx. apply set_mem_true. by apply list_elem_of_In.
Qed.

(** A list without repetition has as many elements as the set of them. *)
Lemma length_as_size a (X : gset string) :
  NoDup a → (∀ x, x ∈ a ↔ x ∈ X) → length a = size X.
Proof.
  intros Ha Hx. rewrite <-(size_list_to_set (C:=gset string) a) by done.
  f_equal. apply set_eq. intros x. by rewrite elem_of_list_to_set.
Qed.
End SetFacts.

(** ** The classification of the keys *)

Section Classification.
Context `{HashOrder}.
Implicit Types (old_shops new_shops shops : list Point) (k : string).

Lemma elem_of_names shops k : k ∈ names shops ↔ k ∈ key_set shops.
Proof.
  unfold names, key_set.
  by rewrite elem_of_set_of, name_dict_keys_elem, elem_of_list_to_set.
Qed.

Lemma NoDup_names shops : NoDup (names shops).
Proof. apply NoDup_set_of. Qed.

Lemma names_keys shops k : k ∈ names shops ↔ k ∈ dict_keys (name_dict shops).
Proof. apply elem_of_set_of. Qed.

Lemma elem_of_appeared old_shops new_shops k :
  k ∈ appeared_names old_shops new_shops ↔
  k ∈ key_set new_shops ∧ k ∉ key_set old_shops.
Proof.
  unfold appeared_names. by rewrite elem_of_set_difference, !elem_of_names.
Qed.

Lemma elem_of_disappeared old_shops new_shops k :
  k ∈ disappeared_names old_shops new_shops ↔
  k ∈ key_set old_shops ∧ k ∉ key_set new_shops.
Proof.
  unfold disappeared_names. by rewrite elem_of_set_difference, !elem_of_names.
Qed.

Lemma elem_of_remaining old_shops new_shops k :
  k ∈ remaining_names old_shops new_shops ↔
  k ∈ key_set old_shops ∧ k ∈ key_set new_shops.
Proof.
  unfold remaining_names. by rewrite elem_of_set_intersection, !elem_of_names.
Qed.

Lemma length_appeared old_shops new_shops :
  length (appeared_names old_shops new_shops)
  = size (key_set new_shops ∖ key_set old_shops).
Proof.
  apply length_as_size.
  - apply NoDup_set_difference, NoDup_names.
  - intros k. rewrite elem_of_appeared. set_solver.
Qed.

Lemma length_disappeared old_shops new_shops :
  length (disappeared_names old_shops new_shops)
  = size (key_set old_shops ∖ key_set new_shops).
Proof.
  apply length_as_size.
  - apply NoDup_set_difference, NoDup_names.
  - intros k. rewrite elem_of_disappeared. set_solver.
Qed.

Lemma length_remaining old_shops new_shops :
  length (remaining_names old_shops new_shops)
  = size (key_set old_shops ∩ key_set new_shops).
Proof.
  apply length_as_size.
  - apply NoDup_set_intersection; apply NoDup_names.
  - intros k. rewrite elem_of_remaining. set_solver.
Qed.

Lemma size_classes (X Y : gset string) :
  (size (Y ∖ X) + size (X ∖ Y) + size (X ∩ Y) = size (X ∪ Y))%nat.
Proof.
  rewrite <-!size_union by set_solver.
  f_equal. apply set_eq. intros k.
  destruct (decide (k ∈ X)), (decide (k ∈ Y)); set_solver.
Qed.

(** ** The lookups of the engine never fail *)

Lemma lookups_total (d : dict Point) (ks : list string) :
  (∀ k, k ∈ ks → k ∈ dict_keys d) → is_Some (mapM (dict_get d) ks).
Proof.
  intros Hks. apply mapM_is_Some_2, Forall_forall.
  intros k Hk. simpl. by apply dict_get_is_Some, Hks.
Qed.

Lemma changed_loop_total (old_dict new_dict : dict Point) ks :
  (∀ k, k ∈ ks → k ∈ dict_keys old_dict ∧ k ∈ dict_keys new_dict) →
  is_Some (changed_loop old_dict new_dict ks).
Proof.
  induction ks as [|k ks IH]; intros Hks; simpl; [by eexists|].
  destruct (Hks k) as [Ho Hn]; [apply elem_of_cons; by left|].
  apply dict_get_is_Some in Ho as [o ->]. apply dict_get_is_Some in Hn as [n ->].
  destruct IH as [later ->]; [|by eexists].
  intros k' Hk'. apply Hks, elem_of_cons. by right.
Qed.

Lemma changed_loop_length old_dict new_dict ks cs :
  changed_loop old_dict new_dict ks = Some cs → (length cs ≤ length ks)%nat.
Proof.
  revert cs. induction ks as [|k ks IH]; intros cs; simpl.
  - by intros [= <-].
  - destruct (dict_get old_dict k) as [o|]; [|done]. simpl.
    destruct (dict_get new_dict k) as [n|]; [|done]. simpl.
    destruct (changed_loop old_dict new_dict ks) as [later|]; [|done]. simpl.
    intros [= <-]. specialize (IH later eq_refl).
    destruct (nonempty _); simpl; lia.
Qed.

(** Every entry comes from one remaining key and the two shops under it. *)
Lemma changed_loop_elem old_dict new_dict ks cs e :
  changed_loop old_dict new_dict ks = Some cs → e ∈ cs →
  ∃ k o n, k ∈ ks ∧ dict_get old_dict k = Some o ∧ dict_get new_dict k = Some n
           ∧ nonempty (detect_changes o n) = true
           ∧ e = mkChangedShop (name o) (asdict o) (asdict n) (detect_changes o n).
Proof.
  revert cs. induction ks as [|k ks IH]; intros cs; simpl.
  - intros [= <-]. by rewrite elem_of_nil.
  - destruct (dict_get old_dict k) as [o|] eqn:Ho; [|done]. simpl.
    destruct (dict_get new_dict k) as [n|] eqn:Hn; [|done]. simpl.
    destruct (changed_loop old_dict new_dict ks) as [later|]; [|done]. simpl.
    intros [= <-] He.
    assert (e ∈ later → ∃ k0 o0 n0, k0 ∈ k :: ks ∧ dict_get old_dict k0 = Some o0
              ∧ dict_get new_dict k0 = Some n0
              ∧ nonempty (detect_changes o0 n0) = true
              ∧ e = mkChangedShop (name o0) (asdict o0) (asdict n0)
                      (detect_changes o0 n0)) as Hlater.
    { intros Hin. destruct (IH later eq_refl Hin) as (k0 & o0 & n0 & Hk0 & Hrest).
      exists k0, o0, n0. split; [apply elem_of_cons; by right|done]. }
    destruct (nonempty (detect_changes o n)) eqn:Hne; [|by auto].
    apply elem_of_cons in He as [->|He]; [|by auto].
    exists k, o, n. split_and!; try done. apply elem_of_cons; by left.
Qed.

Lemma changed_loop_quiet old_dict new_dict ks :
  (∀ k o n, k ∈ ks → dict_get old_dict k = Some o → dict_get new_dict k = Some n →
            nonempty (detect_changes o n) = false) →
  (∀ k, k ∈ ks → k ∈ dict_keys old_dict ∧ k ∈ dict_keys new_dict) →
  changed_loop old_dict new_dict ks = Some [].
Proof.
  induction ks as [|k ks IH]; intros Hq Hks; simpl; [done|].
  destruct (Hks k) as [Ho Hn]; [apply elem_of_cons; by left|].
  apply dict_get_is_Some in Ho as [o Ho]. apply dict_get_is_Some in Hn as [n Hn].
  rewrite Ho, Hn. simpl. rewrite IH; simpl.
  - rewrite (Hq k o n); [done| |done|done]. apply elem_of_cons; by left.
  - intros k' o' n' Hk'. apply Hq, elem_of_cons. by right.
  - intros k' Hk'. apply Hks, elem_of_cons. by right.
Qed.

(** The report, with the three lists named. *)
Lemma analyze_changes_returns now old_shops new_shops :
  ∃ ns ds cs,
    mapM (dict_get (name_dict new_shops)) (appeared_names old_shops new_shops) = Some ns
    ∧ mapM (dict_get (name_dict old_shops)) (disappeared_names old_shops new_shops) = Some ds
    ∧ changed_loop (name_dict old_shops) (name_dict new_shops)
        (remaining_names old_shops new_shops) = Some cs
    ∧ analyze_changes now old_shops new_shops
      = Some (mkChangeReport now (len old_shops) (len new_shops) ns ds cs
                (Stats.mk (len old_shops) (len new_shops) (len ns) (len ds) (len cs)
                   (len (remaining_names old_shops new_shops) - len cs)
                   (change_percentage (len old_shops) (len new_shops)))).
Proof.
  destruct (lookups_total (name_dict new_shops) (appeared_names old_shops new_shops))
    as [ns Hns].
  { intros k Hk. apply elem_of_set_difference in Hk as [Hk _]. by apply names_keys. }
  destruct (lookups_total (name_dict old_shops) (disappeared_names old_shops new_shops))
    as [ds Hds].
  { intros k Hk. apply elem_of_set_difference in Hk as [Hk _]. by apply names_keys. }
  destruct (changed_loop_total (name_dict old_shops) (name_dict new_shops)
              (remaining_names old_shops new_shops)) as [cs Hcs].
  { intros k Hk. apply elem_of_set_intersection in Hk as [Ho Hn].
    split; by apply names_keys. }
  exists ns, ds, cs. split_and!; try done.
  unfold analyze_changes. rewrite Hns, Hds, Hcs. done.
Qed.
End Classification.

(** ** The iteration order does not change what is reported *)

Lemma mapM_omap {A B} (f : A → option B) l r : mapM f l = Some r → omap f l = r.
Proof.
  revert r. induction l as [|x l IH]; intros r; csimpl.
  - by intros [= <-].
  - destruct (f x) as [y|]; [|done]. csimpl.
    destruct (mapM f l) as [r'|]; [|done]. csimpl.
    intros [= <-]. by rewrite (IH r').
Qed.

Lemma omap_Forall2 {A B} (R : B → B → Prop) (g1 g2 : A → option B) ks :
  (∀ k, option_Forall2 R (g1 k) (g2 k)) → Forall2 R (omap g1 ks) (omap g2 ks).
Proof.
  intros Hg. induction ks as [|k ks IH]; csimpl; [constructor|].
  destruct (Hg k); [by constructor|done].
Qed.

Lemma changed_loop_omap `{HashOrder} old_dict new_dict ks cs :
  changed_loop old_dict new_dict ks = Some cs →
  cs = omap (changed_entry old_dict new_dict) ks.
Proof.
  revert cs. induction ks as [|k ks IH]; intros cs; csimpl.
  - by intros [= <-].
  - unfold changed_entry at 1.
    destruct (dict_get old_dict k) as [o|]; [|done]. csimpl.
    destruct (dict_get new_dict k) as [n|]; [|done]. csimpl.
    destruct (changed_loop old_dict new_dict ks) as [later|]; [|done]. csimpl.
    intros [= <-]. rewrite <-(IH later eq_refl).
    by destruct (nonempty _).
Qed.

Section TwoOrders.
Context (H1 H2 : HashOrder).
Implicit Types (a b l : list string).

Lemma set_of_order l : @set_of H1 l ≡ₚ @set_of H2 l.
Proof. unfold set_of. by rewrite !hash_order_perm. Qed.

Lemma set_mem_order x a1 a2 : a1 ≡ₚ a2 → set_mem x a1 = set_mem x a2.
Proof.
  intros Ha. unfold set_mem. apply bool_decide_ext. by rewrite Ha.
Qed.

Lemma set_difference_order a1 a2 b1 b2 :
  a1 ≡ₚ a2 → b1 ≡ₚ b2 → @set_difference H1 a1 b1 ≡ₚ @set_difference H2 a2 b2.
Proof.
  intros Ha Hb. unfold set_difference. rewrite !hash_order_perm, Ha.
  rewrite (list_filter_iff _ (λ x, set_mem x b2 = false)); [done|].
  intros x. by rewrite (set_mem_order x b1 b2).
Qed.

Lemma set_intersection_order a1 a2 b1 b2 :
  a1 ≡ₚ a2 → b1 ≡ₚ b2 →
  @set_intersection H1 a1 b1 ≡ₚ @set_intersection H2 a2 b2.
Proof.
  intros Ha Hb. unfold set_intersection. rewrite Ha, Hb.
  destruct (length a2 <? length b2)%nat; rewrite !hash_order_perm.
  - rewrite Ha, (list_filter_iff _ (λ x, set_mem x b2 = true)); [done|].
    intros x. by rewrite (set_mem_order x b1 b2).
  - rewrite Hb, (list_filter_iff _ (λ x, set_mem x a2 = true)); [done|].
    intros x. by rewrite (set_mem_order x a1 a2).
Qed.

Lemma set_ne_order a1 a2 b1 b2 :
  a1 ≡ₚ a2 → b1 ≡ₚ b2 → set_ne a1 b1 = set_ne a2 b2.
Proof.
  intros Ha Hb. unfold set_ne. f_equal. f_equal.
  { apply bool_decide_ext. by rewrite Ha, Hb. }
  apply eq_true_iff_eq. rewrite !forallb_forall.
  setoid_rewrite <-list_elem_of_In.
  split; intros Hall x Hx.
  - rewrite <-(set_mem_order x b1 b2) by done. apply Hall. by rewrite Ha.
  - rewrite (set_mem_order x b1 b2) by done. apply Hall. by rewrite <-Ha.
Qed.

Lemma nonempty_list_order {A} (l1 l2 : list A) :
  l1 ≡ₚ l2 → l1 ≠ [] ↔ l2 ≠ [].
Proof.
  intros Hl.
  split; intros Hne ->.
  - apply Hne. symmetry. by apply Permutation_nil_l.
  - apply Hne. by apply Permutation_nil_r.
Qed.

Lemma detect_changes_order o n :
  changes_equiv (@detect_changes H1 o n) (@detect_changes H2 o n).
Proof.
  unfold changes_equiv, detect_changes. simpl. split_and!; [done|done|].
  rewrite (set_ne_order _ (@set_of H2 (parsed_categories o))
             _ (@set_of H2 (parsed_categories n)))
    by apply set_of_order.
  destruct (set_ne _ _); [|constructor].
  pose proof (set_difference_order _ _ _ _
                (set_of_order (parsed_categories n))
                (set_of_order (parsed_categories o))) as Hadded.
  pose proof (set_difference_order _ _ _ _
                (set_of_order (parsed_categories o))
                (set_of_order (parsed_categories n))) as Hremoved.
  rewrite (bool_decide_ext _ _ (nonempty_list_order _ _ Hadded)),
    (bool_decide_ext _ _ (nonempty_list_order _ _ Hremoved)).
  destruct (_ || _); constructor.
  unfold categories_equiv, len. simpl. split_and!; [done|done| |].
  - by rewrite (set_of_order (parsed_categories o)).
  - by rewrite (set_of_order (parsed_categories n)).
Qed.

Lemma nonempty_order c1 c2 : changes_equiv c1 c2 → nonempty c1 = nonempty c2.
Proof.
  intros (Hid & Hst & Hcat). unfold nonempty. rewrite Hid, Hst.
  by destruct Hcat.
Qed.

Lemma changed_entry_order old_dict new_dict k :
  option_Forall2 entry_equiv
    (@changed_entry H1 old_dict new_dict k) (@changed_entry H2 old_dict new_dict k).
Proof.
  unfold changed_entry.
  destruct (dict_get old_dict k) as [o|]; [|constructor]. csimpl.
  destruct (dict_get new_dict k) as [n|]; [|constructor]. csimpl.
  pose proof (detect_changes_order o n) as Hc.
  rewrite (nonempty_order _ _ Hc).
  destruct (nonempty _); constructor. by split_and!.
Qed.

Lemma names_order shops : @names H1 shops ≡ₚ @names H2 shops.
Proof. apply set_of_order. Qed.

Lemma length_same_entries (es1 es2 : list ChangedShop) :
  same_entries es1 es2 → length es1 = length es2.
Proof. intros (es & Hes & Hf). rewrite Hes. by eapply Forall2_length. Qed.

(** Under two iteration orders the engine reports the same, up to the
    order of its lists. *)
Lemma analyze_changes_order now1 now2 old_shops new_shops :
  ∃ r1 r2,
    @analyze_changes H1 now1 old_shops new_shops = Some r1
    ∧ @analyze_changes H2 now2 old_shops new_shops = Some r2
    ∧ report_equiv r1 r2.
Proof.
  destruct (@analyze_changes_returns H1 now1 old_shops new_shops)
    as (ns1 & ds1 & cs1 & Hns1 & Hds1 & Hcs1 & ->).
  destruct (@analyze_changes_returns H2 now2 old_shops new_shops)
    as (ns2 & ds2 & cs2 & Hns2 & Hds2 & Hcs2 & ->).
  eexists _, _. split_and!; [done|done|].
  apply mapM_omap in Hns1, Hns2, Hds1, Hds2.
  apply changed_loop_omap in Hcs1, Hcs2.
  assert (ns1 ≡ₚ ns2) as Hns.
  { subst ns1 ns2. apply omap_Permutation.
    apply set_difference_order; apply names_order. }
  assert (ds1 ≡ₚ ds2) as Hds.
  { subst ds1 ds2. apply omap_Permutation.
    apply set_difference_order; apply names_order. }
  assert (@remaining_names H1 old_shops new_shops
          ≡ₚ @remaining_names H2 old_shops new_shops) as Hks.
  { apply set_intersection_order; apply names_order. }
  assert (same_entries cs1 cs2) as Hcs.
  { exists (omap (@changed_entry H1 (name_dict old_shops) (name_dict new_shops))
              (@remaining_names H2 old_shops new_shops)).
    subst cs1 cs2. split.
    - by apply omap_Permutation.
    - apply omap_Forall2, changed_entry_order. }
  unfold report_equiv. simpl. split_and!; try done.
  unfold len. rewrite Hns, Hds, Hks, (length_same_entries _ _ Hcs). done.
Qed.
End TwoOrders.

Lemma name_dict_get_elem shops k p :
  dict_get (name_dict shops) k = Some p → p ∈ shops.
Proof.
  unfold name_dict.
  enough (∀ d, dict_get (foldl (λ d shop, dict_set d (key shop) shop) d shops) k = Some p →
               p ∈ shops ∨ dict_get d k = Some p) as Hgen.
  { intros Hp. by destruct (Hgen [] Hp). }
  induction shops as [|q shops IH]; intros d; csimpl; [by right|].
  intros Hp. destruct (IH _ Hp) as [Hin|Hset].
  - left. apply elem_of_cons. by right.
  - destruct (decide (key q = k)) as [<-|Hne].
    + rewrite dict_get_set_eq in Hset. injection Hset as ->.
      left. apply elem_of_cons. by left.
    + rewrite dict_get_set_ne in Hset by done. by right.
Qed.

Lemma detect_changes_same `{HashOrder} shop :
  detect_changes shop shop = mkChanges None None None.
Proof.
  unfold detect_changes. rewrite !decide_False by (intros Hne; by apply Hne).
  by rewrite set_ne_same.
Qed.

Lemma length_key_set shops : length (name_dict shops) = size (key_set shops).
Proof.
  rewrite <-(length_fmap fst). apply length_as_size.
  - apply name_dict_keys_NoDup.
  - intros k. unfold key_set.
    by rewrite elem_of_list_to_set, <-name_dict_keys_elem.
Qed.

(** C1. Completeness: the three lists and the unchanged count add up to
    the number of distinct normalized names of both inputs, and every such
    name is in exactly one of the classes appeared, disappeared, common. *)
Theorem completeness `{HashOrder} (now : string) (old_list new_list : list Point) :
  ∃ r, analyze_changes now old_list new_list = Some r
    ∧ len (new_shops r) + len (disappeared_shops r) + len (changed_shops r)
      + Stats.unchanged_count (stats r)
      = Z.of_nat (size (key_set old_list ∪ key_set new_list))
    ∧ ∀ k, k ∈ key_set old_list ∪ key_set new_list →
        let appeared := k ∈ appeared_names old_list new_list in
        let disappeared := k ∈ disappeared_names old_list new_list in
        let common := k ∈ remaining_names old_list new_list in
        (appeared ∧ ¬ disappeared ∧ ¬ common)
        ∨ (¬ appeared ∧ disappeared ∧ ¬ common)
        ∨ (¬ appeared ∧ ¬ disappeared ∧ common).
Proof.
  destruct (analyze_changes_returns now old_list new_list)
    as (ns & ds & cs & Hns & Hds & Hcs & ->).
  eexists. split; [done|]. simpl. split.
  - apply length_mapM in Hns, Hds. unfold len. rewrite <-Hns, <-Hds.
    rewrite length_appeared, length_disappeared, length_remaining.
    rewrite <-size_classes. lia.
  - intros k Hk. simpl.
    rewrite elem_of_appeared, elem_of_disappeared, elem_of_remaining.
    apply elem_of_union in Hk.
    destruct (decide (k ∈ key_set old_list)), (decide (k ∈ key_set new_list)); tauto.
Qed.

(** C2. Idempotence: a collection diffed against itself has nothing new,
    nothing disappeared, nothing changed, and as many unchanged shops as it
    has distinct normalized names. *)
Theorem diff_self `{HashOrder} (now : string) (shops : list Point) :
  ∃ r, analyze_changes now shops shops = Some r
    ∧ new_shops r = [] ∧ disappeared_shops r = [] ∧ changed_shops r = []
    ∧ Stats.unchanged_count (stats r) = len (deduplicated shops)
    ∧ len (deduplicated shops) = Z.of_nat (size (key_set shops)).
Proof.
  destruct (analyze_changes_returns now shops shops)
    as (ns & ds & cs & Hns & Hds & Hcs & ->).
  assert (appeared_names shops shops = []) as Happ.
  { apply elem_of_nil_inv. intros k. rewrite elem_of_appeared. tauto. }
  assert (disappeared_names shops shops = []) as Hdis.
  { apply elem_of_nil_inv. intros k. rewrite elem_of_disappeared. tauto. }
  rewrite Happ in Hns. rewrite Hdis in Hds. injection Hns as <-. injection Hds as <-.
  rewrite changed_loop_quiet in Hcs.
  - injection Hcs as <-. eexists. split; [done|]. simpl. split_and!; try done.
    + unfold len, deduplicated, dict_values. rewrite length_remaining, length_fmap.
      rewrite length_key_set. simpl. f_equal.
      replace (key_set shops ∩ key_set shops) with (key_set shops) by set_solver.
      lia.
    + unfold len, deduplicated, dict_values. by rewrite length_fmap, length_key_set.
  - intros k o n _ Ho Hn. rewrite Ho in Hn. injection Hn as <-.
    by rewrite detect_changes_same.
  - intros k Hk. apply elem_of_set_intersection in Hk as [Hk _].
    split; by apply names_keys.
Qed.

(** C5. Last one wins: of the shops of one side that share a normalized
    name the dict holds the last, and the engine sees each side only
    through its dict, so that the lists and counts of the report are those
    of the deduplicated inputs. *)
Theorem last_duplicate_wins `{HashOrder} (now : string)
    (old_list new_list before after : list Point) (shop : Point) :
  (∀ later, later ∈ after → key later ≠ key shop) →
  dict_get (name_dict (before ++ shop :: after)) (key shop) = Some shop
  ∧ ∃ r r', analyze_changes now old_list new_list = Some r
      ∧ analyze_changes now (deduplicated old_list) (deduplicated new_list) = Some r'
      ∧ new_shops r = new_shops r'
      ∧ disappeared_shops r = disappeared_shops r'
      ∧ changed_shops r = changed_shops r'
      ∧ Stats.new_count (stats r) = Stats.new_count (stats r')
      ∧ Stats.disappeared_count (stats r) = Stats.disappeared_count (stats r')
      ∧ Stats.changed_count (stats r) = Stats.changed_count (stats r')
      ∧ Stats.unchanged_count (stats r) = Stats.unchanged_count (stats r').
Proof.
  intros Hafter. split.
  - apply fill_get_last. intros Hin.
    apply list_elem_of_fmap in Hin as (later & Heq & Hlater).
    by apply (Hafter later).
  - destruct (analyze_changes_returns now old_list new_list)
      as (ns & ds & cs & Hns & Hds & Hcs & ->).
    destruct (analyze_changes_returns now (deduplicated old_list)
                (deduplicated new_list))
      as (ns' & ds' & cs' & Hns' & Hds' & Hcs' & ->).
    unfold appeared_names, disappeared_names, remaining_names, names, deduplicated
      in *.
    rewrite !name_dict_values in *.
    assert (ns' = ns) as -> by congruence.
    assert (ds' = ds) as -> by congruence.
    assert (cs' = cs) as -> by congruence.
    eexists _, _. split_and!; try done.
Qed.

(** C5 at work: "Shop A" and "shop a" on one side, the second one stays. *)
Lemma last_duplicate_wins_witness :
  dict_get (name_dict ([shop_a_old] ++ shop_a_new :: [shop_b])) (key shop_a_new)
  = Some shop_a_new
  ∧ ∃ r r',
      @analyze_changes insertion_order "2025-01-01 00:00:00"
        [shop_a_old] [shop_a_old; shop_a_new; shop_b] = Some r
      ∧ @analyze_changes insertion_order "2025-01-01 00:00:00"
          (deduplicated [shop_a_old]) (deduplicated [shop_a_old; shop_a_new; shop_b])
        = Some r'
      ∧ new_shops r = new_shops r'
      ∧ disappeared_shops r = disappeared_shops r'
      ∧ changed_shops r = changed_shops r'
      ∧ Stats.new_count (stats r) = Stats.new_count (stats r')
      ∧ Stats.disappeared_count (stats r) = Stats.disappeared_count (stats r')
      ∧ Stats.changed_count (stats r) = Stats.changed_count (stats r')
      ∧ Stats.unchanged_count (stats r) = Stats.unchanged_count (stats r').
Proof.
  apply (@last_duplicate_wins insertion_order "2025-01-01 00:00:00"
           [shop_a_old] [shop_a_old; shop_a_new; shop_b]
           [shop_a_old] [shop_b] shop_a_new).
  intros later Hlater. apply list_elem_of_singleton in Hlater. subst later.
  vm_compute. discriminate.
Defined.

(** C10. The name of a changed entry is the name of the old shop as it was
    written, not its key and not the name of the new shop. *)
Theorem changed_entry_has_old_name `{HashOrder} (now : string)
    (old_list new_list : list Point) :
  ∃ r, analyze_changes now old_list new_list = Some r
    ∧ ∀ e, e ∈ changed_shops r →
        ∃ o n, o ∈ old_list ∧ n ∈ new_list
          ∧ dict_get (name_dict old_list) (key o) = Some o
          ∧ dict_get (name_dict new_list) (key o) = Some n
          ∧ key n = key o
          ∧ shop_name e = name o
          ∧ old_shop e = asdict o ∧ new_shop e = asdict n
          ∧ changes e = detect_changes o n ∧ nonempty (changes e) = true
          ∧ (name n ≠ name o → shop_name e ≠ name n).
Proof.
  destruct (analyze_changes_returns now old_list new_list)
    as (ns & ds & cs & Hns & Hds & Hcs & ->).
  eexists. split; [done|]. simpl. intros e He.
  destruct (changed_loop_elem _ _ _ _ _ Hcs He)
    as (k & o & n & Hk & Ho & Hn & Hne & ->).
  pose proof (dict_get_keyed _ _ _ (name_dict_keyed old_list) Ho) as Hko.
  pose proof (dict_get_keyed _ _ _ (name_dict_keyed new_list) Hn) as Hkn.
  exists o, n. simpl. subst k. split_and!; try done.
  - by eapply name_dict_get_elem.
  - by eapply name_dict_get_elem.
Qed.

(** ** Normalization of names *)

Module PyStrFacts.
Import PyStr.

Lemma isspace_lower_char c : isspace (lower_char c) = isspace c.
Proof. by destruct c as [[] [] [] [] [] [] [] []]. Qed.

Lemma lower_empty s : lower s = EmptyString ↔ s = EmptyString.
Proof. by destruct s. Qed.

Lemma lstrip_lower s : lstrip (lower s) = lower (lstrip s).
Proof.
  induction s as [|c s IH]; simpl; [done|].
  rewrite isspace_lower_char. by destruct (isspace c).
Qed.

Lemma rstrip_lower s : rstrip (lower s) = lower (rstrip s).
Proof.
  induction s as [|c s IH]; simpl; [done|].
  rewrite IH, isspace_lower_char.
  destruct (rstrip s); simpl; [by destruct (isspace c)|done].
Qed.

Lemma strip_lower s : strip (lower s) = lower (strip s).
Proof. unfold strip. by rewrite lstrip_lower, rstrip_lower. Qed.

Lemma lstrip_blank w : blank w = true → lstrip w = EmptyString.
Proof.
  induction w as [|c w IH]; simpl; [done|].
  intros [Hc Hw]%andb_true_iff. rewrite Hc. auto.
Qed.

Lemma rstrip_blank w : blank w = true → rstrip w = EmptyString.
Proof.
  induction w as [|c w IH]; simpl; [done|].
  intros [Hc Hw]%andb_true_iff. by rewrite IH, Hc.
Qed.

Lemma lstrip_app_blank w s : blank w = true → lstrip (w +:+ s) = lstrip s.
Proof.
  induction w as [|c w IH]; simpl; [done|].
  intros [Hc Hw]%andb_true_iff. rewrite Hc. auto.
Qed.

Lemma rstrip_app_blank s w : blank w = true → rstrip (s +:+ w) = rstrip s.
Proof.
  intros Hw. induction s as [|c s IH]; simpl.
  - by apply rstrip_blank.
  - by rewrite IH.
Qed.

Lemma strip_app_blank s w : blank w = true → strip (s +:+ w) = strip s.
Proof.
  intros Hw. unfold strip. induction s as [|c s IH]; simpl.
  - by rewrite lstrip_blank.
  - destruct (isspace c); [done|].
    exact (rstrip_app_blank (String c s) w Hw).
Qed.

Lemma strip_surrounded w1 s w2 :
  blank w1 = true → blank w2 = true → strip (w1 +:+ (s +:+ w2)) = strip s.
Proof.
  intros Hw1 Hw2. rewrite <-(strip_app_blank s w2) by done.
  unfold strip. by rewrite lstrip_app_blank.
Qed.

End PyStrFacts.

Lemma normalize_name_surrounded w1 s w2 :
  PyStr.blank w1 = true → PyStr.blank w2 = true →
  normalize_name (w1 +:+ (s +:+ w2)) = normalize_name s.
Proof.
  intros Hw1 Hw2. unfold normalize_name.
  by rewrite PyStrFacts.strip_surrounded.
Qed.

Lemma normalize_name_case s1 s2 :
  PyStr.lower s1 = PyStr.lower s2 → normalize_name s1 = normalize_name s2.
Proof.
  intros Heq. unfold normalize_name.
  by rewrite <-!PyStrFacts.strip_lower, Heq.
Qed.

Lemma elem_of_key_set shops p : p ∈ shops → key p ∈ key_set shops.
Proof.
  intros Hp. unfold key_set. apply elem_of_list_to_set, list_elem_of_fmap. eauto.
Qed.

(** C3. Names that differ only by case or by surrounding whitespace have
    the same key, two shops with the same key are one entity (their key is
    common, neither appeared nor disappeared), and the example scenario
    gives the report the specification expects. *)
Theorem names_reconcile `{HashOrder} (now : string) :
  (∀ w1 s w2, PyStr.blank w1 = true → PyStr.blank w2 = true →
     normalize_name (w1 +:+ (s +:+ w2)) = normalize_name s)
  ∧ (∀ s1 s2, PyStr.lower s1 = PyStr.lower s2 →
       normalize_name s1 = normalize_name s2)
  ∧ (∀ old_list new_list o n,
       o ∈ old_list → n ∈ new_list →
       normalize_name (name o) = normalize_name (name n) →
       (key o ∈ remaining_names old_list new_list
        ∧ (key o ∉ appeared_names old_list new_list)
        ∧ (key o ∉ disappeared_names old_list new_list)))
  ∧ ∃ r, analyze_changes now [shop_a_old] [shop_a_new; shop_b] = Some r
      ∧ new_shops r = [shop_b]
      ∧ disappeared_shops r = []
      ∧ changed_shops r =
          [mkChangedShop "Shop A" (asdict shop_a_old) (asdict shop_a_new)
             (mkChanges None
                (Some (mkFieldChange "opened" "closed"))
                (Some (mkCategoriesChange ["drinks"] [] 1 2)))].
Proof.
  split_and!.
  - apply normalize_name_surrounded.
  - apply normalize_name_case.
  - intros old_list new_list o n Ho Hn Hkey.
    rewrite elem_of_remaining, elem_of_appeared, elem_of_disappeared.
    pose proof (elem_of_key_set _ _ Ho) as Hko.
    pose proof (elem_of_key_set _ _ Hn) as Hkn.
    unfold key in Hkn. rewrite <-Hkey in Hkn. fold (key o) in Hkn. tauto.
  - destruct (analyze_changes_order H insertion_order now now
                [shop_a_old] [shop_a_new; shop_b])
      as (r & r0 & Hr & Hr0 & Heq).
    exists r. split; [done|].
    vm_compute in Hr0. injection Hr0 as <-.
    destruct Heq as (_ & _ & Hns & Hds & (es & Hes & Hf) & _). simpl in *.
    apply Permutation_singleton_r in Hns. apply Permutation_nil_r in Hds.
    split_and!; [done|done|].
    apply Forall2_cons_inv_r in Hf as (e & es' & He & Hnil & ->).
    apply Forall2_nil_inv_r in Hnil as ->.
    apply Permutation_singleton_r in Hes. rewrite Hes. f_equal.
    destruct e as [nm o n [cid cst ccat]].
    destruct He as (Hnm & Ho & Hn & Hid & Hst & Hcat). simpl in *.
    subst nm o n cid cst.
    inversion Hcat as [c c0 (Hadd & Hrem & Hto & Htn) Hc Hc0|]; subst.
    destruct c as [add rem to tn]. simpl in *.
    apply Permutation_singleton_r in Hadd. apply Permutation_nil_r in Hrem.
    by subst.
Qed.

(** ** Floats that hold integers *)

Module PyFloatFacts.
Import PyFloat.

Lemma round_half_even_comp (q q' : Q) :
  (q == q')%Q → round_half_even q = round_half_even q'.
Proof.
  intros Heq. unfold round_half_even.
  rewrite (Qfloor_comp _ _ Heq).
  assert (q - inject_Z (Qfloor q') == q' - inject_Z (Qfloor q'))%Q as Hdiff
    by (by rewrite Heq).
  by rewrite (Qcompare_comp _ _ Hdiff (1 # 2)%Q (1 # 2)%Q (Qeq_refl _)).
Qed.

Lemma round_half_even_Z (z : Z) : round_half_even (inject_Z z) = z.
Proof.
  unfold round_half_even. rewrite Qfloor_Z.
  assert ((inject_Z z - inject_Z z ?= 1 # 2)%Q = Lt) as ->; [|done].
  apply Qlt_alt. assert (inject_Z z - inject_Z z == 0)%Q as -> by ring. done.
Qed.

Lemma Qred_Z (z : Z) : Qred (inject_Z z) = inject_Z z.
Proof. apply Qred_identity. simpl. apply Z.gcd_1_r. Qed.

Lemma b64_comp (q q' : Q) : (q == q')%Q → b64 q = b64 q'.
Proof. intros Heq. unfold b64. by rewrite (Qred_complete _ _ Heq). Qed.

(** A power of two with an exponent that is not positive is the inverse of
    a power of two. *)
Lemma pow2_nonpos (e : Z) : e ≤ 0 → (pow2 e * inject_Z (2 ^ (- e)) == 1)%Q.
Proof.
  intros He. destruct e as [|p|p]; [done|lia|]. simpl.
  unfold Qeq, Qmult, inject_Z. simpl.
  change (- Z.neg p) with (Z.pos p).
  rewrite Pos.mul_1_r, Pos2Z.inj_pow. lia.
Qed.

Lemma ilog2_Z (z : Z) : ilog2 (inject_Z z) ≤ Z.log2 (Z.abs z).
Proof.
  unfold ilog2. simpl. destruct (Qle_bool _ _); lia.
Qed.

(** An integer below 2^53 in magnitude is a float. *)
Lemma b64_Z (z : Z) : Z.abs z < 2 ^ 53 → b64 (inject_Z z) = inject_Z z.
Proof.
  intros Hz. unfold b64. rewrite Qred_Z.
  destruct (Qeq_bool (inject_Z z) 0) eqn:Hzero.
  - apply Qeq_bool_iff in Hzero. unfold Qeq in Hzero. simpl in Hzero.
    by replace z with 0 by lia.
  - set (e := Z.max (ilog2 (inject_Z z) - 52) (-1074)).
    assert (e ≤ 0) as He.
    { pose proof (ilog2_Z z) as Hlog.
      assert (Z.log2 (Z.abs z) < 53).
      { destruct (decide (Z.abs z = 0)) as [->|Hnz]; [done|].
        apply Z.log2_lt_pow2; lia. }
      lia. }
    pose proof (pow2_nonpos e He) as Hinv.
    assert (inject_Z z / pow2 e == inject_Z (z * 2 ^ (- e)))%Q as Hquot.
    { rewrite inject_Z_mult. apply Qeq_sym.
      rewrite <-(Qmult_1_r (inject_Z z / pow2 e)) at 1.
      rewrite <-Hinv. field. intros Hp. rewrite Hp in Hinv. by vm_compute in Hinv. }
    rewrite (round_half_even_comp _ _ Hquot), round_half_even_Z.
    rewrite <-(Qred_Z z). apply Qred_complete.
    rewrite inject_Z_mult, <-Qmult_assoc, (Qmult_comm (inject_Z (2 ^ (- e)))), Hinv.
    ring.
Qed.

Lemma int_true_div_one (z : Z) : Z.abs z < 2 ^ 53 → int_true_div z 1 = inject_Z z.
Proof.
  intros Hz. unfold int_true_div. etrans; [|apply (b64_Z z Hz)]. apply b64_comp.
  unfold Qdiv. change (/ inject_Z 1)%Q with 1%Q. apply Qmult_1_r.
Qed.

Lemma float_mul_int_Z (z k : Z) :
  Z.abs (z * k) < 2 ^ 53 → float_mul_int (inject_Z z) k = inject_Z (z * k).
Proof.
  intros Hz. unfold float_mul_int. etrans; [|apply (b64_Z (z * k) Hz)].
  apply b64_comp.
  by rewrite inject_Z_mult.
Qed.

Lemma py_round_Z (z : Z) : Z.abs z < 2 ^ 53 → py_round (inject_Z z) 2 = inject_Z z.
Proof.
  intros Hz. unfold py_round.
  rewrite (round_half_even_comp _ (inject_Z (z * 10 ^ 2)))
    by (by rewrite inject_Z_mult).
  rewrite round_half_even_Z. etrans; [|apply (b64_Z z Hz)]. apply b64_comp.
  rewrite inject_Z_mult. by apply Qdiv_mult_l.
Qed.

End PyFloatFacts.

(** From four shops to seven: 75 percent.  From three to seven: 133.33
    percent, which no float holds exactly; the model gives the float
    nearest to it, as the interpreter does. *)
Example change_percentage_examples :
  change_percentage 4 7 = inject_Z 75
  ∧ change_percentage 3 7 = (4691132330603971 # 35184372088832)%Q.
Proof. by vm_compute. Qed.

Lemma change_percentage_zero_baseline (n : Z) :
  0 ≤ n → 100 * n < 2 ^ 53 → change_percentage 0 n = inject_Z (100 * n).
Proof.
  intros Hn Hbound. unfold change_percentage.
  replace (n - 0) with n by lia. replace (Z.max 0 1) with 1 by lia.
  rewrite PyFloatFacts.int_true_div_one by lia.
  rewrite PyFloatFacts.float_mul_int_Z by lia.
  rewrite PyFloatFacts.py_round_Z by lia.
  f_equal. lia.
Qed.

Lemma values_by_keys {V} (d : dict V) :
  NoDup (dict_keys d) → omap (dict_get d) (dict_keys d) = dict_values d.
Proof.
  unfold dict_keys, dict_values. induction d as [|[k v] d IH]; csimpl; [done|].
  intros [Hk Hd]%NoDup_cons. rewrite decide_True by done. f_equal.
  rewrite <-IH by done. apply list_omap_ext. apply Forall2_same_length_lookup_2.
  - done.
  - intros i k1 k2 Hk1 Hk2. rewrite Hk1 in Hk2. injection Hk2 as <-.
    rewrite decide_False; [done|]. intros ->. apply Hk.
    by eapply list_elem_of_lookup_2.
Qed.

Lemma filter_keep_all {A} (P : A → Prop) `{∀ x, Decision (P x)} (l : list A) :
  (∀ x, P x) → filter P l = l.
Proof.
  intros HP. induction l as [|x l IH]; [done|].
  rewrite filter_cons_True by done. by rewrite IH.
Qed.

Lemma new_shops_zero_baseline `{HashOrder} (new_list ns : list Point) :
  mapM (dict_get (name_dict new_list)) (appeared_names [] new_list) = Some ns →
  ns ≡ₚ deduplicated new_list.
Proof.
  intros Hns. apply mapM_omap in Hns. subst ns.
  unfold deduplicated. rewrite <-values_by_keys by apply name_dict_keys_NoDup.
  apply omap_Permutation.
  unfold appeared_names, set_difference. rewrite hash_order_perm.
  rewrite (filter_keep_all (λ k, set_mem k (names []) = false)).
  - unfold names, set_of. rewrite hash_order_perm.
    by rewrite distinct_NoDup by apply name_dict_keys_NoDup.
  - intros k. apply set_mem_false. rewrite elem_of_names.
    unfold key_set. simpl. set_solver.
Qed.

(** C4. The change percentage follows the formula of the specification on
    the raw lengths of the two inputs; on an empty baseline it is one
    hundred times the number of new shops, and the new list holds every
    shop of the deduplicated input. *)
Theorem change_percentage_formula `{HashOrder} (now : string)
    (old_list new_list : list Point) :
  ∃ r, analyze_changes now old_list new_list = Some r
    ∧ total_before r = len old_list
    ∧ total_after r = len new_list
    ∧ Stats.change_percentage (stats r)
      = PyFloat.py_round
          (PyFloat.float_mul_int
             (PyFloat.int_true_div (total_after r - total_before r)
                (Z.max (total_before r) 1))
             100)
          2
    ∧ (old_list = [] → new_list ≠ [] → 100 * len new_list < 2 ^ 53 →
       Stats.change_percentage (stats r) = inject_Z (100 * len new_list)
       ∧ new_shops r ≡ₚ deduplicated new_list).
Proof.
  destruct (analyze_changes_returns now old_list new_list)
    as (ns & ds & cs & Hns & Hds & Hcs & ->).
  eexists. split; [done|]. simpl. split_and!; try done.
  intros -> Hnew Hbound. split.
  - apply change_percentage_zero_baseline; [unfold len; lia|done].
  - by apply new_shops_zero_baseline.
Qed.

(** C4 at work: two shops on an empty baseline are 200 percent. *)
Lemma change_percentage_formula_witness :
  ∃ r, @analyze_changes insertion_order "2025-01-01 00:00:00" [] [shop_a_new; shop_b]
       = Some r
    ∧ Stats.change_percentage (stats r) = inject_Z (100 * len [shop_a_new; shop_b])
    ∧ new_shops r ≡ₚ deduplicated [shop_a_new; shop_b].
Proof.
  destruct (@change_percentage_formula insertion_order "2025-01-01 00:00:00" []
              [shop_a_new; shop_b]) as (r & Hr & _ & _ & _ & Hzero).
  exists r. split; [exact Hr|]. apply Hzero; [reflexivity|discriminate|].
  vm_compute. reflexivity.
Defined.

(** ** The snapshot store *)

(** What [load_item] gives on a JSON object. *)
Lemma load_item_object members w :
  load_item (PDict members) w
  = (Done (stored_point members), w).
Proof. reflexivity. Qed.

Lemma load_item_other item w :
  (∀ members, item ≠ PDict members) → load_item item w = (Raised AttributeError, w).
Proof. intros Hitem. destruct item; try reflexivity. by destruct (Hitem members). Qed.

Lemma load_item_asdict shop w : load_item (dyn_asdict shop) w = (Done shop, w).
Proof. by destruct shop. Qed.

Lemma mapM_run_cons {A B} (f : A → run B) x l w :
  mapM f (x :: l) w
  = match f x w with
    | (Done y, w') =>
        match mapM f l w' with
        | (Done k, w'') => (Done (y :: k), w'')
        | (Raised e, w'') => (Raised e, w'')
        | (Unmodelled, w'') => (Unmodelled, w'')
        end
    | (Raised e, w') => (Raised e, w')
    | (Unmodelled, w') => (Unmodelled, w')
    end.
Proof.
  simpl. unfold mbind, run_bind. destruct (f x w) as [[y| |] w']; [|done|done].
  by destruct (mapM f l w') as [[k| |] w''].
Qed.

Lemma load_items_objects records w :
  mapM load_item (PDict <$> records) w
  = (Done (stored_point <$> records), w).
Proof.
  induction records as [|members records IH]; [done|].
  rewrite fmap_cons, mapM_run_cons, load_item_object, IH. done.
Qed.

Lemma load_items_asdict shops w :
  mapM load_item (dyn_asdict <$> shops) w = (Done shops, w).
Proof.
  induction shops as [|shop shops IH]; [done|].
  rewrite fmap_cons, mapM_run_cons, load_item_asdict, IH. done.
Qed.

(** The loop either goes through or stops at the first item that is not
    an object; it leaves the world as it is. *)
Lemma load_items_outcome items w :
  (∃ records, items = PDict <$> records)
  ∨ mapM load_item items w = (Raised AttributeError, w).
Proof.
  induction items as [|item items IH].
  - left. by exists [].
  - destruct item as [| | | | |?|members];
      try (right; by rewrite mapM_run_cons).
    destruct IH as [[records ->]|Hfail].
    + left. by exists (members :: records).
    + right. by rewrite mapM_run_cons, load_item_object, Hfail.
Qed.


Lemma said_nothing w : said w [] = w.
Proof. destruct w. unfold said. simpl. by rewrite app_nil_r. Qed.

Lemma load_absent filename w :
  files w !! target w filename = None → target w filename ∉ dirs w →
  load_old_shops (Some filename) w = (Done [], said w [SnapshotNotFound filename]).
Proof.
  intros Hfile Hdir.
  unfold load_old_shops, mbind, run_bind, path_exists, exists_at, is_dir. simpl.
  rewrite Hfile. rewrite bool_decide_eq_false_2 by (by intros [? ?]).
  by rewrite bool_decide_eq_false_2 by done.
Qed.

(** A directory is there and cannot be read. *)
Lemma load_directory filename w :
  files w !! target w filename = None → target w filename ∈ dirs w →
  load_old_shops (Some filename) w
  = (Done [], said w [SnapshotLoadError OSError]).
Proof.
  intros Hfile Hdir.
  unfold load_old_shops, mbind, run_bind, path_exists, exists_at, is_dir. simpl.
  rewrite Hfile. rewrite bool_decide_eq_false_2 by (by intros [? ?]).
  rewrite bool_decide_eq_true_2 by done. simpl.
  unfold try_except, mbind, run_bind, read_text. by rewrite Hfile.
Qed.

Lemma load_present filename node w :
  files w !! target w filename = Some node →
  load_old_shops (Some filename) w
  = try_except
      (text ← read_text filename;
       data ← json_load text;
       items ← py_iter data;
       mapM load_item items)
      (λ e, print (SnapshotLoadError e);; mret []) w.
Proof.
  intros Hfile.
  unfold load_old_shops at 1, mbind at 1 2, run_bind at 1 2, path_exists, exists_at.
  simpl. rewrite Hfile. by rewrite bool_decide_eq_true_2 by eauto.
Qed.

Lemma load_blocked filename w :
  files w !! target w filename = Some Blocked →
  load_old_shops (Some filename) w
  = (Done [], said w [SnapshotLoadError OSError]).
Proof.
  intros Hfile. rewrite (load_present _ _ _ Hfile).
  unfold try_except, mbind, run_bind, read_text. by rewrite Hfile.
Qed.

Lemma load_not_json filename c w :
  files w !! target w filename = Some (File c) → (∀ v, c ≠ JsonText v) →
  load_old_shops (Some filename) w
  = (Done [], said w [SnapshotLoadError JSONDecodeError]).
Proof.
  intros Hfile Hc. rewrite (load_present _ _ _ Hfile).
  unfold try_except, mbind, run_bind, read_text. rewrite Hfile.
  destruct c as [v| |]; [by destruct (Hc v)|done|done].
Qed.

Lemma load_json filename v w :
  files w !! target w filename = Some (File (JsonText v)) →
  load_old_shops (Some filename) w
  = try_except (items ← py_iter v; mapM load_item items)
      (λ e, print (SnapshotLoadError e);; mret []) w.
Proof.
  intros Hfile. rewrite (load_present _ _ _ Hfile).
  unfold try_except, mbind, run_bind, read_text. by rewrite Hfile.
Qed.

Lemma load_objects filename records w :
  files w !! target w filename = Some (File (JsonText (PList (PDict <$> records)))) →
  load_old_shops (Some filename) w = (Done (stored_point <$> records), w).
Proof.
  intros Hfile. rewrite (load_json _ _ _ Hfile).
  unfold try_except, mbind, run_bind. simpl. by rewrite load_items_objects.
Qed.

(** Whatever the items are, the loop ends the load with the shops or with
    nothing at all. *)
Lemma load_loop_returns items w :
  ∃ shops lines,
    try_except (mapM load_item items)
      (λ e, print (SnapshotLoadError e);; mret []) w = (Done shops, said w lines)
    ∧ ((∀ records, items ≠ PDict <$> records) → shops = []).
Proof.
  destruct (load_items_outcome items w) as [[records ->]|Hfail].
  - exists (stored_point <$> records), []. unfold try_except.
    rewrite load_items_objects, said_nothing. split; [done|].
    intros Hno. by destruct (Hno records).
  - exists [], [SnapshotLoadError AttributeError]. unfold try_except.
    by rewrite Hfail.
Qed.

Lemma load_other_json filename v w :
  files w !! target w filename = Some (File (JsonText v)) →
  (∀ records, v ≠ PList (PDict <$> records)) →
  ∃ lines, load_old_shops (Some filename) w = (Done [], said w lines).
Proof.
  intros Hfile Hv. rewrite (load_json _ _ _ Hfile).
  assert (∀ items, (∀ records, items ≠ PDict <$> records) ∨ items = [] →
            ∃ lines, try_except (mapM load_item items)
              (λ e, print (SnapshotLoadError e);; mret []) w
              = (Done [], said w lines)) as Hloop.
  { intros items [Hitems| ->].
    - destruct (load_loop_returns items w) as (shops & lines & Heq & Hnil).
      exists lines. by rewrite Heq, (Hnil Hitems).
    - exists []. by rewrite said_nothing. }
  destruct v as [| | | |s|items|members].
  1-4: by exists [SnapshotLoadError TypeError].
  - destruct (Hloop (chars s)) as [lines Hl]; [|by exists lines].
    destruct s as [|c s]; [by right|left].
    intros [|members records]; done.
  - destruct (Hloop items) as [lines Hl]; [|by exists lines].
    left. intros records ->. by apply (Hv records).
  - set (keys := dict_keys (foldl (λ d kv, dict_set d kv.1 kv.2) [] members)).
    destruct (Hloop (PStr <$> keys)) as [lines Hl]; [|by exists lines].
    destruct keys as [|k keys]; [by right|left].
    intros [|ms records]; done.
Qed.

(** Loading never raises and does nothing but print. *)
Lemma load_old_shops_returns filename w :
  ∃ shops lines, load_old_shops (Some filename) w = (Done shops, said w lines).
Proof.
  destruct (files w !! target w filename) as [[c|]|] eqn:Hfile.
  - destruct c as [v| |].
    + rewrite (load_json _ _ _ Hfile).
      destruct v as [| | | |s|items|members];
        try (by exists [], [SnapshotLoadError TypeError]).
      * destruct (load_loop_returns (chars s) w) as (shops & lines & Heq & _). eauto.
      * destruct (load_loop_returns items w) as (shops & lines & Heq & _). eauto.
      * destruct (load_loop_returns
          (PStr <$> dict_keys (foldl (λ d kv, dict_set d kv.1 kv.2) [] members)) w)
          as (shops & lines & Heq & _). eauto.
    + rewrite (load_not_json _ _ _ Hfile); by eauto.
    + rewrite (load_not_json _ _ _ Hfile); by eauto.
  - rewrite (load_blocked _ _ Hfile). eauto.
  - destruct (decide (target w filename ∈ dirs w)) as [Hdir|Hdir].
    + rewrite (load_directory _ _ Hfile Hdir). eauto.
    + rewrite (load_absent _ _ Hfile Hdir). eauto.
Qed.

(** ** Directories and files *)

Lemma same_disk_refl w : same_disk w w.
Proof. by repeat split. Qed.

Lemma same_disk_sym w1 w2 : same_disk w1 w2 → same_disk w2 w1.
Proof. intros (? & ? & ? & ?). by repeat split. Qed.

Lemma same_disk_trans w1 w2 w3 : same_disk w1 w2 → same_disk w2 w3 → same_disk w1 w3.
Proof.
  intros (? & ? & ? & ?) (? & ? & ? & ?). repeat split; congruence.
Qed.

Lemma same_disk_with_dirs ds w1 w2 :
  same_disk w1 w2 → same_disk (with_dirs ds w1) (with_dirs ds w2).
Proof. intros (? & ? & ? & ?). by repeat split. Qed.

Lemma with_dirs_same w1 w2 :
  same_disk w1 w2 → with_dirs (dirs w1) w2 = w2.
Proof. intros (_ & <- & _ & _). by destruct w2. Qed.

Lemma is_dir_same_disk w1 w2 path : same_disk w1 w2 → is_dir w2 path = is_dir w1 path.
Proof. intros (_ & Hd & _ & Ht). unfold is_dir. by rewrite Hd, Ht. Qed.

Lemma exists_at_same_disk w1 w2 path :
  same_disk w1 w2 → exists_at w2 path = exists_at w1 path.
Proof.
  intros Hsame. unfold exists_at. rewrite (is_dir_same_disk _ _ _ Hsame).
  destruct Hsame as (Hf & _ & _ & Ht). by rewrite Hf, Ht.
Qed.

Lemma openable_same_disk w1 w2 path :
  same_disk w1 w2 → openable w2 path = openable w1 path.
Proof.
  intros Hsame. unfold openable. rewrite !(is_dir_same_disk _ _ _ Hsame).
  destruct Hsame as (Hf & _ & Hden & Ht). by rewrite Hf, Hden, Ht.
Qed.

(** [os.mkdir] sees the file system only. *)
Lemma mkdir_pair head name w1 w2 :
  same_disk w1 w2 →
  ∃ ok ds, mkdir head name w1 = (ended ok, with_dirs ds w1)
    ∧ mkdir head name w2 = (ended ok, with_dirs ds w2)
    ∧ dirs w1 ⊆ ds
    ∧ (ok = true → target w1 name ∈ ds).
Proof.
  intros Hsame. unfold mkdir.
  rewrite !(is_dir_same_disk _ _ _ Hsame), (exists_at_same_disk _ _ _ Hsame).
  pose proof (with_dirs_same _ _ Hsame) as Hw2.
  pose proof (with_dirs_same _ _ (same_disk_refl w1)) as Hw1.
  destruct Hsame as (Hf & Hd & Hden & Ht). rewrite Hden, Ht, Hd.
  destruct (is_dir w1 name) eqn:Hdir.
  { exists true, (dirs w1). rewrite Hw1, Hw2. split_and!; try done.
    intros _. unfold is_dir in Hdir. by apply bool_decide_eq_true in Hdir. }
  destruct (exists_at w1 name || denied w1 (target w1 name)
            || negb (bool_decide (head = "") || is_dir w1 head)).
  { exists false, (dirs w1). rewrite Hw1, Hw2. by split_and!. }
  exists true, ({[target w1 name]} ∪ dirs w1). split_and!; try done; set_solver.
Qed.

Lemma makedirs_from_pair fuel name w1 w2 :
  same_disk w1 w2 →
  ∃ ok ds, makedirs_from fuel name w1 = (ended ok, with_dirs ds w1)
    ∧ makedirs_from fuel name w2 = (ended ok, with_dirs ds w2)
    ∧ dirs w1 ⊆ ds.
Proof.
  revert name w1 w2. induction fuel as [|fuel IH]; intros name w1 w2 Hsame;
    cbn [makedirs_from]; destruct (makedirs_split name) as [head tail].
  - destruct (mkdir_pair head name w1 w2 Hsame) as (ok & ds & Ha & Hb & Hc & _).
    by exists ok, ds.
  - rewrite (exists_at_same_disk _ _ _ Hsame).
    destruct (negb (bool_decide (head = "")) && negb (bool_decide (tail = ""))
              && negb (exists_at w1 head)).
    + destruct (IH head w1 w2 Hsame) as (ok & ds & -> & -> & Hsub).
      destruct ok; simpl; [|by exists false, ds].
      destruct (bool_decide (tail = ".")); [by exists true, ds|].
      destruct (mkdir_pair head name _ _ (same_disk_with_dirs ds _ _ Hsame))
        as (ok & ds' & -> & -> & Hsub' & _).
      exists ok, ds'. split_and!; try done. simpl in Hsub'. set_solver.
    + destruct (mkdir_pair head name w1 w2 Hsame) as (ok & ds & Ha & Hb & Hc & _).
      by exists ok, ds.
Qed.

(** [os.makedirs] returns or raises [OSError]; it sees the file system
    only and changes nothing but the directories, of which it removes
    none. *)
Lemma makedirs_pair name w1 w2 :
  same_disk w1 w2 →
  ∃ ok ds, makedirs name w1 = (ended ok, with_dirs ds w1)
    ∧ makedirs name w2 = (ended ok, with_dirs ds w2)
    ∧ dirs w1 ⊆ ds.
Proof. apply makedirs_from_pair. Qed.

Lemma makedirs_shape name w :
  ∃ ok ds, makedirs name w = (ended ok, with_dirs ds w) ∧ dirs w ⊆ ds.
Proof.
  destruct (makedirs_pair name w w (same_disk_refl w)) as (ok & ds & ? & _ & ?).
  eauto.
Qed.

(** The directory of the reports has no directory part: one [os.mkdir]. *)
Lemma makedirs_reports w : makedirs "reports" w = mkdir "" "reports" w.
Proof. reflexivity. Qed.

Lemma makedirs_reports_made w w0 :
  makedirs "reports" w = (Done tt, w0) → is_dir w0 "reports" = true.
Proof.
  rewrite makedirs_reports.
  destruct (mkdir_pair "" "reports" w w (same_disk_refl w))
    as (ok & ds & -> & _ & _ & Hin).
  destruct ok; [|done]. intros [= <-]. unfold is_dir. simpl.
  by apply bool_decide_eq_true_2, Hin.
Qed.

Lemma makedirs_reports_again w :
  is_dir w "reports" = true → makedirs "reports" w = (Done tt, w).
Proof. intros Hdir. rewrite makedirs_reports. unfold mkdir. by rewrite Hdir. Qed.

(** [open(path, 'w')] and the write after it. *)
Lemma write_text_cases path c w :
  (openable w path = true
   ∧ write_text path c w
     = (Done tt, with_files (<[target w path := File c]> (files w)) w))
  ∨ (openable w path = false ∧ write_text path c w = (Raised OSError, w)).
Proof. unfold write_text. destruct (openable w path); [by left|by right]. Qed.

(** [os.makedirs] makes directories only where nothing is and the system
    lets it. *)
Lemma mkdir_fresh head name w o w0 :
  mkdir head name w = (o, w0) →
  ∀ t, t ∈ dirs w0 → t ∈ dirs w ∨ (files w !! t = None ∧ denied w t = false).
Proof.
  unfold mkdir. destruct (is_dir w name); [intros [= <- <-]; by left|].
  unfold exists_at.
  destruct (bool_decide (is_Some (files w !! target w name))) eqn:Hfile;
    [intros [= <- <-]; by left|].
  destruct (denied w (target w name)) eqn:Hden;
    [rewrite orb_true_r; intros [= <- <-]; by left|].
  destruct (_ || _ || _); [intros [= <- <-]; by left|].
  intros [= <- <-] t. simpl. rewrite elem_of_union, elem_of_singleton.
  intros [->|Hin]; [right|by left].
  apply bool_decide_eq_false in Hfile. split; [|done].
  by apply eq_None_not_Some.
Qed.

Lemma makedirs_from_fresh fuel name w o w0 :
  makedirs_from fuel name w = (o, w0) →
  ∀ t, t ∈ dirs w0 → t ∈ dirs w ∨ (files w !! t = None ∧ denied w t = false).
Proof.
  revert name w o w0. induction fuel as [|fuel IH]; intros name w o w0;
    cbn [makedirs_from]; destruct (makedirs_split name) as [head tail].
  - apply mkdir_fresh.
  - destruct (negb (bool_decide (head = "")) && negb (bool_decide (tail = ""))
              && negb (exists_at w head)); [|apply mkdir_fresh].
    destruct (makedirs_from_pair fuel head w w (same_disk_refl w))
      as (ok & ds & Hrec & _ & _).
    pose proof (IH head w _ _ Hrec) as Hfresh. rewrite Hrec.
    destruct ok; cbn [ended]; [|intros [= <- <-]; exact Hfresh].
    destruct (bool_decide (tail = ".")); [intros [= <- <-]; exact Hfresh|].
    intros Hmk t Hin.
    destruct (mkdir_fresh _ _ _ _ _ Hmk t Hin) as [Hold|Hnew]; [|by right].
    by apply Hfresh.
Qed.

Lemma makedirs_fresh name w o w0 :
  makedirs name w = (o, w0) →
  ∀ t, t ∈ dirs w0 → t ∈ dirs w ∨ (files w !! t = None ∧ denied w t = false).
Proof. apply makedirs_from_fresh. Qed.

Lemma as_str_list_strings (l : list string) : as_str_list (PList (PStr <$> l)) = Some l.
Proof. simpl. by apply mapM_fmap_Some. Qed.

Lemma to_point_of_point shop : to_point (of_point shop) = Some shop.
Proof.
  destruct shop. unfold to_point, of_point. simpl.
  by rewrite !(mapM_fmap_Some as_str PStr).
Qed.

(** [save_new_shops] after [os.makedirs]: an error of the latter leaves
    the call, an error of [open] is printed. *)
Lemma save_new_shops_raised shops filename w e w0 :
  makedirs (snapshot_dir filename) w = (Raised e, w0) →
  save_new_shops shops filename w = (Raised e, w0).
Proof.
  intros Hmade. unfold save_new_shops, mbind at 1, run_bind at 1.
  change (if bool_decide (PosixPath.dirname filename = "")
          then "." else PosixPath.dirname filename) with (snapshot_dir filename).
  by rewrite Hmade.
Qed.

Lemma save_new_shops_made shops filename w w0 :
  makedirs (snapshot_dir filename) w = (Done tt, w0) →
  save_new_shops shops filename w
  = (Done tt,
     if openable w0 filename
     then said (with_files
                  (<[target w0 filename
                     := File (JsonText (PList (dyn_asdict <$> shops)))]> (files w0)) w0)
            [SnapshotSaved filename]
     else said w0 [SnapshotSaveError OSError]).
Proof.
  intros Hmade. unfold save_new_shops, mbind at 1, run_bind at 1.
  change (if bool_decide (PosixPath.dirname filename = "")
          then "." else PosixPath.dirname filename) with (snapshot_dir filename).
  rewrite Hmade. unfold try_except, mbind, run_bind, write_text.
  by destruct (openable w0 filename).
Qed.

Lemma load_saved filename shops w :
  files w !! target w filename
  = Some (File (JsonText (PList (dyn_asdict <$> shops)))) →
  load_old_shops (Some filename) w = (Done shops, w).
Proof.
  intros Hfile. rewrite (load_json _ _ _ Hfile).
  unfold try_except, mbind, run_bind. cbn [py_iter mret run_ret].
  by rewrite load_items_asdict.
Qed.

(** C6. Round trip: a collection that was saved to a path is loaded from
    that path as it was, in the same order and with the same six fields
    for every shop.  Saved means: the directory of the path was there or
    could be made, and the file could be opened for writing. *)
Theorem save_load_round_trip (shops : list Point) (filename : string)
    (w w0 : world) :
  makedirs (snapshot_dir filename) w = (Done tt, w0) →
  openable w0 filename = true →
  ∃ w1, save_new_shops (of_point <$> shops) filename w = (Done tt, w1)
    ∧ files w1 !! target w1 filename
      = Some (File (JsonText (PList (asdict <$> shops))))
    ∧ load_old_shops (Some filename) w1 = (Done (of_point <$> shops), w1)
    ∧ mapM to_point (of_point <$> shops) = Some shops.
Proof.
  intros Hmade Hopen. rewrite (save_new_shops_made _ _ _ _ Hmade), Hopen.
  eexists. split; [done|].
  match goal with |- context [files ?w1 !! target ?w1 filename] =>
    assert (files w1 !! target w1 filename
            = Some (File (JsonText (PList (dyn_asdict <$> (of_point <$> shops))))))
      as Hfile by (simpl; apply lookup_insert_eq) end.
  split_and!.
  - rewrite Hfile. unfold asdict. by rewrite <-list_fmap_compose.
  - by apply load_saved.
  - apply mapM_fmap_Some. apply to_point_of_point.
Qed.

(** C6 at work: two shops saved into an empty working directory; the
    directory [data] is made on the way. *)
Lemma save_load_round_trip_witness :
  ∃ w1, save_new_shops (of_point <$> [shop_a_old; shop_b]) "data/aviapark.json"
          offline_world = (Done tt, w1)
    ∧ files w1 !! target w1 "data/aviapark.json"
      = Some (File (JsonText (PList (asdict <$> [shop_a_old; shop_b]))))
    ∧ load_old_shops (Some "data/aviapark.json") w1
      = (Done (of_point <$> [shop_a_old; shop_b]), w1)
    ∧ mapM to_point (of_point <$> [shop_a_old; shop_b]) = Some [shop_a_old; shop_b].
Proof.
  apply (save_load_round_trip [shop_a_old; shop_b] "data/aviapark.json"
           offline_world (with_dirs {["data"; "."]} offline_world)).
  - vm_compute. reflexivity.
  - vm_compute. reflexivity.
Defined.

Section FetchFailure.
Context `{HashOrder}.

Lemma parse_aviapark_fetch_error filename w :
  vendor w aviapark_url = FetchError →
  ∃ lines, parse_aviapark filename w = (Done None, said w lines).
Proof.
  intros Hvendor. unfold parse_aviapark.
  destruct (load_old_shops_returns filename w) as (shops & lines & Hload).
  unfold mbind at 1, run_bind at 1. rewrite Hload.
  unfold mbind, run_bind, try_except, fetch, print. simpl. rewrite Hvendor. simpl.
  eexists (lines ++ [_; _; _]). unfold said. simpl.
  by rewrite <-!app_assoc.
Qed.

Lemma parse_riviera_fetch_error filename w :
  vendor w riviera_url = FetchError →
  ∃ lines, parse_riviera filename w = (Done None, said w lines).
Proof.
  intros Hvendor. unfold parse_riviera.
  destruct (load_old_shops_returns filename w) as (shops & lines & Hload).
  unfold mbind at 1, run_bind at 1. rewrite Hload.
  unfold mbind, run_bind, try_except, fetch, print. simpl. rewrite Hvendor. simpl.
  eexists (lines ++ [_; _; _]). unfold said. simpl.
  by rewrite <-!app_assoc.
Qed.
End FetchFailure.

(** C8. A failed fetch ends the run before the diff and before any write:
    the run returns no report, no file is created or changed, and the clock
    was never read (no shop was stamped, no report was dated). *)
Theorem fetch_failure_writes_nothing `{HashOrder} (filename : string) (w : world) :
  (vendor w aviapark_url = FetchError →
   ∃ w', parse_aviapark filename w = (Done None, w')
     ∧ files w' = files w ∧ ticks w' = ticks w)
  ∧ (vendor w riviera_url = FetchError →
     ∃ w', parse_riviera filename w = (Done None, w')
       ∧ files w' = files w ∧ ticks w' = ticks w).
Proof.
  split; intros Hvendor.
  - destruct (parse_aviapark_fetch_error filename w Hvendor) as [lines ->]. eauto.
  - destruct (parse_riviera_fetch_error filename w Hvendor) as [lines ->]. eauto.
Qed.

(** C8 at work: both runs in the world without network. *)
Lemma fetch_failure_writes_nothing_witness :
  (∃ w', @parse_aviapark insertion_order "data/aviapark.json" offline_world
         = (Done None, w')
     ∧ files w' = files offline_world ∧ ticks w' = ticks offline_world)
  ∧ (∃ w', @parse_riviera insertion_order "data/riviera.json" offline_world
           = (Done None, w')
       ∧ files w' = files offline_world ∧ ticks w' = ticks offline_world).
Proof.
  split.
  - apply (@fetch_failure_writes_nothing insertion_order "data/aviapark.json"
             offline_world). reflexivity.
  - apply (@fetch_failure_writes_nothing insertion_order "data/riviera.json"
             offline_world). reflexivity.
Defined.

(** With the vendor answering, the same run stamps one shop, dates one
    report, and leaves the snapshot, the two JSON reports and the two
    rendered documents behind. *)
Example successful_run_writes :
  ∃ report w',
    @parse_aviapark insertion_order "data/aviapark.json" online_world
    = (Done (Some report), w')
    ∧ (name <$> new_shops report) = ["Shop A"]
    ∧ ticks w' = 4%nat
    ∧ (files w' !! "data/aviapark.json"
       = Some (File (JsonText (PList (asdict <$> new_shops report)))))
    ∧ (files w' !! "reports/latest_report.json"
       = Some (File (JsonText (report_asdict report))))
    ∧ (files w' !! "reports/report_20250101_000000.json"
       = Some (File (JsonText (report_asdict report))))
    ∧ is_Some (files w' !! "reports/report.html")
    ∧ is_Some (files w' !! "reports/report_20250101_000000.html").
Proof.
  eexists _, _. split; [vm_compute; reflexivity|].
  split_and!; vm_compute; first [reflexivity | eexists; reflexivity].
Qed.

(** Without an argument the loader needs the global [DATA_FILE], which
    does not exist. *)
Example load_without_filename (w : world) :
  load_old_shops None w = (Raised NameError, w).
Proof. reflexivity. Qed.

Lemma members_get_missing members k default :
  k ∉ members.*1 → members_get members k default = default.
Proof.
  revert default. induction members as [|[k' v] members IH]; intros default; csimpl;
    [done|].
  rewrite not_elem_of_cons. intros [Hne Hk].
  rewrite decide_False by done. by apply IH.
Qed.

(** C9. Loading never fails: from an absent path it returns the empty
    list, from content that is not a JSON array of objects it returns the
    empty list, and a field that a stored object lacks takes its default. *)
Theorem load_tolerates (filename : string) (w : world) :
  (∃ shops w', load_old_shops (Some filename) w = (Done shops, w')
     ∧ files w' = files w)
  ∧ (files w !! target w filename = None →
     ∃ w', load_old_shops (Some filename) w = (Done [], w'))
  ∧ (files w !! target w filename = Some Blocked →
     ∃ w', load_old_shops (Some filename) w = (Done [], w'))
  ∧ (∀ c, files w !! target w filename = Some (File c) →
       (∀ records, c ≠ JsonText (PList (PDict <$> records))) →
       ∃ w', load_old_shops (Some filename) w = (Done [], w'))
  ∧ (∀ records,
       files w !! target w filename = Some (File (JsonText (PList (PDict <$> records)))) →
       ∃ shops, load_old_shops (Some filename) w = (Done shops, w)
         ∧ Forall2 (λ members shop,
              ("id" ∉ members.*1 → dyn_id shop = PStr "")
              ∧ ("name" ∉ members.*1 → dyn_name shop = PStr "")
              ∧ ("parsed_categories" ∉ members.*1 →
                 dyn_parsed_categories shop = PList [])
              ∧ ("assigned_categories" ∉ members.*1 →
                 dyn_assigned_categories shop = PList [])
              ∧ ("parsing_date" ∉ members.*1 → dyn_parsing_date shop = PStr "")
              ∧ ("status" ∉ members.*1 → dyn_status shop = PStr "unknown"))
            records shops).
Proof.
  split_and!.
  - destruct (load_old_shops_returns filename w) as (shops & lines & ->). eauto.
  - intros Hfile. destruct (decide (target w filename ∈ dirs w)) as [Hdir|Hdir].
    + rewrite (load_directory _ _ Hfile Hdir). eauto.
    + rewrite (load_absent _ _ Hfile Hdir). eauto.
  - intros Hfile. rewrite (load_blocked _ _ Hfile). eauto.
  - intros c Hfile Hc. destruct c as [v| |].
    + destruct (load_other_json filename v w Hfile) as [lines ->]; [|eauto].
      intros records ->. by apply (Hc records).
    + rewrite (load_not_json _ _ _ Hfile); by eauto.
    + rewrite (load_not_json _ _ _ Hfile); by eauto.
  - intros records Hfile. rewrite (load_objects _ _ _ Hfile).
    eexists. split; [reflexivity|].
    apply Forall2_fmap_r, Forall_Forall2_diag, Forall_forall.
    intros members _. unfold stored_point. simpl.
    split_and!; apply members_get_missing.
Qed.

(** C7, as stated, fails: on the same two inputs an interpreter that
    iterates sets in insertion order and one whose hash puts "shop b"
    first list the new shops in different orders. *)
Lemma report_order_counterexample :
  ∃ r1 r2,
    @analyze_changes insertion_order "2025-01-01 00:00:00" [] [shop_a_new; shop_b] = Some r1
    ∧ @analyze_changes (slot_first "shop b") "2025-01-01 00:00:00" [] [shop_a_new; shop_b] = Some r2
    ∧ new_shops r1 = [shop_a_new; shop_b]
    ∧ new_shops r2 = [shop_b; shop_a_new]
    ∧ without_date r1 ≠ without_date r2.
Proof.
  eexists _, _. split_and!; [by vm_compute|by vm_compute|done|done|].
  simpl. intros Heq. discriminate Heq.
Qed.

(** C7, amended. The report depends on the clock through its date only:
    one interpreter gives, at two times, reports that are equal once the
    date is left out.  It depends on the iteration order of sets through
    the order of its lists only: two interpreters give the same totals and
    statistics, the same new and disappeared shops in some order, and the
    same changed entries in some order, each with its added and removed
    categories in some order. *)
Theorem report_determined_up_to_order (H1 H2 : HashOrder) (now1 now2 : string)
    (old_list new_list : list Point) :
  ∃ r1 r1' r2,
    @analyze_changes H1 now1 old_list new_list = Some r1
    ∧ @analyze_changes H1 now2 old_list new_list = Some r1'
    ∧ @analyze_changes H2 now2 old_list new_list = Some r2
    ∧ date r1 = now1 ∧ date r1' = now2
    ∧ without_date r1 = without_date r1'
    ∧ report_equiv r1 r2.
Proof.
  destruct (analyze_changes_order H1 H2 now1 now2 old_list new_list)
    as (r1 & r2 & Hr1 & Hr2 & Heq).
  destruct (@analyze_changes_returns H1 now1 old_list new_list)
    as (ns & ds & cs & Hns & Hds & Hcs & Hret).
  destruct (@analyze_changes_returns H1 now2 old_list new_list)
    as (ns' & ds' & cs' & Hns' & Hds' & Hcs' & Hret').
  rewrite Hns in Hns'. rewrite Hds in Hds'. rewrite Hcs in Hcs'.
  injection Hns' as <-. injection Hds' as <-. injection Hcs' as <-.
  rewrite Hret in Hr1. injection Hr1 as <-.
  eexists _, _, r2. split_and!; [done|done|done|done|done|done|done].
Qed.

(** ** More on normalization *)

Module PyStrMore.
Import PyStr.

Lemma lower_char_idem c : lower_char (lower_char c) = lower_char c.
Proof. by destruct c as [[] [] [] [] [] [] [] []]. Qed.

Lemma lower_idem s : lower (lower s) = lower s.
Proof. induction s as [|c s IH]; simpl; [done|]. by rewrite lower_char_idem, IH. Qed.

Lemma rstrip_idem s : rstrip (rstrip s) = rstrip s.
Proof.
  induction s as [|c s IH]; simpl; [done|].
  destruct (rstrip s) as [|c' kept] eqn:Hs.
  - destruct (isspace c) eqn:Hc; simpl; [done|]. by rewrite Hc.
  - change (rstrip (String c (String c' kept))) with
      (match rstrip (String c' kept) with
       | EmptyString => if isspace c then EmptyString else String c EmptyString
       | kept' => String c kept'
       end).
    by rewrite IH.
Qed.

(** What [lstrip] leaves does not start with whitespace. *)
Lemma lstrip_head s :
  lstrip s = EmptyString ∨ ∃ c rest, lstrip s = String c rest ∧ isspace c = false.
Proof.
  induction s as [|c s IH]; simpl; [by left|].
  destruct (isspace c) eqn:Hc; [exact IH|]. right. eauto.
Qed.

Lemma lstrip_rstrip_head c rest :
  isspace c = false → lstrip (rstrip (String c rest)) = rstrip (String c rest).
Proof.
  intros Hc. simpl. destruct (rstrip rest); rewrite ?Hc; simpl; by rewrite Hc.
Qed.

Lemma strip_idem s : strip (strip s) = strip s.
Proof.
  unfold strip. destruct (lstrip_head s) as [->|(c & rest & -> & Hc)]; [done|].
  by rewrite lstrip_rstrip_head, rstrip_idem.
Qed.

End PyStrMore.

(** X1. A key is its own key: normalizing twice changes nothing. *)
Theorem normalize_name_idempotent (s : string) :
  normalize_name (normalize_name s) = normalize_name s.
Proof.
  unfold normalize_name.
  by rewrite PyStrFacts.strip_lower, PyStrMore.strip_idem, PyStrMore.lower_idem.
Qed.

(** ** What the engine compares *)

Section Tracked.
Context `{HashOrder}.
Implicit Types (a b l : list string) (o n : Point).

Lemma to_set_as a (X : gset string) :
  (∀ x, x ∈ a ↔ x ∈ X) → list_to_set a = X.
Proof. intros Hx. apply set_eq. intros x. by rewrite elem_of_list_to_set. Qed.

Lemma to_set_set_of l : list_to_set (set_of l) =@{gset string} list_to_set l.
Proof. apply to_set_as. intros x. by rewrite elem_of_set_of, elem_of_list_to_set. Qed.

Lemma length_set_of l : length (set_of l) = size (list_to_set l : gset string).
Proof.
  apply length_as_size; [apply NoDup_set_of|].
  intros x. by rewrite elem_of_set_of, elem_of_list_to_set.
Qed.

Lemma to_set_set_difference a b :
  list_to_set (set_difference a b) =@{gset string} list_to_set a ∖ list_to_set b.
Proof.
  apply to_set_as. intros x.
  by rewrite elem_of_set_difference, elem_of_difference, !elem_of_list_to_set.
Qed.

(** Two sets are unequal for the interpreter when they hold different
    elements. *)
Lemma set_ne_false a b :
  NoDup a → NoDup b →
  set_ne a b = false ↔ list_to_set a =@{gset string} list_to_set b.
Proof.
  intros Ha Hb. unfold set_ne. rewrite negb_false_iff, andb_true_iff.
  rewrite bool_decide_eq_true, forallb_forall.
  setoid_rewrite <-list_elem_of_In. setoid_rewrite set_mem_true.
  split.
  - intros [Hlen Hsub]. apply set_subseteq_size_eq.
    + intros x. rewrite !elem_of_list_to_set. apply Hsub.
    + rewrite !size_list_to_set by done. lia.
  - intros Heq. split.
    + by rewrite <-(size_list_to_set (C:=gset string) a),
        <-(size_list_to_set (C:=gset string) b), Heq.
    + intros x Hx.
      apply (elem_of_list_to_set (C:=gset string)).
      rewrite <-Heq. by apply elem_of_list_to_set.
Qed.

Lemma categories_ne o n :
  set_ne (set_of (parsed_categories o)) (set_of (parsed_categories n)) = false
  ↔ category_set o = category_set n.
Proof.
  rewrite set_ne_false by apply NoDup_set_of.
  unfold category_set. by rewrite !to_set_set_of.
Qed.

Lemma difference_nonempty (X Y : gset string) :
  X ≠ Y → X ∖ Y ≠ ∅ ∨ Y ∖ X ≠ ∅.
Proof.
  intros Hne. destruct (decide (X ∖ Y = ∅)) as [HXY|]; [|by left].
  destruct (decide (Y ∖ X = ∅)) as [HYX|]; [|by right].
  destruct Hne. apply set_eq. intros x.
  destruct (decide (x ∈ X)), (decide (x ∈ Y)); set_solver.
Qed.

Lemma to_set_nil a : list_to_set a =@{gset string} ∅ ↔ a = [].
Proof.
  split; [|by intros ->].
  intros Ha. apply elem_of_nil_inv. intros x Hx.
  apply (elem_of_list_to_set (C:=gset string)) in Hx. rewrite Ha in Hx.
  by apply not_elem_of_empty in Hx.
Qed.

(** X2. Categories are compared as sets: their order and repetitions do
    not count.  A change is recorded exactly when the two sets differ, and
    it lists what only the new set has, what only the old set has, and the
    sizes of the two sets. *)
Theorem categories_change_is_set_difference (o n : Point) :
  match changes_categories (detect_changes o n) with
  | None => category_set o = category_set n
  | Some c =>
      category_set o ≠ category_set n
      ∧ NoDup (added c) ∧ NoDup (removed c)
      ∧ list_to_set (added c) = category_set n ∖ category_set o
      ∧ list_to_set (removed c) = category_set o ∖ category_set n
      ∧ total_old c = Z.of_nat (size (category_set o))
      ∧ total_new c = Z.of_nat (size (category_set n))
  end.
Proof.
  unfold detect_changes. simpl.
  destruct (set_ne _ _) eqn:Hne.
  - assert (category_set o ≠ category_set n) as Hdiff.
    { intros Heq. apply categories_ne in Heq. congruence. }
    assert (list_to_set (set_difference (set_of (parsed_categories n))
                           (set_of (parsed_categories o)))
            = category_set n ∖ category_set o) as Hadded.
    { unfold category_set. by rewrite to_set_set_difference, !to_set_set_of. }
    assert (list_to_set (set_difference (set_of (parsed_categories o))
                           (set_of (parsed_categories n)))
            = category_set o ∖ category_set n) as Hremoved.
    { unfold category_set. by rewrite to_set_set_difference, !to_set_set_of. }
    assert ((bool_decide (set_difference (set_of (parsed_categories n))
                            (set_of (parsed_categories o)) ≠ [])
             || bool_decide (set_difference (set_of (parsed_categories o))
                               (set_of (parsed_categories n)) ≠ [])) = true) as ->.
    { apply orb_true_iff. rewrite !bool_decide_eq_true.
      destruct (difference_nonempty _ _ Hdiff) as [Hrem|Hadd].
      - right. intros Hnil. apply Hrem. by rewrite <-Hremoved, Hnil.
      - left. intros Hnil. apply Hadd. by rewrite <-Hadded, Hnil. }
    simpl. unfold len. rewrite Hadded, Hremoved, !length_set_of.
    split_and!; try done; apply NoDup_set_difference, NoDup_set_of.
  - by apply categories_ne.
Qed.

Lemma nonempty_detect_changes o n :
  nonempty (detect_changes o n) = true ↔ tracked_differ o n.
Proof.
  pose proof (categories_change_is_set_difference o n) as Hcat.
  unfold nonempty, tracked_differ.
  rewrite !orb_true_iff, !bool_decide_eq_true.
  assert (is_Some (changes_id (detect_changes o n)) ↔ id o ≠ id n) as ->.
  { unfold detect_changes. simpl. destruct (decide (id o ≠ id n)) as [|Heq].
    - split; eauto.
    - split; [by intros [? ?]|done]. }
  assert (is_Some (changes_status (detect_changes o n)) ↔ status o ≠ status n)
    as ->.
  { unfold detect_changes. simpl. destruct (decide (status o ≠ status n)).
    - split; eauto.
    - split; [by intros [? ?]|done]. }
  assert (is_Some (changes_categories (detect_changes o n))
          ↔ category_set o ≠ category_set n) as ->; [|tauto].
  destruct (changes_categories (detect_changes o n)) as [c|].
  - destruct Hcat as [Hcat _]. split; eauto.
  - split; [by intros [? ?]|done].
Qed.

Lemma tracked_differ_sym o n : tracked_differ o n ↔ tracked_differ n o.
Proof. unfold tracked_differ. split; intros [?|[?|?]]; auto. Qed.
End Tracked.

Lemma fmap_PStr_inj (l1 l2 : list string) : PStr <$> l1 = PStr <$> l2 → l1 = l2.
Proof.
  revert l2. induction l1 as [|x l1 IH]; intros [|y l2]; csimpl; try done.
  intros [= -> Hl]. f_equal. by apply IH.
Qed.

Lemma asdict_inj (p q : Point) : asdict p = asdict q → p = q.
Proof.
  destruct p, q. unfold asdict, dyn_asdict, of_point. simpl.
  intros [= -> -> Hp Ha -> ->].
  apply fmap_PStr_inj in Hp, Ha. by subst.
Qed.

(** X3. A shop that both sides have is listed as changed exactly when its
    id, its status or its set of parsed categories differs; its assigned
    categories, its parsing date and the spelling of its name never make it
    a changed shop. *)
Theorem changed_iff_tracked_field_differs `{HashOrder} (now : string)
    (old_list new_list : list Point) :
  ∃ r, analyze_changes now old_list new_list = Some r
    ∧ ∀ o n,
        dict_get (name_dict old_list) (key o) = Some o →
        dict_get (name_dict new_list) (key o) = Some n →
        ((∃ e, e ∈ changed_shops r ∧ old_shop e = asdict o ∧ new_shop e = asdict n)
         ↔ tracked_differ o n).
Proof.
  destruct (analyze_changes_returns now old_list new_list)
    as (ns & ds & cs & Hns & Hds & Hcs & ->).
  eexists. split; [done|]. simpl. intros o n Ho Hn. split.
  - intros (e & He & Heo & Hen).
    destruct (changed_loop_elem _ _ _ _ _ Hcs He)
      as (k & o' & n' & Hk & Ho' & Hn' & Hne & ->).
    simpl in *. apply asdict_inj in Heo, Hen. subst o' n'.
    by apply nonempty_detect_changes.
  - intros Hdiff. apply nonempty_detect_changes in Hdiff.
    apply changed_loop_omap in Hcs. subst cs.
    exists (mkChangedShop (name o) (asdict o) (asdict n) (detect_changes o n)).
    split; [|done]. apply list_elem_of_omap. exists (key o). split.
    + apply elem_of_set_intersection. split; apply names_keys, dict_get_is_Some; eauto.
    + unfold changed_entry. rewrite Ho, Hn. simpl. by rewrite Hdiff.
Qed.

(** ** The three lists of a report *)

Lemma omap_filter {A B} (P : A → Prop) `{∀ x, Decision (P x)}
    (f : A → option B) (l : list A) :
  omap f (filter P l) = omap (λ x, if decide (P x) then f x else None) l.
Proof.
  induction l as [|x l IH]; [done|].
  destruct (decide (P x)) as [HP|HP].
  - rewrite filter_cons_True by done. csimpl. rewrite decide_True by done.
    by rewrite IH.
  - rewrite filter_cons_False by done. csimpl. rewrite decide_False by done.
    by rewrite IH.
Qed.

(** The values of a dict, picked by a property of their keys. *)
Lemma picked_values (P : string → Prop) `{∀ k, Decision (P k)}
    (d' d : dict Point) :
  Forall (λ kv, dict_get d' kv.1 = Some kv.2 ∧ kv.1 = key kv.2) d →
  omap (λ k, if decide (P k) then dict_get d' k else None) (dict_keys d)
  = filter (λ p, P (key p)) (dict_values d).
Proof.
  unfold dict_keys, dict_values.
  induction d as [|[k v] d IH]; intros Hd; csimpl; [done|].
  apply Forall_cons in Hd as [[Hget Hkey] Hd]. simpl in *. subst k.
  destruct (decide (P (key v))) as [HP|HP].
  - rewrite Hget, filter_cons_True by done. by rewrite IH.
  - rewrite filter_cons_False by done. by rewrite IH.
Qed.

Lemma dict_get_entries {V} (d : dict V) :
  NoDup (dict_keys d) → Forall (λ kv, dict_get d kv.1 = Some kv.2) d.
Proof.
  unfold dict_keys. induction d as [|[k v] d IH]; csimpl; [constructor|].
  intros [Hk Hd]%NoDup_cons. constructor.
  - simpl. by rewrite decide_True.
  - specialize (IH Hd). rewrite Forall_forall in IH. apply Forall_forall.
    intros [k' v'] Hin. simpl. rewrite decide_False; [by apply (IH (k', v'))|].
    intros ->. apply Hk. apply list_elem_of_fmap. by exists (k', v').
Qed.

Lemma name_dict_entries shops :
  Forall (λ kv, dict_get (name_dict shops) kv.1 = Some kv.2 ∧ kv.1 = key kv.2)
    (name_dict shops).
Proof.
  pose proof (dict_get_entries _ (name_dict_keys_NoDup shops)) as Hget.
  pose proof (name_dict_keyed shops) as Hkey. unfold keyed in Hkey.
  rewrite Forall_forall in Hget, Hkey. apply Forall_forall. intros kv Hkv. auto.
Qed.

Section Lists.
Context `{HashOrder}.

Lemma names_perm shops : names shops ≡ₚ dict_keys (name_dict shops).
Proof.
  unfold names, set_of. rewrite hash_order_perm.
  by rewrite distinct_NoDup by apply name_dict_keys_NoDup.
Qed.

(** The shops of [mine] whose key [other] does not have, as the engine
    finds them. *)
Lemma only_in_one_side (mine other : list Point) (found : list Point) :
  mapM (dict_get (name_dict mine)) (set_difference (names mine) (names other))
  = Some found →
  found ≡ₚ filter (λ p, key p ∉ key_set other) (deduplicated mine).
Proof.
  intros Hfound. apply mapM_omap in Hfound. subst found.
  unfold deduplicated.
  pose proof (picked_values (λ k, k ∉ key_set other) (name_dict mine)
                (name_dict mine) (name_dict_entries mine)) as Hpicked.
  cbv beta in Hpicked. rewrite <-Hpicked.
  rewrite <-omap_filter. apply omap_Permutation.
  unfold set_difference. rewrite hash_order_perm.
  etrans; [apply filter_Permutation, names_perm|].
  apply reflexive_eq, list_filter_iff. intros k.
  by rewrite set_mem_false, elem_of_names.
Qed.
End Lists.

(** X4. The new shops are the shops of the deduplicated new input whose
    key the old input does not have; the disappeared shops are those of the
    deduplicated old input whose key the new input does not have. *)
Theorem new_and_disappeared_shops `{HashOrder} (now : string)
    (old_list new_list : list Point) :
  ∃ r, analyze_changes now old_list new_list = Some r
    ∧ new_shops r
      ≡ₚ filter (λ p, key p ∉ key_set old_list) (deduplicated new_list)
    ∧ disappeared_shops r
      ≡ₚ filter (λ p, key p ∉ key_set new_list) (deduplicated old_list).
Proof.
  destruct (analyze_changes_returns now old_list new_list)
    as (ns & ds & cs & Hns & Hds & Hcs & ->).
  eexists. split; [done|]. simpl. split; by apply only_in_one_side.
Qed.

Lemma length_omap_same {A B C} (f : A → option B) (g : A → option C) l :
  (∀ x, is_Some (f x) ↔ is_Some (g x)) → length (omap f l) = length (omap g l).
Proof.
  intros Hfg. induction l as [|x l IH]; csimpl; [done|].
  destruct (f x) as [y|] eqn:Hf, (g x) as [z|] eqn:Hg; csimpl; auto.
  - assert (is_Some (g x)) as [? ?] by (apply Hfg; rewrite Hf; eauto). congruence.
  - assert (is_Some (f x)) as [? ?] by (apply Hfg; rewrite Hg; eauto). congruence.
Qed.

Lemma changed_entry_swap `{HashOrder} (d1 d2 : dict Point) k :
  is_Some (changed_entry d1 d2 k) ↔ is_Some (changed_entry d2 d1 k).
Proof.
  unfold changed_entry.
  destruct (dict_get d1 k) as [o|], (dict_get d2 k) as [n|]; csimpl;
    try (split; by intros [? ?]).
  destruct (nonempty (detect_changes o n)) eqn:Hon,
    (nonempty (detect_changes n o)) eqn:Hno; try (split; by eauto).
  - apply nonempty_detect_changes, tracked_differ_sym, nonempty_detect_changes in Hon.
    congruence.
  - apply nonempty_detect_changes, tracked_differ_sym, nonempty_detect_changes in Hno.
    congruence.
Qed.

(** X5. Looking backwards: when the two inputs trade places, the new shops
    and the disappeared shops trade places, and the numbers of changed and
    of unchanged shops stay what they were. *)
Theorem swapping_the_inputs `{HashOrder} (now : string)
    (old_list new_list : list Point) :
  ∃ r r', analyze_changes now old_list new_list = Some r
    ∧ analyze_changes now new_list old_list = Some r'
    ∧ new_shops r' ≡ₚ disappeared_shops r
    ∧ disappeared_shops r' ≡ₚ new_shops r
    ∧ Stats.changed_count (stats r') = Stats.changed_count (stats r)
    ∧ Stats.unchanged_count (stats r') = Stats.unchanged_count (stats r)
    ∧ total_before r' = total_after r ∧ total_after r' = total_before r.
Proof.
  destruct (analyze_changes_returns now old_list new_list)
    as (ns & ds & cs & Hns & Hds & Hcs & ->).
  destruct (analyze_changes_returns now new_list old_list)
    as (ns' & ds' & cs' & Hns' & Hds' & Hcs' & ->).
  eexists _, _. split; [done|]. split; [done|]. simpl.
  assert (length cs' = length cs) as Hlen.
  { apply changed_loop_omap in Hcs, Hcs'. subst cs cs'.
    rewrite (length_omap_same _ (changed_entry (name_dict old_list) (name_dict new_list)))
      by apply changed_entry_swap.
    apply Permutation_length, omap_Permutation.
    apply NoDup_Permutation.
    - apply NoDup_set_intersection; apply NoDup_names.
    - apply NoDup_set_intersection; apply NoDup_names.
    - intros k. rewrite !elem_of_remaining. tauto. }
  split_and!; try done.
  - rewrite (only_in_one_side _ _ _ Hns'). symmetry. by apply only_in_one_side.
  - rewrite (only_in_one_side _ _ _ Hds'). symmetry. by apply only_in_one_side.
  - unfold len. by rewrite Hlen.
  - unfold len. rewrite Hlen, !length_remaining. do 3 f_equal. set_solver.
Qed.

Lemma length_dict_set {V} (d : dict V) k v :
  (length (dict_set d k v) ≤ S (length d))%nat.
Proof.
  induction d as [|[k' v'] d IH]; simpl; [done|].
  destruct (decide (k' = k)); simpl; lia.
Qed.

Lemma length_name_dict shops : (length (name_dict shops) ≤ length shops)%nat.
Proof.
  unfold name_dict.
  enough (∀ d : dict Point,
            (length (foldl (λ d shop, dict_set d (key shop) shop) d shops)
             ≤ length d + length shops)%nat) as Hgen by apply (Hgen []).
  induction shops as [|p shops IH]; intros d; simpl; [lia|].
  etrans; [apply IH|]. pose proof (length_dict_set d (key p) p). lia.
Qed.

(** X6. The counters of a report count its lists: the totals are the
    lengths of the inputs, the three counts are the lengths of the three
    lists, the changed and the unchanged shops together are the keys both
    sides have, and no count is negative. *)
Theorem stats_count_the_lists `{HashOrder} (now : string)
    (old_list new_list : list Point) :
  ∃ r, analyze_changes now old_list new_list = Some r
    ∧ date r = now
    ∧ Stats.total_before (stats r) = total_before r
    ∧ Stats.total_after (stats r) = total_after r
    ∧ Stats.new_count (stats r) = len (new_shops r)
    ∧ Stats.disappeared_count (stats r) = len (disappeared_shops r)
    ∧ Stats.changed_count (stats r) = len (changed_shops r)
    ∧ Stats.changed_count (stats r) + Stats.unchanged_count (stats r)
      = Z.of_nat (size (key_set old_list ∩ key_set new_list))
    ∧ 0 ≤ Stats.unchanged_count (stats r)
    ∧ Stats.new_count (stats r) ≤ total_after r
    ∧ Stats.disappeared_count (stats r) ≤ total_before r.
Proof.
  destruct (analyze_changes_returns now old_list new_list)
    as (ns & ds & cs & Hns & Hds & Hcs & ->).
  eexists. split; [done|]. simpl.
  pose proof (changed_loop_length _ _ _ _ Hcs) as Hle.
  pose proof (length_remaining old_list new_list) as Hrem.
  assert (∀ mine other found,
            mapM (dict_get (name_dict mine))
              (set_difference (names mine) (names other)) = Some found →
            (length found ≤ length mine)%nat) as Hbound.
  { intros mine other found Hfound.
    rewrite (only_in_one_side _ _ _ Hfound).
    etrans; [apply length_filter|].
    unfold deduplicated, dict_values. rewrite length_fmap.
    apply length_name_dict. }
  pose proof (Hbound _ _ _ Hns). pose proof (Hbound _ _ _ Hds).
  unfold len. split_and!; try done; lia.
Qed.

(** ** The sign and the exact values of the change percentage *)

Module PyFloatSign.
Import PyFloat.

Lemma pow2_pos (e : Z) : (0 < pow2 e)%Q.
Proof.
  destruct e as [|p|p]; simpl; [done| |done].
  unfold Qlt. simpl. pose proof (Z.pow_pos_nonneg 2 (Z.pos p)). lia.
Qed.

Lemma round_half_even_nonneg (q : Q) : (0 <= q)%Q → 0 ≤ round_half_even q.
Proof.
  intros Hq. pose proof (Qfloor_resp_le _ _ Hq) as Hf.
  change (Qfloor 0) with 0 in Hf.
  unfold round_half_even.
  destruct (q - inject_Z (Qfloor q) ?= 1 # 2)%Q; [destruct (Z.even _)| |]; lia.
Qed.

Lemma round_half_even_nonpos (q : Q) : (q <= 0)%Q → round_half_even q ≤ 0.
Proof.
  intros Hq. pose proof (Qfloor_resp_le _ _ Hq) as Hf.
  change (Qfloor 0) with 0 in Hf.
  destruct (decide (Qfloor q = 0)) as [Hzero|Hneg].
  - assert (q == 0)%Q as Hq0.
    { apply Qle_antisym; [done|]. pose proof (Qfloor_le q) as Hle.
      by rewrite Hzero in Hle. }
    rewrite (PyFloatFacts.round_half_even_comp _ _ Hq0). by vm_compute.
  - unfold round_half_even.
    destruct (q - inject_Z (Qfloor q) ?= 1 # 2)%Q; [destruct (Z.even _)| |]; lia.
Qed.

Lemma inject_Z_nonneg (z : Z) : 0 ≤ z → (0 <= inject_Z z)%Q.
Proof. intros Hz. unfold Qle. simpl. lia. Qed.

Lemma inject_Z_nonpos (z : Z) : z ≤ 0 → (inject_Z z <= 0)%Q.
Proof. intros Hz. unfold Qle. simpl. lia. Qed.

Lemma Qdiv_nonneg (a b : Q) : (0 <= a)%Q → (0 < b)%Q → (0 <= a / b)%Q.
Proof.
  intros Ha Hb. unfold Qdiv. apply Qmult_le_0_compat; [done|].
  apply Qlt_le_weak. by apply Qinv_lt_0_compat.
Qed.

Lemma Qmult_nonpos (a b : Q) : (a <= 0)%Q → (0 <= b)%Q → (a * b <= 0)%Q.
Proof.
  intros Ha Hb. pose proof (Qmult_le_compat_r _ _ _ Ha Hb) as Hle.
  by rewrite Qmult_0_l in Hle.
Qed.

Lemma Qdiv_nonpos (a b : Q) : (a <= 0)%Q → (0 < b)%Q → (a / b <= 0)%Q.
Proof.
  intros Ha Hb. unfold Qdiv. apply Qmult_nonpos; [done|].
  apply Qlt_le_weak. by apply Qinv_lt_0_compat.
Qed.

Lemma b64_nonneg (q : Q) : (0 <= q)%Q → (0 <= b64 q)%Q.
Proof.
  intros Hq. unfold b64. destruct (Qeq_bool (Qred q) 0); [done|].
  rewrite Qred_correct. apply Qmult_le_0_compat.
  - apply inject_Z_nonneg, round_half_even_nonneg, Qdiv_nonneg.
    + by rewrite Qred_correct.
    + apply pow2_pos.
  - apply Qlt_le_weak, pow2_pos.
Qed.

Lemma b64_nonpos (q : Q) : (q <= 0)%Q → (b64 q <= 0)%Q.
Proof.
  intros Hq. unfold b64. destruct (Qeq_bool (Qred q) 0); [done|].
  rewrite Qred_correct. apply Qmult_nonpos.
  - apply inject_Z_nonpos, round_half_even_nonpos, Qdiv_nonpos.
    + by rewrite Qred_correct.
    + apply pow2_pos.
  - apply Qlt_le_weak, pow2_pos.
Qed.

Lemma py_round_nonneg (x : Q) : (0 <= x)%Q → (0 <= py_round x 2)%Q.
Proof.
  intros Hx. unfold py_round. apply b64_nonneg, Qdiv_nonneg; [|done].
  apply inject_Z_nonneg, round_half_even_nonneg.
  by apply Qmult_le_0_compat.
Qed.

Lemma py_round_nonpos (x : Q) : (x <= 0)%Q → (py_round x 2 <= 0)%Q.
Proof.
  intros Hx. unfold py_round. apply b64_nonpos, Qdiv_nonpos; [|done].
  apply inject_Z_nonpos, round_half_even_nonpos.
  by apply Qmult_nonpos.
Qed.

End PyFloatSign.

Lemma inject_Z_pos (z : Z) : 0 < z → (0 < inject_Z z)%Q.
Proof. intros Hz. unfold Qlt. simpl. lia. Qed.

Lemma change_percentage_nonneg (before after : Z) :
  before ≤ after → (0 <= change_percentage before after)%Q.
Proof.
  intros Hle. unfold change_percentage, PyFloat.float_mul_int, PyFloat.int_true_div.
  apply PyFloatSign.py_round_nonneg, PyFloatSign.b64_nonneg.
  apply Qmult_le_0_compat; [|done].
  apply PyFloatSign.b64_nonneg, PyFloatSign.Qdiv_nonneg.
  - apply PyFloatSign.inject_Z_nonneg. lia.
  - apply inject_Z_pos. lia.
Qed.

Lemma change_percentage_nonpos (before after : Z) :
  after ≤ before → (change_percentage before after <= 0)%Q.
Proof.
  intros Hle. unfold change_percentage, PyFloat.float_mul_int, PyFloat.int_true_div.
  apply PyFloatSign.py_round_nonpos, PyFloatSign.b64_nonpos.
  apply PyFloatSign.Qmult_nonpos; [|done].
  apply PyFloatSign.b64_nonpos, PyFloatSign.Qdiv_nonpos.
  - apply PyFloatSign.inject_Z_nonpos. lia.
  - apply inject_Z_pos. lia.
Qed.

(** When the difference is a whole multiple of the baseline, the
    percentage is exact. *)
Lemma change_percentage_multiple (before after q : Z) :
  after - before = q * Z.max before 1 → Z.abs (100 * q) < 2 ^ 53 →
  change_percentage before after = inject_Z (100 * q).
Proof.
  intros Hq Hbound. unfold change_percentage.
  assert (PyFloat.int_true_div (after - before) (Z.max before 1) = inject_Z q) as ->.
  { unfold PyFloat.int_true_div.
    etrans; [|apply (PyFloatFacts.b64_Z q); lia].
    apply PyFloatFacts.b64_comp. rewrite Hq, inject_Z_mult.
    apply Qdiv_mult_l. unfold Qeq. simpl. lia. }
  rewrite PyFloatFacts.float_mul_int_Z by lia.
  rewrite PyFloatFacts.py_round_Z by lia.
  f_equal. lia.
Qed.

(** X7. The sign of the change percentage never contradicts the direction
    of the change: it is not negative when the new input is at least as
    long as the old one, and not positive when it is at most as long. *)
Theorem change_percentage_sign `{HashOrder} (now : string)
    (old_list new_list : list Point) :
  ∃ r, analyze_changes now old_list new_list = Some r
    ∧ (len old_list ≤ len new_list → (0 <= Stats.change_percentage (stats r))%Q)
    ∧ (len new_list ≤ len old_list → (Stats.change_percentage (stats r) <= 0)%Q)
    ∧ (len new_list = len old_list → Stats.change_percentage (stats r) = 0%Q).
Proof.
  destruct (analyze_changes_returns now old_list new_list)
    as (ns & ds & cs & Hns & Hds & Hcs & ->).
  eexists. split; [done|]. simpl. split_and!.
  - apply change_percentage_nonneg.
  - apply change_percentage_nonpos.
  - intros ->. apply (change_percentage_multiple _ _ 0); [lia|done].
Qed.

(** X8. Whole multiples are exact: when the new input has [q] baselines
    more than the old one (the baseline of an empty old input counts as
    one), the percentage is exactly [100 * q]; when every shop is gone it
    is exactly -100, however many there were. *)
Theorem change_percentage_whole_multiples `{HashOrder} (now : string)
    (old_list new_list : list Point) :
  ∃ r, analyze_changes now old_list new_list = Some r
    ∧ (∀ q : Z, len new_list - len old_list = q * Z.max (len old_list) 1 →
         Z.abs (100 * q) < 2 ^ 53 →
         Stats.change_percentage (stats r) = inject_Z (100 * q))
    ∧ (old_list ≠ [] → new_list = [] →
       Stats.change_percentage (stats r) = inject_Z (-100)).
Proof.
  destruct (analyze_changes_returns now old_list new_list)
    as (ns & ds & cs & Hns & Hds & Hcs & ->).
  eexists. split; [done|]. simpl. split.
  - intros q. apply change_percentage_multiple.
  - intros Hold ->. apply (change_percentage_multiple _ _ (-1)); [|done].
    destruct old_list; [done|]. unfold len. simpl. lia.
Qed.

(** X8 at work: seven shops where there was one are 600 percent. *)
Lemma change_percentage_whole_multiples_witness :
  ∃ r, @analyze_changes insertion_order "2025-01-01 00:00:00" [shop_b]
         [shop_b; shop_b; shop_b; shop_b; shop_b; shop_b; shop_b] = Some r
    ∧ Stats.change_percentage (stats r) = inject_Z 600.
Proof.
  destruct (@change_percentage_whole_multiples insertion_order "2025-01-01 00:00:00"
              [shop_b] [shop_b; shop_b; shop_b; shop_b; shop_b; shop_b; shop_b])
    as (r & Hr & Hmul & _).
  exists r. split; [exact Hr|]. apply (Hmul 6); [reflexivity|]. vm_compute. reflexivity.
Defined.

(** ** The writers *)

(** X9. [save_new_shops] raises only from [os.makedirs], which runs before
    the [try] and before anything is written.  Once the directory is
    there the call returns: it has replaced the file by the six-field
    objects of the shops, or, when the file cannot be opened, changed no
    file at all; no other file is touched. *)
Theorem save_new_shops_outcome (shops : list DynPoint) (filename : string)
    (w : world) :
  ∃ ok w0, makedirs (snapshot_dir filename) w = (ended ok, w0)
    ∧ files w0 = files w
    ∧ if ok
      then ∃ w', save_new_shops shops filename w = (Done tt, w')
             ∧ ticks w' = ticks w ∧ dirs w' = dirs w0
             ∧ files w'
               = if openable w0 filename
                 then <[target w filename
                        := File (JsonText (PList (dyn_asdict <$> shops)))]> (files w)
                 else files w
      else save_new_shops shops filename w = (Raised OSError, w0).
Proof.
  destruct (makedirs_shape (snapshot_dir filename) w) as (ok & ds & Hmade & _).
  exists ok, (with_dirs ds w). split; [exact Hmade|]. split; [done|].
  destruct ok.
  - rewrite (save_new_shops_made _ _ _ _ Hmade). eexists. split; [done|].
    by destruct (openable (with_dirs ds w) filename).
  - by apply save_new_shops_raised.
Qed.

Lemma bind_raised {A B} (m : run A) (f : A → run B) w e w0 :
  m w = (Raised e, w0) → (m ≫= f) w = (Raised e, w0).
Proof. intros Hm. unfold mbind, run_bind. by rewrite Hm. Qed.

Lemma bind_returned {A B} (m : run A) (f : A → run B) w a w0 :
  m w = (Done a, w0) → (m ≫= f) w = f a w0.
Proof. intros Hm. unfold mbind, run_bind. by rewrite Hm. Qed.

Lemma print_said m w : print m w = (Done tt, said w [m]).
Proof. reflexivity. Qed.

Lemma openable_said w lines path : openable (said w lines) path = openable w path.
Proof. reflexivity. Qed.

Lemma openable_ticked w path : openable (ticked w) path = openable w path.
Proof. reflexivity. Qed.

Lemma latest_is_not_history t : latest_report_file ≠ history_report_file t.
Proof. unfold latest_report_file, history_report_file. simpl. discriminate. Qed.

(** A [try] with two writes of the same text, the way
    [save_report_to_json] has it: the first error ends it. *)
Lemma two_writes (first second : string) (c : content) (w : world)
    (said1 said2 : message) (failed : exn → message) :
  ∃ w', try_except
          (write_text first c;; print said1;;
           write_text second c;; print said2)
          (λ e, print (failed e)) w = (Done tt, w')
    ∧ ticks w' = ticks w ∧ same_disk (with_files (files w') w) w'
    ∧ files w'
      = if openable w first
        then if openable (with_files (<[target w first := File c]> (files w)) w) second
             then <[target w second := File c]>
                    (<[target w first := File c]> (files w))
             else <[target w first := File c]> (files w)
        else files w.
Proof.
  unfold try_except, mbind, run_bind.
  destruct (write_text_cases first c w) as [[-> ->]|[-> ->]].
  - rewrite print_said.
    match goal with |- context [write_text second c ?w1] =>
      destruct (write_text_cases second c w1) as [[Hopen ->]|[Hopen ->]] end;
      rewrite openable_said in Hopen; rewrite Hopen, !print_said; eexists; (split; [reflexivity|]); by repeat split.
  - rewrite print_said. eexists. split; [reflexivity|]. by repeat split.
Qed.

(** [save_report_to_json] once the directory of the reports is there. *)
Lemma save_report_to_json_made (report : ChangeReport) (w w0 : world) :
  makedirs "reports" w = (Done tt, w0) →
  ∃ w', save_report_to_json report w = (Done tt, w')
    ∧ ticks w' = S (ticks w0) ∧ same_disk (with_files (files w') w0) w'
    ∧ files w'
      = let json := File (JsonText (report_asdict report)) in
        let history := history_report_file (clock w0 (ticks w0)) in
        let written := <[target w0 latest_report_file := json]> (files w0) in
        if openable w0 latest_report_file
        then if openable (with_files written w0) history
             then <[target w0 history := json]> written
             else written
        else files w0.
Proof.
  intros Hmade. unfold save_report_to_json. cbv zeta.
  rewrite (bind_returned (makedirs "reports") _ _ _ _ Hmade).
  unfold mbind at 1, run_bind at 1, now. cbn [fst snd].
  match goal with |- context [try_except ?body ?handler ?w1] =>
    destruct (two_writes latest_report_file
                (history_report_file (clock w0 (ticks w0)))
                (JsonText (report_asdict report)) w1
                (LatestReportSaved latest_report_file)
                (HistoryReportSaved (history_report_file (clock w0 (ticks w0))))
                ReportSaveError)
      as (w' & Hrun & Hticks & Hdisk & Hfiles) end.
  exists w'. split; [exact Hrun|]. split; [done|]. split; [exact Hdisk|]. exact Hfiles.
Qed.

(** X10. [save_report_to_json] raises only from [os.makedirs], before the
    clock is read and before anything is written.  Once the directory of
    the reports is there the call returns, having read the clock once.
    Both writes share one [try]: when the latest file cannot be opened the
    history file is not written either; when it can, it holds the report,
    and so does the history file of that instant unless that one cannot
    be opened.  No other file is touched. *)
Theorem save_report_to_json_outcome (report : ChangeReport) (w : world) :
  ∃ ok w0, makedirs "reports" w = (ended ok, w0)
    ∧ files w0 = files w ∧ ticks w0 = ticks w
    ∧ if ok
      then ∃ w', save_report_to_json report w = (Done tt, w')
             ∧ ticks w' = S (ticks w) ∧ dirs w' = dirs w0
             ∧ files w'
               = let json := File (JsonText (report_asdict report)) in
                 let history := history_report_file (clock w (ticks w)) in
                 let written := <[target w latest_report_file := json]> (files w) in
                 if openable w0 latest_report_file
                 then if openable (with_files written w0) history
                      then <[target w history := json]> written
                      else written
                 else files w
      else save_report_to_json report w = (Raised OSError, w0).
Proof.
  destruct (makedirs_shape "reports" w) as (ok & ds & Hmade & _).
  exists ok, (with_dirs ds w). split; [exact Hmade|]. split; [done|]. split; [done|].
  destruct ok; cbn [ended] in *;
    [|by apply (bind_raised (makedirs "reports"))].
  destruct (save_report_to_json_made report _ _ Hmade)
    as (w' & Hrun & Hticks & (_ & Hdirs & _) & Hfiles).
  exists w'. split; [exact Hrun|]. split; [done|]. split; [done|]. exact Hfiles.
Qed.

(** The [try] of [generate_html_report]: the clock is read between the two
    writes. *)
Lemma two_documents (c : content) (w : world) :
  ∃ w', try_except
          (write_text latest_html_file c;;
           print (HtmlSaved latest_html_file);;
           t ← now;
           write_text (history_html_file t) c;;
           print (HistoryHtmlSaved (history_html_file t)))
          (λ e, print (HtmlSaveError e)) w = (Done tt, w')
    ∧ same_disk (with_files (files w') w) w'
    ∧ ticks w' = (if openable w latest_html_file then S (ticks w) else ticks w)
    ∧ files w'
      = let history := history_html_file (clock w (ticks w)) in
        let written := <[target w latest_html_file := File c]> (files w) in
        if openable w latest_html_file
        then if openable (with_files written w) history
             then <[target w history := File c]> written
             else written
        else files w.
Proof.
  unfold try_except, mbind, run_bind.
  destruct (write_text_cases latest_html_file c w) as [[-> ->]|[-> ->]].
  - rewrite print_said. unfold now. cbn [fst snd clock ticks said with_files].
    match goal with |- context [write_text ?p c ?w1] =>
      destruct (write_text_cases p c w1) as [[Hopen ->]|[Hopen ->]] end;
      change (openable (ticked (said (with_files
                (<[target w latest_html_file := File c]> (files w)) w)
                [HtmlSaved latest_html_file]))
                (history_html_file (clock w (ticks w))) = true) in Hopen
      || change (openable (ticked (said (with_files
                (<[target w latest_html_file := File c]> (files w)) w)
                [HtmlSaved latest_html_file]))
                (history_html_file (clock w (ticks w))) = false) in Hopen;
      rewrite openable_ticked, openable_said in Hopen;
      cbv zeta; rewrite Hopen, !print_said; eexists; (split; [reflexivity|]);
      by repeat split.
  - rewrite print_said. eexists. split; [reflexivity|]. by repeat split.
Qed.

(** [generate_html_report] once the directory of the reports is there. *)
Lemma generate_html_report_made (report : ChangeReport) (w w0 : world) :
  makedirs "reports" w = (Done tt, w0) →
  ∃ w', generate_html_report report w = (Done tt, w')
    ∧ same_disk (with_files (files w') w0) w'
    ∧ ticks w' = (if openable w0 latest_html_file then S (ticks w0) else ticks w0)
    ∧ files w'
      = let html := File (Rendered (template_data report)) in
        let history := history_html_file (clock w0 (ticks w0)) in
        let written := <[target w0 latest_html_file := html]> (files w0) in
        if openable w0 latest_html_file
        then if openable (with_files written w0) history
             then <[target w0 history := html]> written
             else written
        else files w0.
Proof.
  intros Hmade. unfold generate_html_report. cbv zeta.
  rewrite (bind_returned (makedirs "reports") _ _ _ _ Hmade).
  apply (two_documents (Rendered (template_data report)) w0).
Qed.

(** X11. [generate_html_report] raises only from [os.makedirs], before
    anything is written.  Once the directory of the reports is there the
    call returns.  The clock is read after the latest document was
    written: when that one cannot be opened, nothing is written and the
    clock is not read; both documents are rendered from the same data.
    No other file is touched. *)
Theorem generate_html_report_outcome (report : ChangeReport) (w : world) :
  ∃ ok w0, makedirs "reports" w = (ended ok, w0)
    ∧ files w0 = files w ∧ ticks w0 = ticks w
    ∧ if ok
      then ∃ w', generate_html_report report w = (Done tt, w')
             ∧ dirs w' = dirs w0
             ∧ ticks w'
               = (if openable w0 latest_html_file then S (ticks w) else ticks w)
             ∧ files w'
               = let html := File (Rendered (template_data report)) in
                 let history := history_html_file (clock w (ticks w)) in
                 let written := <[target w latest_html_file := html]> (files w) in
                 if openable w0 latest_html_file
                 then if openable (with_files written w0) history
                      then <[target w history := html]> written
                      else written
                 else files w
      else generate_html_report report w = (Raised OSError, w0).
Proof.
  destruct (makedirs_shape "reports" w) as (ok & ds & Hmade & _).
  exists ok, (with_dirs ds w). split; [exact Hmade|]. split; [done|]. split; [done|].
  destruct ok; cbn [ended] in *;
    [|by apply (bind_raised (makedirs "reports"))].
  destruct (generate_html_report_made report _ _ Hmade)
    as (w' & Hrun & (_ & Hdirs & _) & Hticks & Hfiles).
  exists w'. split; [exact Hrun|]. split; [done|]. split; [exact Hticks|]. exact Hfiles.
Qed.

(** ** The rendered data *)

(** The colour is chosen by the sign of the rounded percentage. *)
Lemma change_color_sign (report : ChangeReport) (percentage : Q) :
  Stats.change_percentage (stats report) = percentage →
  (TemplateData.change_color (template_data report) = "success" →
   (0 < percentage)%Q)
  ∧ (TemplateData.change_color (template_data report) = "danger" →
     (percentage < 0)%Q)
  ∧ ((percentage <= 0)%Q → (0 <= percentage)%Q →
     TemplateData.change_color (template_data report) = "secondary").
Proof.
  intros <-. unfold template_data. cbn [TemplateData.change_color].
  destruct (Qlt_le_dec 0 (Stats.change_percentage (stats report))) as [Hpos|Hle].
  - split_and!; [done|discriminate|].
    intros Hdown _. by destruct (Qlt_not_le _ _ Hpos).
  - destruct (Qlt_le_dec (Stats.change_percentage (stats report)) 0) as [Hneg|Hge].
    + split_and!; [discriminate|done|].
      intros _ Hup. by destruct (Qlt_not_le _ _ Hneg).
    + split_and!; [discriminate|discriminate|done].
Qed.

Lemma stats_percentage d tb ta ns ds cs a b c e f g (percentage : Q) :
  Stats.change_percentage
    (stats (mkChangeReport d tb ta ns ds cs (Stats.mk a b c e f g percentage)))
  = percentage.
Proof. reflexivity. Qed.

(** X12. The colour of the rendered change follows the direction of the
    change: it is "success" only when the new input is longer than the old
    one, "danger" only when it is shorter, and "secondary" when both have
    the same length. *)
Theorem colour_follows_direction `{HashOrder} (now : string)
    (old_list new_list : list Point) :
  ∃ r, analyze_changes now old_list new_list = Some r
    ∧ (TemplateData.change_color (template_data r) = "success" →
       len old_list < len new_list)
    ∧ (TemplateData.change_color (template_data r) = "danger" →
       len new_list < len old_list)
    ∧ (len new_list = len old_list →
       TemplateData.change_color (template_data r) = "secondary").
Proof.
  destruct (analyze_changes_returns now old_list new_list)
    as (ns & ds & cs & _ & _ & _ & Hr).
  eexists. split; [exact Hr|].
  destruct (change_color_sign _ _ (stats_percentage now (len old_list)
              (len new_list) ns ds cs (len old_list) (len new_list) (len ns)
              (len ds) (len cs) (len (remaining_names old_list new_list) - len cs)
              (change_percentage (len old_list) (len new_list))))
    as (Hsuccess & Hdanger & Hsecondary).
  pose proof (change_percentage_nonneg (len old_list) (len new_list)) as Hup.
  pose proof (change_percentage_nonpos (len old_list) (len new_list)) as Hdown.
  split_and!.
  - intros Hc. apply Z.lt_nge. intros Hlen.
    apply (Qlt_not_le _ _ (Hsuccess Hc)), Hdown, Hlen.
  - intros Hc. apply Z.lt_nge. intros Hlen.
    apply (Qlt_not_le _ _ (Hdanger Hc)), Hup, Hlen.
  - intros Hlen. apply Hsecondary; [apply Hdown|apply Hup]; lia.
Qed.

(** ** What the steps of a run leave alone *)

Lemma keeps_ret {A} (a : A) : keeps_disk (mret a : run A).
Proof. intros w. apply same_disk_refl. Qed.

Lemma keeps_raise {A} (e : exn) : keeps_disk (raise e : run A).
Proof. intros w. apply same_disk_refl. Qed.

Lemma keeps_unmodelled {A} : keeps_disk (unmodelled : run A).
Proof. intros w. apply same_disk_refl. Qed.

Lemma keeps_bind {A B} (m : run A) (f : A → run B) :
  keeps_disk m → (∀ a, keeps_disk (f a)) → keeps_disk (m ≫= f).
Proof.
  intros Hm Hf w. unfold mbind, run_bind. specialize (Hm w).
  destruct (m w) as [[a|e|] w1]; simpl in *; [|done|done].
  eapply same_disk_trans; [exact Hm|apply Hf].
Qed.

Lemma keeps_try {A} (body : run A) (handler : exn → run A) :
  keeps_disk body → (∀ e, keeps_disk (handler e)) →
  keeps_disk (try_except body handler).
Proof.
  intros Hm Hf w. unfold try_except. specialize (Hm w).
  destruct (body w) as [[a|e|] w1]; simpl in *; [done| |done].
  eapply same_disk_trans; [exact Hm|apply Hf].
Qed.

Lemma keeps_print m : keeps_disk (print m).
Proof. intros w. by repeat split. Qed.

Lemma keeps_now : keeps_disk now.
Proof. intros w. by repeat split. Qed.

Lemma keeps_fetch url : keeps_disk (fetch url).
Proof. intros w. unfold fetch. destruct (vendor w url); apply same_disk_refl. Qed.

Lemma keeps_get item k default : keeps_disk (get item k default).
Proof. intros w. destruct item; apply same_disk_refl. Qed.

Lemma keeps_subscript v k : keeps_disk (subscript v k).
Proof.
  intros w. destruct v; try apply same_disk_refl.
  unfold subscript. case_bool_decide; apply same_disk_refl.
Qed.

Lemma keeps_py_iter v : keeps_disk (py_iter v).
Proof. intros w. destruct v; apply same_disk_refl. Qed.

Lemma keeps_mapM {A B} (f : A → run B) (l : list A) :
  (∀ x, keeps_disk (f x)) → keeps_disk (mapM f l).
Proof.
  intros Hf. induction l as [|x l IH]; [intros w; apply same_disk_refl|].
  intros w. rewrite mapM_run_cons. specialize (Hf x w).
  destruct (f x w) as [[y|e|] w1]; simpl in *; [|done|done].
  specialize (IH w1).
  destruct (mapM f l w1) as [[k|e|] w2]; simpl in *;
    eapply same_disk_trans; done.
Qed.

Lemma keeps_load filename : keeps_disk (load_old_shops (Some filename)).
Proof.
  intros w. destruct (load_old_shops_returns filename w) as (shops & lines & ->).
  by repeat split.
Qed.

Lemma keeps_diff `{HashOrder} old_shops new_shops :
  keeps_disk (diff old_shops new_shops).
Proof.
  unfold diff. destruct (mapM to_point old_shops); [|apply keeps_unmodelled].
  destruct (mapM to_point new_shops); [|apply keeps_unmodelled].
  apply keeps_bind; [apply keeps_now|]. intros t.
  destruct (analyze_changes _ _ _); [apply keeps_ret|apply keeps_raise].
Qed.

Lemma keeps_riviera_shop s : keeps_disk (riviera_shop s).
Proof.
  unfold riviera_shop.
  repeat (apply keeps_bind; [first [apply keeps_get|apply keeps_now]|intros ?]).
  apply keeps_ret.
Qed.

Lemma keeps_aviapark_shop s : keeps_disk (aviapark_shop s).
Proof.
  unfold aviapark_shop.
  repeat (apply keeps_bind; [first [apply keeps_get|apply keeps_now]|intros ?]).
  apply keeps_ret.
Qed.

(** ** The three writers in a row *)

Lemma makedirs_done name w w0 :
  makedirs name w = (Done tt, w0) → ∃ ds, w0 = with_dirs ds w ∧ dirs w ⊆ ds.
Proof.
  destruct (makedirs_shape name w) as (ok & ds & -> & Hsub).
  destruct ok; [|done]. intros [= <-]. by exists ds.
Qed.

Lemma makedirs_raised name w e w0 :
  makedirs name w = (Raised e, w0) →
  e = OSError ∧ ∃ ds, w0 = with_dirs ds w ∧ dirs w ⊆ ds.
Proof.
  destruct (makedirs_shape name w) as (ok & ds & -> & Hsub).
  destruct ok; [done|]. intros [= <- <-]. split; [done|]. by exists ds.
Qed.

Lemma makedirs_cases name w :
  (∃ w0, makedirs name w = (Done tt, w0))
  ∨ (∃ w0, makedirs name w = (Raised OSError, w0)).
Proof.
  destruct (makedirs_shape name w) as (ok & ds & -> & _).
  destruct ok; [left|right]; by eexists.
Qed.

Lemma save_new_shops_after shops filename w w0 :
  makedirs (snapshot_dir filename) w = (Done tt, w0) →
  save_new_shops shops filename w = (Done tt, after_save shops filename w0).
Proof. apply save_new_shops_made. Qed.

Lemma after_save_disk shops filename w0 :
  dirs (after_save shops filename w0) = dirs w0
  ∧ denied (after_save shops filename w0) = denied w0
  ∧ target (after_save shops filename w0) = target w0
  ∧ ticks (after_save shops filename w0) = ticks w0
  ∧ clock (after_save shops filename w0) = clock w0
  ∧ files (after_save shops filename w0)
    = if openable w0 filename
      then <[target w0 filename
             := File (JsonText (PList (dyn_asdict <$> shops)))]> (files w0)
      else files w0.
Proof. unfold after_save. by destruct (openable w0 filename). Qed.

Lemma in_reports_latest : in_reports latest_report_file.
Proof. by exists "latest_report.json". Qed.

Lemma in_reports_history t : in_reports (history_report_file t).
Proof. by exists ("report_" +:+ file_stamp t +:+ ".json"). Qed.

Lemma in_reports_html : in_reports latest_html_file.
Proof. by exists "report.html". Qed.

Lemma in_reports_html_history t : in_reports (history_html_file t).
Proof. by exists ("report_" +:+ file_stamp t +:+ ".html"). Qed.

(** Two writes among the reports leave what no path among the reports
    leads to. *)
Lemma reports_frame (tg : string → string) (m m' : gmap string node)
    (first second : string) (n : node) (b1 b2 : bool) (t : string) :
  in_reports first → in_reports second →
  (∀ path, in_reports path → tg path ≠ t) →
  m' = (if b1 then if b2 then <[tg second := n]> (<[tg first := n]> m)
                   else <[tg first := n]> m
        else m) →
  m' !! t = m !! t.
Proof.
  intros Hfirst Hsecond Hapart ->.
  destruct b1; [|done]. destruct b2.
  - rewrite !lookup_insert_ne; [done|by apply Hapart|by apply Hapart].
  - rewrite lookup_insert_ne; [done|by apply Hapart].
Qed.

(** The two report writers once the directory of the reports is there. *)
Lemma reports_written (report : ChangeReport) (w1 w2 : world) :
  makedirs "reports" w1 = (Done tt, w2) →
  ∃ w', (save_report_to_json report;; generate_html_report report;;
         mret (Some report)) w1 = (Done (Some report), w')
    ∧ target w' = target w1 ∧ denied w' = denied w1
    ∧ (∀ t, (∀ path, in_reports path → target w1 path ≠ t) →
         files w' !! t = files w1 !! t).
Proof.
  intros Hmade.
  pose proof (makedirs_reports_made _ _ Hmade) as Hdir.
  destruct (makedirs_done _ _ _ Hmade) as (ds & -> & _).
  destruct (save_report_to_json_made report _ _ Hmade)
    as (wj & Hjson & _ & Hdisk & Hfiles).
  rewrite (bind_returned _ _ _ _ _ Hjson).
  assert (is_dir wj "reports" = true) as Hdirj
    by (by rewrite (is_dir_same_disk _ _ _ Hdisk)).
  destruct (generate_html_report_made report _ _ (makedirs_reports_again _ Hdirj))
    as (w' & Hhtml & Hdisk' & _ & Hfiles').
  rewrite (bind_returned _ _ _ _ _ Hhtml).
  destruct Hdisk as (_ & _ & Hden & Htg). destruct Hdisk' as (_ & _ & Hden' & Htg').
  simpl in *. exists w'. split; [done|].
  split; [congruence|]. split; [congruence|].
  intros t Hapart.
  transitivity (files wj !! t).
  - eapply (reports_frame (target wj));
      [apply in_reports_html|apply in_reports_html_history| |exact Hfiles'].
    intros path Hpath. rewrite Htg. by apply Hapart.
  - eapply (reports_frame (target w1));
      [apply in_reports_latest|apply in_reports_history|exact Hapart|exact Hfiles].
Qed.

(** The writers raise [OSError] or return the report. *)
Lemma writers_end filename new_shop_list report w :
  ∃ w', writers filename new_shop_list report w = (Done (Some report), w')
        ∨ writers filename new_shop_list report w = (Raised OSError, w').
Proof.
  unfold writers.
  destruct (makedirs_cases (snapshot_dir filename) w) as [[w0 Hmade]|[w0 Hmade]].
  - rewrite (bind_returned _ _ _ _ _ (save_new_shops_after new_shop_list _ _ _ Hmade)).
    destruct (makedirs_cases "reports" (after_save new_shop_list filename w0))
      as [[w2 Hmade2]|[w2 Hmade2]].
    + destruct (reports_written report _ _ Hmade2) as (w' & -> & _). eauto.
    + exists w2. right.
      apply bind_raised. unfold save_report_to_json. cbv zeta.
      by apply (bind_raised (makedirs "reports")).
  - exists w0. right. apply bind_raised. by apply save_new_shops_raised.
Qed.

(** The writers when both directories can be made. *)
Lemma writers_made filename new_shop_list report w w0 w2 :
  makedirs (snapshot_dir filename) w = (Done tt, w0) →
  makedirs "reports" (after_save new_shop_list filename w0) = (Done tt, w2) →
  ∃ w', writers filename new_shop_list report w = (Done (Some report), w')
    ∧ target w' = target w
    ∧ (openable w0 filename = true → apart_from_reports w filename →
       files w' !! target w filename
       = Some (File (JsonText (PList (dyn_asdict <$> new_shop_list))))).
Proof.
  intros Hmade Hmade2. unfold writers.
  rewrite (bind_returned _ _ _ _ _ (save_new_shops_after new_shop_list _ _ _ Hmade)).
  destruct (reports_written report _ _ Hmade2) as (w' & -> & Htg & _ & Hframe).
  destruct (after_save_disk new_shop_list filename w0)
    as (_ & _ & Htg1 & _ & _ & Hfiles1).
  destruct (makedirs_done _ _ _ Hmade) as (ds & -> & _). simpl in *.
  exists w'. split; [done|]. split; [congruence|].
  intros Hopen Hapart. rewrite Hframe.
  - rewrite Hfiles1, Hopen. apply lookup_insert_eq.
  - intros path Hpath. rewrite Htg1. by apply Hapart.
Qed.

(** The directory of the reports can be made after the snapshot was
    saved when it could be made before, unless the snapshot took its
    name. *)
Lemma reports_dir_after_save filename new_shop_list w w0 :
  makedirs (snapshot_dir filename) w = (Done tt, w0) →
  (makedirs "reports" w).1 = Done tt →
  target w "reports" ≠ target w filename →
  ∃ w2, makedirs "reports" (after_save new_shop_list filename w0) = (Done tt, w2).
Proof.
  intros Hmade Hreports Hne.
  destruct (after_save_disk new_shop_list filename w0)
    as (Hdirs1 & Hden1 & Htg1 & _ & _ & Hfiles1).
  destruct (makedirs_done _ _ _ Hmade) as (ds & -> & Hsub). simpl in *.
  rewrite makedirs_reports in *. unfold mkdir, exists_at, is_dir in *.
  rewrite Hdirs1, Hden1, Htg1, Hfiles1.
  destruct (bool_decide (target w "reports" ∈ ds)) eqn:Hin; [by eexists|].
  apply bool_decide_eq_false in Hin.
  rewrite (bool_decide_eq_false_2 (target w "reports" ∈ dirs w)) in Hreports
    by set_solver.
  assert ((if openable (with_dirs ds w) filename
           then <[target w filename
                  := File (JsonText (PList (dyn_asdict <$> new_shop_list)))]> (files w)
           else files w) !! target w "reports" = files w !! target w "reports")
    as ->.
  { destruct (openable _ _); [|done]. by rewrite lookup_insert_ne. }
  destruct (bool_decide (is_Some (files w !! target w "reports"))); [done|].
  destruct (denied w (target w "reports")); [done|].
  by eexists.
Qed.

(** ** The two runs *)

Lemma keeps_quiet (m : run (option ChangeReport)) :
  keeps_disk m → quiet_without_report m.
Proof. intros Hm w _. by destruct (Hm w) as (? & ? & _). Qed.

Lemma quiet_bind {A} (m : run A) (f : A → run (option ChangeReport)) :
  keeps_disk m → (∀ a, quiet_without_report (f a)) →
  quiet_without_report (m ≫= f).
Proof.
  intros Hm Hf w. unfold mbind, run_bind. specialize (Hm w).
  destruct (m w) as [[a|e|] w1] eqn:Hrun; simpl in *;
    destruct Hm as (Hfiles & Hdirs & _); [|done|done].
  intros Hno. destruct (Hf a w1 Hno) as [-> ->]. done.
Qed.

Section Runs.
Context `{HashOrder}.

Lemma finish_writers filename old_shops new_shop_list :
  finish filename old_shops new_shop_list
  = (print (ShopsAfter (len new_shop_list));;
     report ← diff old_shops new_shop_list;
     writers filename new_shop_list report).
Proof. reflexivity. Qed.

Lemma quiet_finish filename old_shops new_shop_list :
  quiet_without_report (finish filename old_shops new_shop_list).
Proof.
  rewrite finish_writers. apply quiet_bind; [apply keeps_print|]. intros _.
  apply quiet_bind; [apply keeps_diff|]. intros report w.
  destruct (writers_end filename new_shop_list report w) as [w' [-> | ->]];
    intros [Hno|(e & Hno & Hne)]; try discriminate.
  injection Hno as <-. done.
Qed.

Lemma keeps_fetched url :
  keeps_disk (try_except (data ← fetch url; mret (Some data))
                (λ e, print (RequestError e);; mret None)).
Proof.
  apply keeps_try.
  - apply keeps_bind; [apply keeps_fetch|]. intros data. apply keeps_ret.
  - intros e. apply keeps_bind; [apply keeps_print|]. intros _. apply keeps_ret.
Qed.

Lemma quiet_parse_aviapark filename : quiet_without_report (parse_aviapark filename).
Proof.
  unfold parse_aviapark.
  apply quiet_bind; [apply keeps_load|]. intros old_shops.
  apply quiet_bind; [apply keeps_print|]. intros _.
  apply quiet_bind; [apply keeps_print|]. intros _.
  apply quiet_bind; [apply keeps_fetched|]. intros [data|].
  - apply quiet_bind; [apply keeps_subscript|]. intros departments.
    apply quiet_bind; [apply keeps_py_iter|]. intros items.
    apply quiet_bind; [apply keeps_mapM, keeps_aviapark_shop|].
    intros new_shop_list. apply quiet_finish.
  - apply keeps_quiet, keeps_ret.
Qed.

End Runs.


(** ** A run whose request succeeded *)

Lemma said_said w lines1 lines2 : said (said w lines1) lines2 = said w (lines1 ++ lines2).
Proof. unfold said. simpl. by rewrite app_assoc. Qed.

Section Body.
Context `{HashOrder}.

(** Up to the loop over the vendor's entries a run only loads and prints. *)
Lemma parse_aviapark_body filename w data :
  vendor w aviapark_url = Body data →
  ∃ old_shops lines0 lines,
    load_old_shops (Some filename) w = (Done old_shops, said w lines0)
    ∧ parse_aviapark filename w
      = (departments ← subscript data "departments";
         items ← py_iter departments;
         new_shop_list ← mapM aviapark_shop items;
         finish filename old_shops new_shop_list) (said w lines).
Proof.
  intros Hvendor. unfold parse_aviapark.
  destruct (load_old_shops_returns filename w) as (shops & lines & Hload).
  exists shops, lines, (lines ++ [ShopsBefore (len shops); ParsingStarts]).
  split; [done|].
  unfold mbind at 1, run_bind at 1. rewrite Hload.
  unfold mbind at 1, run_bind at 1. unfold print at 1. cbn [said files console clock ticks vendor].
  unfold mbind at 1, run_bind at 1. unfold print at 1. cbn [said files console clock ticks vendor].
  unfold mbind at 1, run_bind at 1. unfold try_except at 1.
  unfold mbind at 1, run_bind at 1. unfold fetch at 1.
  cbn [said files console clock ticks vendor]. rewrite Hvendor.
  unfold mret at 1, run_ret at 1. unfold said. by rewrite <-!app_assoc.
Qed.

Lemma parse_riviera_body filename w data :
  vendor w riviera_url = Body data →
  ∃ old_shops lines0 lines,
    load_old_shops (Some filename) w = (Done old_shops, said w lines0)
    ∧ parse_riviera filename w
      = (payload ← subscript data "payload";
         tenants ← subscript payload "data";
         items ← py_iter tenants;
         new_shop_list ← mapM riviera_shop items;
         finish filename old_shops new_shop_list) (said w lines).
Proof.
  intros Hvendor. unfold parse_riviera.
  destruct (load_old_shops_returns filename w) as (shops & lines & Hload).
  exists shops, lines, (lines ++ [ShopsBefore (len shops); ParsingStarts]).
  split; [done|].
  unfold mbind at 1, run_bind at 1. rewrite Hload.
  unfold mbind at 1, run_bind at 1. unfold print at 1. cbn [said files console clock ticks vendor].
  unfold mbind at 1, run_bind at 1. unfold print at 1. cbn [said files console clock ticks vendor].
  unfold mbind at 1, run_bind at 1. unfold try_except at 1.
  unfold mbind at 1, run_bind at 1. unfold fetch at 1.
  cbn [said files console clock ticks vendor]. rewrite Hvendor.
  unfold mret at 1, run_ret at 1. unfold said. by rewrite <-!app_assoc.
Qed.
End Body.

Lemma subscript_missing members k w :
  k ∉ members.*1 → subscript (PDict members) k w = (Raised KeyError, w).
Proof. intros Hk. unfold subscript. by rewrite bool_decide_eq_false_2. Qed.

Lemma subscript_found members k w :
  k ∈ members.*1 →
  subscript (PDict members) k w = (Done (members_get members k PNone), w).
Proof. intros Hk. unfold subscript. by rewrite bool_decide_eq_true_2. Qed.

Lemma members_get_found members k default :
  members_get members k default ≠ default → k ∈ members.*1.
Proof.
  intros Hget. destruct (decide (k ∈ members.*1)) as [|Hk]; [done|].
  destruct Hget. by apply members_get_missing.
Qed.

(** X14. A response without the member a run reads is not caught the way a
    failed request is: [KeyError] leaves the run, after the load and before
    anything was written. *)
Theorem response_without_member_raises `{HashOrder} (filename : string)
    (w : world) (members : list (string * pyval)) :
  (vendor w aviapark_url = Body (PDict members) → "departments" ∉ members.*1 →
   ∃ w', parse_aviapark filename w = (Raised KeyError, w') ∧ files w' = files w)
  ∧ (vendor w riviera_url = Body (PDict members) → "payload" ∉ members.*1 →
     ∃ w', parse_riviera filename w = (Raised KeyError, w') ∧ files w' = files w)
  ∧ (∀ payload, vendor w riviera_url = Body (PDict members) →
       members_get members "payload" PNone = PDict payload →
       "data" ∉ payload.*1 →
       ∃ w', parse_riviera filename w = (Raised KeyError, w') ∧ files w' = files w).
Proof.
  split_and!.
  - intros Hvendor Hmissing.
    destruct (parse_aviapark_body filename w _ Hvendor)
      as (old_shops & lines0 & lines & _ & Hrun).
    rewrite Hrun. unfold mbind at 1, run_bind at 1.
    rewrite subscript_missing by done. by eexists.
  - intros Hvendor Hmissing.
    destruct (parse_riviera_body filename w _ Hvendor)
      as (old_shops & lines0 & lines & _ & Hrun).
    rewrite Hrun. unfold mbind at 1, run_bind at 1.
    rewrite subscript_missing by done. by eexists.
  - intros payload Hvendor Hpayload Hmissing.
    destruct (parse_riviera_body filename w _ Hvendor)
      as (old_shops & lines0 & lines & _ & Hrun).
    rewrite Hrun. unfold mbind at 1, run_bind at 1.
    rewrite subscript_found, Hpayload
      by (apply (members_get_found _ _ PNone); by rewrite Hpayload).
    unfold mbind at 1, run_bind at 1.
    rewrite subscript_missing by done. by eexists.
Qed.

Lemma response_without_member_raises_witness :
  (∃ w', @parse_aviapark insertion_order "data/aviapark.json" empty_reply_world
         = (Raised KeyError, w') ∧ files w' = files empty_reply_world)
  ∧ (∃ w', @parse_riviera insertion_order "data/riviera.json" empty_reply_world
           = (Raised KeyError, w') ∧ files w' = files empty_reply_world).
Proof.
  destruct (@response_without_member_raises insertion_order "data/aviapark.json"
              empty_reply_world []) as (Haviapark & _ & _).
  destruct (@response_without_member_raises insertion_order "data/riviera.json"
              empty_reply_world []) as (_ & Hriviera & _).
  split; [apply Haviapark|apply Hriviera]; first [reflexivity | apply not_elem_of_nil].
Defined.

(** The loop over the vendor's entries stops at the first entry that has
    no [get]. *)
Lemma loop_stops_at_other (f : pyval → run DynPoint) items s w :
  (∀ members w, ∃ shop w', f (PDict members) w = (Done shop, w')) →
  (∀ s w, (∀ members, s ≠ PDict members) → f s w = (Raised AttributeError, w)) →
  s ∈ items → (∀ members, s ≠ PDict members) →
  ∃ w', mapM f items w = (Raised AttributeError, w').
Proof.
  intros Hobject Hother Hs Hno. revert w.
  induction items as [|item items IH]; intros w; [by apply elem_of_nil in Hs|].
  rewrite mapM_run_cons.
  destruct item as [| | | | |?|members];
    try (rewrite Hother by done; by eexists).
  destruct (Hobject members w) as (shop & w1 & ->).
  apply elem_of_cons in Hs as [->|Hs]; [by destruct (Hno members)|].
  destruct (IH Hs w1) as [w2 ->]. by eexists.
Qed.

Lemma aviapark_shop_object members w :
  ∃ shop w', aviapark_shop (PDict members) w = (Done shop, w').
Proof. by do 2 eexists. Qed.

Lemma aviapark_shop_other s w :
  (∀ members, s ≠ PDict members) → aviapark_shop s w = (Raised AttributeError, w).
Proof. intros Hno. destruct s; try done. by destruct (Hno members). Qed.

Lemma riviera_shop_object members w :
  ∃ shop w', riviera_shop (PDict members) w = (Done shop, w').
Proof. by do 2 eexists. Qed.

Lemma riviera_shop_other s w :
  (∀ members, s ≠ PDict members) → riviera_shop s w = (Raised AttributeError, w).
Proof. intros Hno. destruct s; try done. by destruct (Hno members). Qed.

(** X15. One listed entry that is not an object ends the run of Aviapark
    with [AttributeError], whatever the entries before it were, and nothing
    was written. *)
Theorem entry_without_get_raises `{HashOrder} (filename : string) (w : world)
    (members : list (string * pyval)) (items : list pyval) (s : pyval) :
  vendor w aviapark_url = Body (PDict members) →
  members_get members "departments" PNone = PList items →
  s ∈ items → (∀ fields, s ≠ PDict fields) →
  ∃ w', parse_aviapark filename w = (Raised AttributeError, w')
    ∧ files w' = files w.
Proof.
  intros Hvendor Hlist Hs Hno.
  destruct (parse_aviapark_body filename w _ Hvendor)
    as (old_shops & lines0 & lines & _ & Hrun).
  destruct (loop_stops_at_other aviapark_shop items s (said w lines)
              aviapark_shop_object aviapark_shop_other Hs Hno) as [w' Hloop].
  assert (parse_aviapark filename w = (Raised AttributeError, w')) as Hraised.
  { rewrite Hrun. unfold mbind at 1, run_bind at 1.
    rewrite subscript_found, Hlist
      by (apply (members_get_found _ _ PNone); by rewrite Hlist).
    unfold mbind at 1, run_bind at 1. cbn [py_iter mret run_ret].
    unfold mbind at 1, run_bind at 1. by rewrite Hloop. }
  exists w'. split; [done|].
  pose proof (quiet_parse_aviapark filename w) as Hquiet.
  rewrite Hraised in Hquiet. apply Hquiet. right. by exists AttributeError.
Qed.

Lemma entry_without_get_raises_witness :
  ∃ w', @parse_aviapark insertion_order "data/aviapark.json" names_only_world
        = (Raised AttributeError, w')
    ∧ files w' = files names_only_world.
Proof.
  apply (@entry_without_get_raises insertion_order "data/aviapark.json"
           names_only_world [("departments", PList [PStr "Shop A"])]
           [PStr "Shop A"] (PStr "Shop A")).
  - reflexivity.
  - reflexivity.
  - apply list_elem_of_singleton. reflexivity.
  - intros fields. discriminate.
Defined.

(** ** A run that returns a report *)

Lemma as_str_Some v s : as_str v = Some s → v = PStr s.
Proof. destruct v; try done. by intros [= ->]. Qed.

Lemma as_str_list_Some v l : as_str_list v = Some l → v = PList (PStr <$> l).
Proof.
  destruct v as [| | | | |items|]; try done. simpl. intros Hitems. f_equal.
  apply mapM_Some_1 in Hitems.
  induction Hitems as [|item s items l Hitem _ IH]; [done|].
  csimpl. by rewrite (as_str_Some _ _ Hitem), IH.
Qed.

Lemma to_point_Some shop p : to_point shop = Some p → shop = of_point p.
Proof.
  destruct shop as [i n pc ac d s]. unfold to_point. simpl.
  destruct (as_str i) eqn:Hi; [|done].
  destruct (as_str n) eqn:Hn; [|done].
  destruct (as_str_list pc) eqn:Hpc; [|done].
  destruct (as_str_list ac) eqn:Hac; [|done].
  destruct (as_str d) eqn:Hd; [|done].
  destruct (as_str s) eqn:Hs; [|done].
  simpl. intros [= <-]. unfold of_point. simpl.
  by rewrite (as_str_Some _ _ Hi), (as_str_Some _ _ Hn), (as_str_Some _ _ Hd),
    (as_str_Some _ _ Hs), (as_str_list_Some _ _ Hpc), (as_str_list_Some _ _ Hac).
Qed.

Lemma to_points_Some shops ps : mapM to_point shops = Some ps → shops = of_point <$> ps.
Proof.
  intros Hps. apply mapM_Some_1 in Hps.
  induction Hps as [|shop p shops ps Hshop _ IH]; [done|].
  csimpl. by rewrite (to_point_Some _ _ Hshop), IH.
Qed.

Lemma to_points_of_points ps : mapM to_point (of_point <$> ps) = Some ps.
Proof.
  apply mapM_Some_2, Forall2_fmap_l, Forall_Forall2_diag, Forall_forall.
  intros p _. apply to_point_of_point.
Qed.

Lemma bind_done {A B} (m : run A) (f : A → run B) w b w' :
  (m ≫= f) w = (Done b, w') →
  ∃ a w1, m w = (Done a, w1) ∧ f a w1 = (Done b, w').
Proof.
  unfold mbind, run_bind. destruct (m w) as [[a|e|] w1]; [|done|done].
  intros Hf. by exists a, w1.
Qed.

(** The writers, seen from a world with the same file system. *)
Lemma writers_forward filename new_shop_list report w w0 w4 :
  same_disk w w4 →
  makedirs (snapshot_dir filename) w = (Done tt, w0) →
  (makedirs "reports" w).1 = Done tt →
  target w "reports" ≠ target w filename →
  ∃ w', writers filename new_shop_list report w4 = (Done (Some report), w')
    ∧ target w' = target w
    ∧ (openable w0 filename = true → apart_from_reports w filename →
       files w' !! target w filename
       = Some (File (JsonText (PList (dyn_asdict <$> new_shop_list))))).
Proof.
  intros Hsame Hmade Hreports Hne.
  destruct (makedirs_pair (snapshot_dir filename) w w4 Hsame)
    as (ok & ds & Hw & Hw4 & _).
  rewrite Hw in Hmade. destruct ok; [|done]. injection Hmade as <-.
  destruct (makedirs_pair "reports" w w4 Hsame) as (ok & ds' & Hr & Hr4 & _).
  rewrite Hr in Hreports. destruct ok; [|done].
  pose proof Hsame as (Hfiles & Hdirs & Hden & Htg).
  destruct (reports_dir_after_save filename new_shop_list w4 _ Hw4) as [w2 Hmade2].
  { by rewrite Hr4. }
  { by rewrite Htg. }
  destruct (writers_made filename new_shop_list report _ _ _ Hw4 Hmade2)
    as (w' & Hrun & Htg' & Hfile).
  exists w'. split; [exact Hrun|]. split; [congruence|].
  intros Hopen Hapart. rewrite <-Htg. apply Hfile.
  - by rewrite (openable_same_disk _ _ _ (same_disk_with_dirs ds _ _ Hsame)).
  - intros path Hpath. rewrite Htg. by apply Hapart.
Qed.

Lemma writers_done filename new_shop_list report w w4 r w' :
  same_disk w w4 →
  writers filename new_shop_list report w4 = (Done r, w') →
  r = Some report
  ∧ ∃ w0, makedirs (snapshot_dir filename) w = (Done tt, w0)
      ∧ target w' = target w
      ∧ (openable w0 filename = true → apart_from_reports w filename →
         files w' !! target w filename
         = Some (File (JsonText (PList (dyn_asdict <$> new_shop_list))))).
Proof.
  intros Hsame Hrun.
  pose proof Hsame as (Hfiles & Hdirs & Hden & Htg).
  destruct (makedirs_pair (snapshot_dir filename) w w4 Hsame)
    as (ok & ds & Hw & Hw4 & _).
  destruct ok; cbn [ended] in *.
  - destruct (makedirs_cases "reports" (after_save new_shop_list filename (with_dirs ds w4)))
      as [[w2 Hmade2]|[w2 Hmade2]].
    + destruct (writers_made filename new_shop_list report _ _ _ Hw4 Hmade2)
        as (w'' & Hrun' & Htg' & Hfile).
      rewrite Hrun in Hrun'. injection Hrun' as -> <-. split; [done|].
      exists (with_dirs ds w). split; [exact Hw|]. split; [congruence|].
      intros Hopen Hapart. rewrite <-Htg. apply Hfile.
      * by rewrite (openable_same_disk _ _ _ (same_disk_with_dirs ds _ _ Hsame)).
      * intros path Hpath. rewrite Htg. by apply Hapart.
    + unfold writers in Hrun.
      rewrite (bind_returned _ _ _ _ _
                 (save_new_shops_after new_shop_list _ _ _ Hw4)) in Hrun.
      rewrite (bind_raised _ _ _ OSError w2) in Hrun; [done|].
      unfold save_report_to_json. cbv zeta.
      by apply (bind_raised (makedirs "reports")).
  - unfold writers in Hrun.
    rewrite (bind_raised _ _ _ OSError (with_dirs ds w4)) in Hrun; [done|].
    by apply save_new_shops_raised.
Qed.

Section Report.
Context `{HashOrder}.

Lemma diff_typed old_shops new_shops old_list new_list w :
  mapM to_point old_shops = Some old_list →
  mapM to_point new_shops = Some new_list →
  ∃ r, diff old_shops new_shops w = (Done r, ticked w)
    ∧ analyze_changes (stamp (clock w (ticks w))) old_list new_list = Some r.
Proof.
  intros Hold Hnew. unfold diff. rewrite Hold, Hnew.
  unfold mbind, run_bind, now.
  destruct (analyze_changes_returns (stamp (clock w (ticks w))) old_list new_list)
    as (ns & ds & cs & _ & _ & _ & Hr).
  rewrite Hr. by eexists.
Qed.

Lemma diff_done old_shops new_shops w r w' :
  diff old_shops new_shops w = (Done r, w') →
  ∃ old_list new_list,
    mapM to_point old_shops = Some old_list
    ∧ mapM to_point new_shops = Some new_list
    ∧ analyze_changes (stamp (clock w (ticks w))) old_list new_list = Some r
    ∧ w' = ticked w.
Proof.
  destruct (mapM to_point old_shops) as [old_list|] eqn:Hold;
    [|unfold diff; by rewrite Hold].
  destruct (mapM to_point new_shops) as [new_list|] eqn:Hnew;
    [|unfold diff; by rewrite Hold, Hnew].
  destruct (diff_typed _ _ _ _ w Hold Hnew) as (r' & -> & Hr).
  intros [= <- <-]. by exists old_list, new_list.
Qed.

(** The tail of a run on shops of the annotated types, for a world with
    the file system of [w]. *)
Lemma finish_typed filename old_shops new_shops old_list new_list w w0 w3 :
  same_disk w w3 →
  mapM to_point old_shops = Some old_list →
  mapM to_point new_shops = Some new_list →
  makedirs (snapshot_dir filename) w = (Done tt, w0) →
  (makedirs "reports" w).1 = Done tt →
  target w "reports" ≠ target w filename →
  ∃ r w', finish filename old_shops new_shops w3 = (Done (Some r), w')
    ∧ analyze_changes (stamp (clock w3 (ticks w3))) old_list new_list = Some r
    ∧ target w' = target w
    ∧ (openable w0 filename = true → apart_from_reports w filename →
       files w' !! target w filename
       = Some (File (JsonText (PList (dyn_asdict <$> new_shops))))).
Proof.
  intros Hsame Hold Hnew Hmade Hreports Hne. rewrite finish_writers.
  rewrite (bind_returned _ _ _ _ _ (print_said _ _)).
  destruct (diff_typed _ _ _ _ (said w3 [ShopsAfter (len new_shops)]) Hold Hnew)
    as (r & Hdiff & Hr).
  rewrite (bind_returned _ _ _ _ _ Hdiff).
  destruct (writers_forward filename new_shops r w w0
              (ticked (said w3 [ShopsAfter (len new_shops)])))
    as (w' & Hrun & Hrest); [|done|done|done|].
  { destruct Hsame as (? & ? & ? & ?). by repeat split. }
  by exists r, w'.
Qed.

Lemma finish_done filename old_shops new_shops w w3 r w' :
  same_disk w w3 →
  finish filename old_shops new_shops w3 = (Done (Some r), w') →
  ∃ old_list new_list w0,
    old_shops = of_point <$> old_list ∧ new_shops = of_point <$> new_list
    ∧ analyze_changes (stamp (clock w3 (ticks w3))) old_list new_list = Some r
    ∧ makedirs (snapshot_dir filename) w = (Done tt, w0)
    ∧ target w' = target w
    ∧ (openable w0 filename = true → apart_from_reports w filename →
       files w' !! target w filename
       = Some (File (JsonText (PList (asdict <$> new_list))))).
Proof.
  intros Hsame Hrun. rewrite finish_writers in Hrun.
  rewrite (bind_returned _ _ _ _ _ (print_said _ _)) in Hrun.
  apply bind_done in Hrun as (r0 & w4 & Hdiff & Hrun).
  apply diff_done in Hdiff as (old_list & new_list & Hold & Hnew & Hr & ->).
  apply (writers_done _ _ _ w) in Hrun as (Heq & w0 & Hmade & Htg & Hfile).
  2: { destruct Hsame as (? & ? & ? & ?). by repeat split. }
  injection Heq as ->.
  exists old_list, new_list, w0.
  rewrite (to_points_Some _ _ Hold), (to_points_Some _ _ Hnew) in *.
  split_and!; try done. intros Hopen Hapart. rewrite (Hfile Hopen Hapart).
  by rewrite <-list_fmap_compose.
Qed.

(** A report the tail returned, seen from the start of the run. *)
Lemma finish_advances filename w old_shops lines0 new_shops w3 r w' :
  load_old_shops (Some filename) w = (Done old_shops, said w lines0) →
  same_disk w w3 →
  finish filename old_shops new_shops w3 = (Done (Some r), w') →
  openable (makedirs (snapshot_dir filename) w).2 filename = true →
  apart_from_reports w filename →
  snapshot_advanced filename w r w'.
Proof.
  intros Hload Hsame Hrun Hopen Hapart.
  apply (finish_done _ _ _ w) in Hrun
    as (old_list & new_list & w0 & -> & -> & Hr & Hmade & Htg & Hfile); [|done].
  rewrite Hmade in Hopen. specialize (Hfile Hopen Hapart).
  exists old_list, new_list, (stamp (clock w3 (ticks w3))).
  rewrite Htg. split_and!; try done.
  - by rewrite Hload.
  - rewrite (load_saved filename (of_point <$> new_list)); [done|].
    rewrite Htg, Hfile. by rewrite <-list_fmap_compose.
Qed.

(** A run that returned a report went through the loop and the tail. *)
Lemma parse_aviapark_done filename w r w' :
  parse_aviapark filename w = (Done (Some r), w') →
  ∃ old_shops lines0 items new_shops w2 w3,
    load_old_shops (Some filename) w = (Done old_shops, said w lines0)
    ∧ same_disk w w2
    ∧ mapM aviapark_shop items w2 = (Done new_shops, w3)
    ∧ finish filename old_shops new_shops w3 = (Done (Some r), w').
Proof.
  destruct (vendor w aviapark_url) as [|data] eqn:Hvendor.
  { destruct (parse_aviapark_fetch_error filename w Hvendor) as [lines ->]. done. }
  destruct (parse_aviapark_body filename w _ Hvendor)
    as (old_shops & lines0 & lines & Hload & ->).
  intros Hrun.
  apply bind_done in Hrun as (departments & w1 & Hstep1 & Hrun).
  pose proof (keeps_subscript data "departments" (said w lines)) as Hw1.
  rewrite Hstep1 in Hw1. simpl in Hw1.
  apply bind_done in Hrun as (items & w2 & Hstep2 & Hrun).
  pose proof (keeps_py_iter departments w1) as Hw2. rewrite Hstep2 in Hw2.
  apply bind_done in Hrun as (new_shops & w3 & Hstep3 & Hrun).
  exists old_shops, lines0, items, new_shops, w2, w3.
  split_and!; try done. simpl in *.
  eapply same_disk_trans; [|exact Hw2]. eapply same_disk_trans; [|exact Hw1].
  by repeat split.
Qed.

Lemma parse_riviera_done filename w r w' :
  parse_riviera filename w = (Done (Some r), w') →
  ∃ old_shops lines0 items new_shops w2 w3,
    load_old_shops (Some filename) w = (Done old_shops, said w lines0)
    ∧ same_disk w w2
    ∧ mapM riviera_shop items w2 = (Done new_shops, w3)
    ∧ finish filename old_shops new_shops w3 = (Done (Some r), w').
Proof.
  destruct (vendor w riviera_url) as [|data] eqn:Hvendor.
  { destruct (parse_riviera_fetch_error filename w Hvendor) as [lines ->]. done. }
  destruct (parse_riviera_body filename w _ Hvendor)
    as (old_shops & lines0 & lines & Hload & ->).
  intros Hrun.
  apply bind_done in Hrun as (payload & w0 & Hstep0 & Hrun).
  pose proof (keeps_subscript data "payload" (said w lines)) as Hw0.
  rewrite Hstep0 in Hw0.
  apply bind_done in Hrun as (tenants & w1 & Hstep1 & Hrun).
  pose proof (keeps_subscript payload "data" w0) as Hw1.
  rewrite Hstep1 in Hw1.
  apply bind_done in Hrun as (items & w2 & Hstep2 & Hrun).
  pose proof (keeps_py_iter tenants w1) as Hw2. rewrite Hstep2 in Hw2.
  apply bind_done in Hrun as (new_shops & w3 & Hstep3 & Hrun).
  exists old_shops, lines0, items, new_shops, w2, w3.
  split_and!; try done. simpl in *.
  eapply same_disk_trans; [|exact Hw2]. eapply same_disk_trans; [|exact Hw1].
  eapply same_disk_trans; [|exact Hw0]. by repeat split.
Qed.
End Report.

(** X16. A run on shops of the annotated types that returns a report has
    moved the snapshot one step: the report is the diff between the shops
    the file held at the start and the shops it holds at the end, and
    those are what the next run loads.  This needs a snapshot that could
    be written (its directory made, the file opened) and that no path
    among the reports leads to. *)
Theorem report_compares_consecutive_snapshots `{HashOrder} (filename : string)
    (w : world) (r : ChangeReport) :
  openable (makedirs (snapshot_dir filename) w).2 filename = true →
  apart_from_reports w filename →
  ((parse_aviapark filename w).1 = Done (Some r) →
   snapshot_advanced filename w r (parse_aviapark filename w).2)
  ∧ ((parse_riviera filename w).1 = Done (Some r) →
     snapshot_advanced filename w r (parse_riviera filename w).2).
Proof.
  intros Hopen Hapart. split.
  - destruct (parse_aviapark filename w) as [o w'] eqn:Hrun. simpl. intros ->.
    apply parse_aviapark_done in Hrun
      as (old_shops & lines0 & items & new_shops & w2 & w3 & Hload & Hw2 & Hloop & Hrun).
    pose proof (keeps_mapM aviapark_shop items keeps_aviapark_shop w2) as Hw3.
    rewrite Hloop in Hw3. simpl in Hw3.
    apply (finish_advances filename w old_shops lines0 new_shops w3); try done.
    by eapply same_disk_trans.
  - destruct (parse_riviera filename w) as [o w'] eqn:Hrun. simpl. intros ->.
    apply parse_riviera_done in Hrun
      as (old_shops & lines0 & items & new_shops & w2 & w3 & Hload & Hw2 & Hloop & Hrun).
    pose proof (keeps_mapM riviera_shop items keeps_riviera_shop w2) as Hw3.
    rewrite Hloop in Hw3. simpl in Hw3.
    apply (finish_advances filename w old_shops lines0 new_shops w3); try done.
    by eapply same_disk_trans.
Qed.

Lemma report_compares_consecutive_snapshots_witness :
  ∃ r, (@parse_aviapark insertion_order "data/aviapark.json" online_world).1
       = Done (Some r)
    ∧ @snapshot_advanced insertion_order "data/aviapark.json" online_world r
        (@parse_aviapark insertion_order "data/aviapark.json" online_world).2.
Proof.
  eexists. split; [vm_compute; reflexivity|].
  apply (@report_compares_consecutive_snapshots insertion_order
           "data/aviapark.json" online_world).
  - vm_compute. reflexivity.
  - intros path [tail ->]. simpl. discriminate.
  - vm_compute. reflexivity.
Defined.

(** ** A vendor that lists nothing *)

Section Nothing.
Context `{HashOrder}.

Lemma nothing_listed now old_list :
  ∃ r, analyze_changes now old_list [] = Some r
    ∧ total_before r = len old_list ∧ total_after r = 0
    ∧ new_shops r = [] ∧ changed_shops r = []
    ∧ disappeared_shops r ≡ₚ deduplicated old_list.
Proof.
  destruct (analyze_changes_returns now old_list [])
    as (ns & ds & cs & Hns & Hds & Hcs & ->).
  eexists. split; [done|]. simpl.
  rewrite (elem_of_nil_inv (appeared_names old_list [])) in Hns.
  2: { intros k. rewrite elem_of_appeared. unfold key_set. simpl. set_solver. }
  rewrite (elem_of_nil_inv (remaining_names old_list [])) in Hcs.
  2: { intros k. rewrite elem_of_remaining. unfold key_set. simpl. set_solver. }
  injection Hns as <-. injection Hcs as <-. split_and!; try done.
  rewrite (only_in_one_side old_list [] ds Hds).
  rewrite (filter_keep_all (λ p, key p ∉ key_set [])); [done|].
  intros p. unfold key_set. simpl. set_solver.
Qed.
End Nothing.

(** X17. A response that lists no department is taken at its word.  On
    stored shops of the annotated types, and when both directories can be
    made, the run of Aviapark returns a report in which every stored
    shop, once per normalized name, has disappeared and nothing is new or
    changed; and it replaces the snapshot, if that can be opened and no
    path among the reports leads to it, by the empty list. *)
Theorem empty_listing_empties_the_snapshot `{HashOrder} (filename : string)
    (w w0 : world) (members : list (string * pyval)) (old_list : list Point) :
  vendor w aviapark_url = Body (PDict members) →
  members_get members "departments" PNone = PList [] →
  (load_old_shops (Some filename) w).1 = Done (of_point <$> old_list) →
  makedirs (snapshot_dir filename) w = (Done tt, w0) →
  (makedirs "reports" w).1 = Done tt →
  target w "reports" ≠ target w filename →
  ∃ r w', parse_aviapark filename w = (Done (Some r), w')
    ∧ total_before r = len old_list ∧ total_after r = 0
    ∧ new_shops r = [] ∧ changed_shops r = []
    ∧ disappeared_shops r ≡ₚ deduplicated old_list
    ∧ (openable w0 filename = true → apart_from_reports w filename →
       files w' !! target w filename = Some (File (JsonText (PList [])))).
Proof.
  intros Hvendor Hlist Hload Hmade Hreports Hne.
  destruct (parse_aviapark_body filename w _ Hvendor)
    as (old_shops & lines0 & lines & Hold & ->).
  rewrite Hold in Hload. injection Hload as ->.
  unfold mbind at 1, run_bind at 1.
  rewrite subscript_found, Hlist
    by (apply (members_get_found _ _ PNone); by rewrite Hlist).
  unfold mbind at 1, run_bind at 1. cbn [py_iter mret run_ret].
  unfold mbind at 1, run_bind at 1. cbn [mapM mret run_ret].
  destruct (finish_typed filename (of_point <$> old_list) [] old_list []
              w w0 (said w lines)) as (r & w' & -> & Hr & _ & Hfile); try done.
  { apply to_points_of_points. }
  destruct (nothing_listed (stamp (clock (said w lines) (ticks (said w lines))))
              old_list) as (r' & Hr' & Hfacts).
  rewrite Hr in Hr'. injection Hr' as <-.
  exists r, w'. destruct Hfacts as (? & ? & ? & ? & ?). split_and!; done.
Qed.

Lemma empty_listing_empties_the_snapshot_witness :
  ∃ r w', @parse_aviapark insertion_order "data/aviapark.json" closed_mall_world
          = (Done (Some r), w')
    ∧ total_before r = len [shop_a_old; shop_b] ∧ total_after r = 0
    ∧ new_shops r = [] ∧ changed_shops r = []
    ∧ disappeared_shops r ≡ₚ deduplicated [shop_a_old; shop_b]
    ∧ (openable closed_mall_world "data/aviapark.json" = true →
       apart_from_reports closed_mall_world "data/aviapark.json" →
       files w' !! target closed_mall_world "data/aviapark.json"
       = Some (File (JsonText (PList [])))).
Proof.
  apply (@empty_listing_empties_the_snapshot insertion_order "data/aviapark.json"
           closed_mall_world closed_mall_world
           [("departments", PList [])] [shop_a_old; shop_b]).
  - reflexivity.
  - reflexivity.
  - vm_compute. reflexivity.
  - vm_compute. reflexivity.
  - vm_compute. reflexivity.
  - discriminate.
Defined.

(** ** Inputs that agree on what is tracked *)

(** Two dicts filled side by side from shops with the same keys hold, under
    every key, shops that were filled in together. *)
Lemma filled_together (R : Point → Point → Prop) (old_list new_list : list Point) :
  Forall2 (λ o n, key o = key n ∧ R o n) old_list new_list →
  ∀ d d',
    (∀ k o n, dict_get d k = Some o → dict_get d' k = Some n → R o n) →
    ∀ k o n,
      dict_get (foldl (λ d shop, dict_set d (key shop) shop) d old_list) k = Some o →
      dict_get (foldl (λ d shop, dict_set d (key shop) shop) d' new_list) k = Some n →
      R o n.
Proof.
  induction 1 as [|o1 n1 old_list new_list [Hkey HR] _ IH]; intros d d' Hd; [done|].
  simpl. apply IH. intros k o n. rewrite <-Hkey.
  destruct (decide (key o1 = k)) as [<-|Hne].
  - rewrite !dict_get_set_eq. by intros [= <-] [= <-].
  - rewrite !dict_get_set_ne by done. apply Hd.
Qed.

Lemma same_keys_same_set (old_list new_list : list Point) :
  Forall2 (λ o n, key o = key n) old_list new_list →
  key_set old_list = key_set new_list.
Proof.
  intros Hkeys. unfold key_set. f_equal.
  induction Hkeys as [|o n old_list new_list Hkey _ IH]; [done|].
  csimpl. by rewrite Hkey, IH.
Qed.

(** X18. Only the tracked fields count: when the two inputs list, position
    by position, shops with the same normalized name, id, status and set of
    categories, the report is empty, whatever the names' case, the order of
    the categories, the assigned categories and the parsing dates are. *)
Theorem untracked_differences_report_nothing `{HashOrder} (now : string)
    (old_list new_list : list Point) :
  Forall2 (λ o n, key o = key n ∧ ¬ tracked_differ o n) old_list new_list →
  ∃ r, analyze_changes now old_list new_list = Some r
    ∧ new_shops r = [] ∧ disappeared_shops r = [] ∧ changed_shops r = []
    ∧ Stats.unchanged_count (stats r) = len (deduplicated old_list)
    ∧ Stats.change_percentage (stats r) = 0%Q.
Proof.
  intros Hsame.
  assert (key_set old_list = key_set new_list) as Hkeys.
  { apply same_keys_same_set. eapply Forall2_impl; [exact Hsame|]. by intros o n [? _]. }
  destruct (analyze_changes_returns now old_list new_list)
    as (ns & ds & cs & Hns & Hds & Hcs & ->).
  assert (appeared_names old_list new_list = []) as Happ.
  { apply elem_of_nil_inv. intros k. rewrite elem_of_appeared, Hkeys. tauto. }
  assert (disappeared_names old_list new_list = []) as Hdis.
  { apply elem_of_nil_inv. intros k. rewrite elem_of_disappeared, Hkeys. tauto. }
  rewrite Happ in Hns. rewrite Hdis in Hds. injection Hns as <-. injection Hds as <-.
  rewrite changed_loop_quiet in Hcs.
  - injection Hcs as <-. eexists. split; [done|]. simpl. split_and!; try done.
    + unfold len, deduplicated, dict_values. rewrite length_remaining, length_fmap.
      rewrite length_key_set. simpl. f_equal.
      replace (key_set old_list ∩ key_set new_list) with (key_set old_list)
        by set_solver.
      lia.
    + rewrite (change_percentage_multiple _ _ 0); [done| |done].
      unfold len. rewrite (Forall2_length _ _ _ Hsame). lia.
  - intros k o n _ Ho Hn.
    apply not_true_is_false. rewrite nonempty_detect_changes.
    by apply (filled_together (λ o n, ¬ tracked_differ o n) old_list new_list
                Hsame [] [] ltac:(done) k o n).
  - intros k Hk. apply elem_of_set_intersection in Hk as [Ho Hn].
    split; by apply names_keys.
Qed.

Lemma untracked_differences_report_nothing_witness :
  ∃ r, @analyze_changes insertion_order "2025-01-02 00:00:00" [shop_a_old; shop_b]
         [mkPoint "1" " SHOP A" ["food"; "food"] ["snacks"] "2025-01-02 00:00:00" "opened";
          mkPoint "2" "shop b  " [] [] "2025-01-02 00:00:00" "opened"] = Some r
    ∧ new_shops r = [] ∧ disappeared_shops r = [] ∧ changed_shops r = []
    ∧ Stats.unchanged_count (stats r) = len (deduplicated [shop_a_old; shop_b])
    ∧ Stats.change_percentage (stats r) = 0%Q.
Proof.
  apply (@untracked_differences_report_nothing insertion_order).
  repeat constructor; try (vm_compute; reflexivity);
    (intros [Hid|[Hstatus|Hcategories]];
     [by apply Hid | by apply Hstatus
     |apply Hcategories; vm_compute; reflexivity]).
Defined.

(** ** From the listing to the snapshot *)

Lemma aviapark_shop_fields fields w :
  aviapark_shop (PDict fields) w
  = (Done (listed_shop (clock w) (ticks w) fields), ticked w).
Proof. reflexivity. Qed.

Lemma aviapark_loop_objects records w :
  mapM aviapark_shop (PDict <$> records) w
  = (Done (imap (λ i, listed_shop (clock w) (ticks w + i)) records),
     advanced w (length records)).
Proof.
  revert w. induction records as [|fields records IH]; intros w.
  - destruct w. unfold advanced. simpl. by rewrite Nat.add_0_r.
  - rewrite fmap_cons, mapM_run_cons, aviapark_shop_fields, IH. f_equal.
    + f_equal. simpl. rewrite Nat.add_0_r. f_equal.
      apply imap_ext. intros i fields' _. simpl. f_equal. lia.
    + unfold advanced, ticked. simpl. f_equal. lia.
Qed.

(** The run of Aviapark on a listing of objects, up to the tail. *)
Lemma parse_aviapark_listing `{HashOrder} filename w members records old_list :
  vendor w aviapark_url = Body (PDict members) →
  members_get members "departments" PNone = PList (PDict <$> records) →
  (load_old_shops (Some filename) w).1 = Done (of_point <$> old_list) →
  ∃ lines,
    parse_aviapark filename w
    = finish filename (of_point <$> old_list)
        (imap (λ i, listed_shop (clock w) (ticks w + i)) records)
        (advanced (said w lines) (length records)).
Proof.
  intros Hvendor Hlist Hload.
  destruct (parse_aviapark_body filename w _ Hvendor)
    as (old_shops & lines0 & lines & Hold & ->).
  rewrite Hold in Hload. injection Hload as ->. exists lines.
  unfold mbind at 1, run_bind at 1.
  rewrite subscript_found, Hlist
    by (apply (members_get_found _ _ PNone); by rewrite Hlist).
  unfold mbind at 1, run_bind at 1. cbn [py_iter mret run_ret].
  unfold mbind at 1, run_bind at 1.
  by rewrite aviapark_loop_objects.
Qed.

(** X20. A listing of objects is diffed against the snapshot: when the
    stored shops and the listed fields have the annotated types and both
    directories can be made, the run of Aviapark returns the diff between
    the stored shops and the listed ones, in the order of the listing.
    Each listed shop is stamped with its own clock reading, the report
    with the reading after the last of them, and the snapshot, if it can
    be opened and no path among the reports leads to it, is replaced by
    the listed shops. *)
Theorem listing_of_objects_is_diffed `{HashOrder} (filename : string)
    (w w0 : world) (members : list (string * pyval))
    (records : list (list (string * pyval))) (old_list new_list : list Point) :
  vendor w aviapark_url = Body (PDict members) →
  members_get members "departments" PNone = PList (PDict <$> records) →
  (load_old_shops (Some filename) w).1 = Done (of_point <$> old_list) →
  imap (λ i, listed_shop (clock w) (ticks w + i)) records = of_point <$> new_list →
  makedirs (snapshot_dir filename) w = (Done tt, w0) →
  (makedirs "reports" w).1 = Done tt →
  target w "reports" ≠ target w filename →
  ∃ r w', parse_aviapark filename w = (Done (Some r), w')
    ∧ analyze_changes (stamp (clock w (ticks w + length records)%nat))
        old_list new_list = Some r
    ∧ (openable w0 filename = true → apart_from_reports w filename →
       files w' !! target w filename
       = Some (File (JsonText (PList (asdict <$> new_list))))).
Proof.
  intros Hvendor Hlist Hload Htyped Hmade Hreports Hne.
  destruct (parse_aviapark_listing filename w members records old_list)
    as [lines ->]; try done.
  rewrite Htyped.
  destruct (finish_typed filename (of_point <$> old_list) (of_point <$> new_list)
              old_list new_list w w0 (advanced (said w lines) (length records)))
    as (r & w' & -> & Hr & _ & Hfile); try done.
  { apply to_points_of_points. }
  { apply to_points_of_points. }
  exists r, w'. split_and!; try done.
  intros Hopen Hapart. rewrite (Hfile Hopen Hapart).
  by rewrite <-list_fmap_compose.
Qed.

Lemma listing_of_objects_is_diffed_witness :
  ∃ r w', @parse_aviapark insertion_order "data/aviapark.json" online_world
          = (Done (Some r), w')
    ∧ @analyze_changes insertion_order "2025-01-01 00:00:00" []
        [mkPoint "1" "Shop A" ["food"] [] "2025-01-01 00:00:00" "unknown"] = Some r
    ∧ (openable (with_dirs {["data"; "."]} online_world) "data/aviapark.json"
       = true →
       apart_from_reports online_world "data/aviapark.json" →
       files w' !! target online_world "data/aviapark.json"
       = Some (File (JsonText (PList (asdict <$>
           [mkPoint "1" "Shop A" ["food"] [] "2025-01-01 00:00:00" "unknown"]))))).
Proof.
  apply (@listing_of_objects_is_diffed insertion_order "data/aviapark.json"
           online_world (with_dirs {["data"; "."]} online_world)
           [("departments",
             PList [PDict [("id", PStr "1"); ("title", PStr "Shop A");
                           ("categories", PList [PStr "food"])]])]
           [[("id", PStr "1"); ("title", PStr "Shop A");
             ("categories", PList [PStr "food"])]]
           [] [mkPoint "1" "Shop A" ["food"] [] "2025-01-01 00:00:00" "unknown"]).
  - reflexivity.
  - reflexivity.
  - vm_compute. reflexivity.
  - vm_compute. reflexivity.
  - vm_compute. reflexivity.
  - vm_compute. reflexivity.
  - discriminate.
Defined.

(** What the two loops never fill in. *)
Lemma aviapark_loop_assigned items w new_shops w' :
  mapM aviapark_shop items w = (Done new_shops, w') →
  Forall (λ shop, dyn_assigned_categories shop = PList []) new_shops.
Proof.
  revert w new_shops w'. induction items as [|item items IH]; intros w new_shops w'.
  - intros [= <- _]. constructor.
  - rewrite mapM_run_cons.
    destruct item as [| | | | | |fields]; try done.
    rewrite aviapark_shop_fields.
    destruct (mapM aviapark_shop items (ticked w)) as [[k|e|] w2] eqn:Hrest; try done.
    intros [= <- _]. constructor; [done|]. by apply (IH _ _ _ Hrest).
Qed.

Lemma riviera_shop_fields fields w :
  riviera_shop (PDict fields) w
  = (Done (mkDynPoint (members_get fields "id" PNone)
             (members_get fields "title" PNone) (PList []) (PList [])
             (PStr (stamp (clock w (ticks w))))
             (members_get fields "status" (PStr "unknown"))), ticked w).
Proof. reflexivity. Qed.

Lemma riviera_loop_assigned items w new_shops w' :
  mapM riviera_shop items w = (Done new_shops, w') →
  Forall (λ shop, dyn_assigned_categories shop = PList []
                  ∧ dyn_parsed_categories shop = PList []) new_shops.
Proof.
  revert w new_shops w'. induction items as [|item items IH]; intros w new_shops w'.
  - intros [= <- _]. constructor.
  - rewrite mapM_run_cons.
    destruct item as [| | | | | |fields]; try done.
    rewrite riviera_shop_fields.
    destruct (mapM riviera_shop items (ticked w)) as [[k|e|] w2] eqn:Hrest; try done.
    intros [= <- _]. constructor; [done|]. by apply (IH _ _ _ Hrest).
Qed.

Lemma typed_without_list (P : Point → Prop) (Q : DynPoint → Prop) new_list :
  (∀ p, Q (of_point p) → P p) →
  Forall Q (of_point <$> new_list) → Forall P new_list.
Proof.
  intros HPQ Hall. rewrite Forall_fmap in Hall.
  eapply Forall_impl; [exact Hall|]. intros p. apply HPQ.
Qed.

(** X21. Assigned categories do not survive a run: in the snapshot that a
    run on shops of the annotated types leaves behind when it returns a
    report, every shop has an empty list of assigned categories (Riviera:
    of parsed categories too), whatever the snapshot held before.  As in
    X16 the snapshot must be one that could be written and that no path
    among the reports leads to. *)
Theorem run_resets_assigned_categories `{HashOrder} (filename : string)
    (w : world) (r : ChangeReport) :
  openable (makedirs (snapshot_dir filename) w).2 filename = true →
  apart_from_reports w filename →
  ((parse_aviapark filename w).1 = Done (Some r) →
   ∃ new_list,
     files (parse_aviapark filename w).2 !! target w filename
     = Some (File (JsonText (PList (asdict <$> new_list))))
     ∧ Forall (λ p, assigned_categories p = []) new_list)
  ∧ ((parse_riviera filename w).1 = Done (Some r) →
     ∃ new_list,
       files (parse_riviera filename w).2 !! target w filename
       = Some (File (JsonText (PList (asdict <$> new_list))))
       ∧ Forall (λ p, assigned_categories p = [] ∧ parsed_categories p = [])
           new_list).
Proof.
  intros Hopen Hapart. split.
  - destruct (parse_aviapark filename w) as [o w'] eqn:Hrun. simpl. intros ->.
    apply parse_aviapark_done in Hrun
      as (old_shops & lines0 & items & new_shops & w2 & w3 & Hload & Hw2 & Hloop & Hrun).
    pose proof (keeps_mapM aviapark_shop items keeps_aviapark_shop w2) as Hw3.
    rewrite Hloop in Hw3. simpl in Hw3.
    apply aviapark_loop_assigned in Hloop.
    apply (finish_done _ _ _ w) in Hrun
      as (old_list & new_list & w0 & -> & -> & _ & Hmade & _ & Hfile);
      [|by eapply same_disk_trans].
    rewrite Hmade in Hopen.
    exists new_list. split; [by apply Hfile|].
    eapply typed_without_list; [|exact Hloop].
    intros p [= Hassigned]. by destruct (assigned_categories p).
  - destruct (parse_riviera filename w) as [o w'] eqn:Hrun. simpl. intros ->.
    apply parse_riviera_done in Hrun
      as (old_shops & lines0 & items & new_shops & w2 & w3 & Hload & Hw2 & Hloop & Hrun).
    pose proof (keeps_mapM riviera_shop items keeps_riviera_shop w2) as Hw3.
    rewrite Hloop in Hw3. simpl in Hw3.
    apply riviera_loop_assigned in Hloop.
    apply (finish_done _ _ _ w) in Hrun
      as (old_list & new_list & w0 & -> & -> & _ & Hmade & _ & Hfile);
      [|by eapply same_disk_trans].
    rewrite Hmade in Hopen.
    exists new_list. split; [by apply Hfile|].
    eapply typed_without_list; [|exact Hloop].
    intros p [[= Hassigned] [= Hparsed]].
    split; [by destruct (assigned_categories p)|by destruct (parsed_categories p)].
Qed.

Lemma run_resets_assigned_categories_witness :
  ∃ r, (@parse_aviapark insertion_order "data/aviapark.json" online_world).1
       = Done (Some r)
    ∧ ∃ new_list,
        files (@parse_aviapark insertion_order "data/aviapark.json" online_world).2
          !! target online_world "data/aviapark.json"
        = Some (File (JsonText (PList (asdict <$> new_list))))
        ∧ Forall (λ p, assigned_categories p = []) new_list.
Proof.
  eexists. split; [vm_compute; reflexivity|].
  edestruct (@run_resets_assigned_categories insertion_order
               "data/aviapark.json" online_world) as [Haviapark _];
    [vm_compute; reflexivity
    |intros path [tail ->]; simpl; discriminate
    |apply Haviapark; vm_compute; reflexivity].
Defined.

(** ** A directory of the reports that cannot be made *)

(** What [os.makedirs] refused before the snapshot was saved it refuses
    after. *)
Lemma reports_dir_still_refused filename new_shop_list w w0 :
  makedirs (snapshot_dir filename) w = (Done tt, w0) →
  (makedirs "reports" w).1 = Raised OSError →
  makedirs "reports" (after_save new_shop_list filename w0)
  = (Raised OSError, after_save new_shop_list filename w0).
Proof.
  intros Hmade Hreports.
  pose proof (makedirs_fresh _ _ _ _ Hmade (target w "reports")) as Hfresh.
  destruct (after_save_disk new_shop_list filename w0)
    as (Hdirs1 & Hden1 & Htg1 & _ & _ & Hfiles1).
  destruct (makedirs_done _ _ _ Hmade) as (ds & -> & Hsub). simpl in *.
  rewrite makedirs_reports in *. unfold mkdir, exists_at, is_dir in *.
  rewrite Hdirs1, Hden1, Htg1, Hfiles1.
  destruct (bool_decide (target w "reports" ∈ dirs w)) eqn:Hin; [done|].
  apply bool_decide_eq_false in Hin.
  assert (is_Some (files w !! target w "reports") ∨ denied w (target w "reports") = true)
    as Hcause.
  { destruct (bool_decide (is_Some (files w !! target w "reports"))) eqn:Hfile.
    - left. by apply bool_decide_eq_true in Hfile.
    - right. by destruct (denied w (target w "reports")). }
  rewrite bool_decide_eq_false_2.
  2: { intros Hds. destruct (Hfresh Hds) as [?|[Hnone Hden]]; [done|].
       destruct Hcause as [[n Hn]|Hd]; congruence. }
  destruct Hcause as [Hfile| ->]; [|by rewrite orb_true_r].
  rewrite bool_decide_eq_true_2; [done|].
  destruct (openable _ _); [|done].
  destruct (decide (target w filename = target w "reports")) as [->|Hne].
  - rewrite lookup_insert_eq. by eexists.
  - by rewrite lookup_insert_ne.
Qed.

(** X22. The snapshot is written before the directory of the reports is
    made.  When that directory cannot be made (a file has its name, say),
    a run of Aviapark on a listing of objects of the annotated types ends
    with [OSError] after the snapshot was replaced by the listed shops,
    and no report is written. *)
Theorem snapshot_written_before_reports `{HashOrder} (filename : string)
    (w w0 : world) (members : list (string * pyval))
    (records : list (list (string * pyval))) (old_list new_list : list Point) :
  vendor w aviapark_url = Body (PDict members) →
  members_get members "departments" PNone = PList (PDict <$> records) →
  (load_old_shops (Some filename) w).1 = Done (of_point <$> old_list) →
  imap (λ i, listed_shop (clock w) (ticks w + i)) records = of_point <$> new_list →
  makedirs (snapshot_dir filename) w = (Done tt, w0) →
  (makedirs "reports" w).1 = Raised OSError →
  ∃ w', parse_aviapark filename w = (Raised OSError, w')
    ∧ files w'
      = if openable w0 filename
        then <[target w filename
               := File (JsonText (PList (asdict <$> new_list)))]> (files w)
        else files w.
Proof.
  intros Hvendor Hlist Hload Htyped Hmade Hreports.
  destruct (parse_aviapark_listing filename w members records old_list)
    as [lines ->]; try done.
  rewrite Htyped, finish_writers.
  rewrite (bind_returned _ _ _ _ _ (print_said _ _)).
  match goal with |- context [said ?w3 [ShopsAfter ?n]] =>
    destruct (diff_typed (of_point <$> old_list) (of_point <$> new_list)
                old_list new_list (said w3 [ShopsAfter n])
                (to_points_of_points _) (to_points_of_points _))
      as (r & Hdiff & _);
    rewrite (bind_returned _ _ _ _ _ Hdiff);
    set (w4 := ticked (said w3 [ShopsAfter n])) end.
  assert (same_disk w w4) as Hsame by (by repeat split).
  destruct (makedirs_pair (snapshot_dir filename) w w4 Hsame)
    as (ok & ds & Hw & Hw4 & _).
  rewrite Hw in Hmade. destruct ok; [|done]. injection Hmade as <-.
  destruct (makedirs_pair "reports" w w4 Hsame) as (ok & ds' & Hr & Hr4 & _).
  rewrite Hr in Hreports. destruct ok; [done|].
  unfold writers.
  rewrite (bind_returned _ _ _ _ _
             (save_new_shops_after (of_point <$> new_list) _ _ _ Hw4)).
  eexists. split.
  - apply bind_raised. unfold save_report_to_json. cbv zeta.
    apply (bind_raised (makedirs "reports")).
    apply (reports_dir_still_refused filename _ w4 _ Hw4). by rewrite Hr4.
  - destruct (after_save_disk (of_point <$> new_list) filename (with_dirs ds w4))
      as (_ & _ & _ & _ & _ & ->).
    rewrite (openable_same_disk _ _ _ (same_disk_with_dirs ds _ _ Hsame)).
    unfold asdict. by rewrite <-list_fmap_compose.
Qed.

Lemma snapshot_written_before_reports_witness :
  ∃ w', @parse_aviapark insertion_order "data/aviapark.json" reports_taken_world
        = (Raised OSError, w')
    ∧ files w'
      = if openable (with_dirs {["data"; "."]} reports_taken_world)
             "data/aviapark.json"
        then <[target reports_taken_world "data/aviapark.json"
               := File (JsonText (PList (asdict <$>
                    [mkPoint "1" "Shop A" ["food"] [] "2025-01-01 00:00:00"
                       "unknown"])))]> (files reports_taken_world)
        else files reports_taken_world.
Proof.
  apply (@snapshot_written_before_reports insertion_order "data/aviapark.json"
           reports_taken_world (with_dirs {["data"; "."]} reports_taken_world)
           [("departments",
             PList [PDict [("id", PStr "1"); ("title", PStr "Shop A");
                           ("categories", PList [PStr "food"])]])]
           [[("id", PStr "1"); ("title", PStr "Shop A");
             ("categories", PList [PStr "food"])]]
           [] [mkPoint "1" "Shop A" ["food"] [] "2025-01-01 00:00:00" "unknown"]).
  - reflexivity.
  - reflexivity.
  - vm_compute. reflexivity.
  - vm_compute. reflexivity.
  - vm_compute. reflexivity.
  - vm_compute. reflexivity.
Defined.
